(** * wise: the agent loop, its parser, validator and executor

    A shallow embedding of the control loop of github.com/j0lvera/wise.
    Two packages of the repository hold near-identical copies of the loop:
    package [agent] (agent/agent.go, agent/parser.go, agent/executor.go) and
    package [wise] (agent.go, config.go, errors.go) with its
    [environments/local] executor.  Both are embedded below, each in a module
    named after its package.

    Go strings are byte sequences and are modelled as [list ascii]; Go [int]
    is modelled as [Z] (no arithmetic that may overflow occurs in the code
    under study).  Logging calls (zerolog) have no effect on any value the
    code returns or stores and are left out. *)

From Stdlib Require Import List String Ascii ZArith NArith Lia Bool DecimalString.
Import ListNotations.
Open Scope Z_scope.

(** ** Go strings and the library functions the code calls *)

Definition gostring := list ascii.

(** String literals. *)
Definition str (s : string) : gostring := list_ascii_of_string s.

Definition nl : ascii := "010"%char.
Definition dquote : ascii := "034"%char.

Definition code (c : ascii) : N := N_of_ascii c.

Module strings.

(** The table [asciiSpace] of package strings: tab, newline, vertical tab,
    form feed, carriage return and space. *)
Definition asciiSpace (c : ascii) : bool :=
  ((9 <=? code c) && (code c <=? 13) || (code c =? 32))%N.

(** [unicode.IsSpace] on the runes whose UTF-8 encoding takes two bytes:
    U+0085 (C2 85) and U+00A0 (C2 A0). *)
Definition isSpace2 (c0 c1 : ascii) : bool :=
  ((code c0 =? 194) && ((code c1 =? 133) || (code c1 =? 160)))%N.

(** [unicode.IsSpace] on the runes whose UTF-8 encoding takes three bytes:
    U+1680 (E1 9A 80), U+2000..U+200A (E2 80 80..8A), U+2028, U+2029,
    U+202F (E2 80 A8, A9, AF), U+205F (E2 81 9F) and U+3000 (E3 80 80). *)
Definition isSpace3 (c0 c1 c2 : ascii) : bool :=
  (((code c0 =? 225) && (code c1 =? 154) && (code c2 =? 128))
   || ((code c0 =? 226) && (code c1 =? 128)
       && (((128 <=? code c2) && (code c2 <=? 138))
           || (code c2 =? 168) || (code c2 =? 169) || (code c2 =? 175)))
   || ((code c0 =? 226) && (code c1 =? 129) && (code c2 =? 159))
   || ((code c0 =? 227) && (code c1 =? 128) && (code c2 =? 128)))%N.

(** Drop white-space runes from the front.  [sp2] and [sp3] recognise the
    two- and three-byte encodings in the order the bytes are met. *)
Fixpoint trimFront (sp2 : ascii -> ascii -> bool)
         (sp3 : ascii -> ascii -> ascii -> bool) (s : gostring) : gostring :=
  match s with
  | [] => []
  | c0 :: r0 =>
      if asciiSpace c0 then trimFront sp2 sp3 r0
      else match r0 with
           | [] => s
           | c1 :: r1 =>
               if sp2 c0 c1 then trimFront sp2 sp3 r1
               else match r1 with
                    | [] => s
                    | c2 :: r2 =>
                        if sp3 c0 c1 c2 then trimFront sp2 sp3 r2 else s
                    end
           end
  end.

(** [strings.TrimLeftFunc(s, unicode.IsSpace)]. *)
Definition TrimLeftSpace (s : gostring) : gostring :=
  trimFront isSpace2 isSpace3 s.

(** [strings.TrimRightFunc(s, unicode.IsSpace)]: the same scan from the
    last byte backwards. *)
Definition TrimRightSpace (s : gostring) : gostring :=
  rev (trimFront (fun c1 c0 => isSpace2 c0 c1)
                 (fun c2 c1 c0 => isSpace3 c0 c1 c2) (rev s)).

(** [strings.TrimSpace]. *)
Definition TrimSpace (s : gostring) : gostring :=
  TrimRightSpace (TrimLeftSpace s).

(** [strings.SplitN(s, "\n", 2)]: the whole string when it has no newline,
    otherwise the text before and the text after the first newline. *)
Fixpoint SplitN_nl_2 (s : gostring) : list gostring :=
  match s with
  | [] => [[]]
  | c :: r =>
      if Ascii.eqb c nl then [[]; r]
      else match SplitN_nl_2 r with
           | p :: ps => (c :: p) :: ps
           | [] => [[c]]
           end
  end.

(** [strings.HasPrefix(s, prefix)], returning the rest of [s] as well. *)
Fixpoint CutPrefix (prefix s : gostring) : option gostring :=
  match prefix, s with
  | [], _ => Some s
  | p :: ps, c :: r => if Ascii.eqb p c then CutPrefix ps r else None
  | _ :: _, [] => None
  end.

(** [strings.Contains(s, substr)]. *)
Fixpoint Contains (s substr : gostring) : bool :=
  match CutPrefix substr s with
  | Some _ => true
  | None => match s with
            | [] => false
            | _ :: r => Contains r substr
            end
  end.

End strings.

(** [fmt.Sprintf("%d", n)] for an int. *)
Definition itoa (n : Z) : gostring :=
  list_ascii_of_string (NilZero.string_of_int (Z.to_int n)).

(** The comparison [a == b] of two Go strings. *)
Definition eqs (a b : gostring) : bool :=
  if list_eq_dec ascii_dec a b then true else false.

(** Lines joined by newlines, for multi-line literals. *)
Fixpoint unlines (ls : list gostring) : gostring :=
  match ls with
  | [] => []
  | [l] => l
  | l :: rest => l ++ nl :: unlines rest
  end.

(** ** Data model *)

(** [models.Message] (and [agent.Message]): a role and a content. *)
Record Message := { Role : gostring; Content : gostring }.

Definition RoleSystem : gostring := str "system".
Definition RoleUser : gostring := str "user".
Definition RoleAssistant : gostring := str "assistant".

(** [environments.Action] (and [agent.Action]). *)
Record Action := { Type_ : gostring; Command : gostring }.

Definition ActionTypeBash : gostring := str "bash".

(** [environments.Output] (and [agent.Output]). *)
Record Output :=
  { Stdout : gostring; Stderr : gostring; ExitCode : Z; TimedOut : bool }.

(** The zero value [Output{}]. *)
Definition Output_zero : Output :=
  {| Stdout := []; Stderr := []; ExitCode := 0; TimedOut := false |}.

(** The zero value [Action{}]. *)
Definition Action_zero : Action := {| Type_ := []; Command := [] |}.

(** *** errors.go *)

Definition ReasonComplete : gostring := str "complete".
Definition ReasonStepLimit : gostring := str "step_limit".
Definition ReasonCostLimit : gostring := str "cost_limit".
Definition ReasonUserAbort : gostring := str "user_abort".

(** [TerminatingErr]; the Go field [Output] is [FinalOutput] here. *)
Record TerminatingErr := { Reason : gostring; FinalOutput : gostring }.

Definition ProcessErrFormat : gostring := str "format".
Definition ProcessErrTimeout : gostring := str "timeout".
Definition ProcessErrExecution : gostring := str "execution".

(** [ProcessErr]: the Go fields [Type] and [Message]. *)
Record ProcessErr := { ErrType : gostring; ErrMessage : gostring }.

(** [local.ExecutionErrorType] and [local.ExecutionError]. *)
Definition ErrTimeout : gostring := str "timeout".
Definition ErrExecution : gostring := str "execution".
Definition ErrBlocked : gostring := str "blocked".

Record ExecutionError := { ExecType : gostring; ExecMessage : gostring }.

(** Go [error] values, as far as the loop tells them apart: the three
    pointer types it looks for with [errors.As], errors without a cause
    ([errors.New], [fmt.Errorf] without a wrapping verb, errors of the
    process and of the context), and [fmt.Errorf] with the wrapping verb,
    which keeps its cause reachable.

    Package agent declares [TerminatingErr] and [ProcessErr] of its own (its
    errors.go is not among the sources); they are used as in errors.go of
    package wise and are identified with them here.  No program mixes the
    two packages: their [Action] and [Output] types differ. *)
Inductive error :=
| TerminatingE (e : TerminatingErr)
| ProcessE (e : ProcessErr)
| ExecutionE (e : ExecutionError)
| PlainE (msg : gostring)
| WrapE (msg : gostring) (cause : error).

(** [errors.As(err, &termErr)] with [termErr] a [*TerminatingErr]. *)
Fixpoint As_TerminatingErr (err : error) : option TerminatingErr :=
  match err with
  | TerminatingE e => Some e
  | WrapE _ cause => As_TerminatingErr cause
  | _ => None
  end.

(** [errors.As(err, &procErr)] with [procErr] a [*ProcessErr]. *)
Fixpoint As_ProcessErr (err : error) : option ProcessErr :=
  match err with
  | ProcessE e => Some e
  | WrapE _ cause => As_ProcessErr cause
  | _ => None
  end.

(** [errors.As(err, &execErr)] with [execErr] a [*local.ExecutionError]. *)
Fixpoint As_ExecutionError (err : error) : option ExecutionError :=
  match err with
  | ExecutionE e => Some e
  | WrapE _ cause => As_ExecutionError cause
  | _ => None
  end.

(** ** The action parser (agent/parser.go) *)

Module regexp.

(** The class [\s] of Go regular expressions: tab, newline, form feed,
    carriage return and space. *)
Definition perl_space (c : ascii) : bool :=
  ((code c =? 9) || (code c =? 10) || (code c =? 12) || (code c =? 13)
   || (code c =? 32))%N.

Definition fence_open : gostring := str "```bash".
Definition fence_close : gostring := nl :: str "```".

(** The lazy group followed by the closing fence: the capture stops at the
    first place where a newline and three backquotes follow. *)
Fixpoint match_lazy_close (s : gostring) : option (gostring * gostring) :=
  match strings.CutPrefix fence_close s with
  | Some rest => Some ([], rest)
  | None =>
      match s with
      | [] => None
      | c :: r =>
          match match_lazy_close r with
          | Some (cap, rest) => Some (c :: cap, rest)
          | None => None
          end
      end
  end.

(** The greedy white space, the newline and what follows: the star first
    tries to take one more character, and gives it back to the newline
    only when the rest fails that way. *)
Fixpoint match_spaces_nl (s : gostring) : option (gostring * gostring) :=
  match s with
  | [] => None
  | c :: r =>
      if perl_space c then
        match match_spaces_nl r with
        | Some m => Some m
        | None => if Ascii.eqb c nl then match_lazy_close r else None
        end
      else None
  end.

(** A match of [commandRegex] that starts at the first byte of [s]: the
    submatch and the text after the match. *)
Definition match_here (s : gostring) : option (gostring * gostring) :=
  match strings.CutPrefix fence_open s with
  | Some r => match_spaces_nl r
  | None => None
  end.

(** The scan of [FindAllStringSubmatch]: leftmost matches, one after the
    other, none overlapping.  [skip] counts the bytes of the last match
    that are still to be passed over. *)
Fixpoint scan (skip : nat) (s : gostring) : list gostring :=
  match s with
  | [] => []
  | c :: r =>
      match skip with
      | S k => scan k r
      | O =>
          match match_here s with
          | Some (cap, rest) =>
              cap :: scan (List.length r - List.length rest) r
          | None => scan O r
          end
      end
  end.

(** [commandRegex.FindAllStringSubmatch(response, -1)], each match given by
    its submatch 1. *)
Definition FindAllStringSubmatch (response : gostring) : list gostring :=
  scan O response.

End regexp.

Module parser.

(** [ParseAction] of [BashParser]. *)
Definition ParseAction (response : gostring) : Action * option error :=
  let matches := regexp.FindAllStringSubmatch response in
  match matches with
  | [] =>
      (Action_zero,
       Some (ProcessE
         {| ErrType := ProcessErrFormat;
            ErrMessage := str "No bash command found. If the task is complete, respond with TASK_COMPLETE. Otherwise, provide exactly one command in ```bash``` block." |}))
  | m :: more =>
      if (1 <? Z.of_nat (List.length matches)) then
        (Action_zero,
         Some (ProcessE
           {| ErrType := ProcessErrFormat;
              ErrMessage :=
                str "Found " ++ itoa (Z.of_nat (List.length matches))
                ++ str " commands, expected exactly one. Please provide a single command in ```bash``` block." |}))
      else
        let command := strings.TrimSpace m in
        if eqs command [] then
          (Action_zero,
           Some (ProcessE
             {| ErrType := ProcessErrFormat;
                ErrMessage := str "Empty command in bash block. Please provide a valid command." |}))
        else
          ({| Type_ := ActionTypeBash; Command := command |}, None)
  end.

End parser.

(** ** The outside world

    The model, the processes a command starts and the cancellation context
    live outside the program.  Their state is a value of an arbitrary type
    [W] that only they read and change; the program threads it through.
    Next to it the embedding keeps a log of the calls the program makes to
    its collaborators, which plays the part of a spy on them. *)

Inductive Event :=
| EvQuery (history : list Message)
| EvHandler (a : Action)
| EvExecute (a : Action)
| EvSpawn (command dir : gostring) (timeout : Z)
| EvWrite (text : gostring).

Record Sys (W : Type) := { world : W; trace : list Event }.
Arguments world {W} _.
Arguments trace {W} _.

Definition record {W : Type} (ev : Event) (s : Sys W) : Sys W :=
  {| world := world s; trace := trace s ++ [ev] |}.

(** [context.Context], of which the code only calls [Err]. *)
Definition context (W : Type) := W -> option error.

(** What [cmd.Run] leaves behind: the two buffers, the error it returned
    (its text and, for an [*exec.ExitError], the exit code) and whether the
    deadline of the derived context had passed by then. *)
Record RunError := { Error_text : gostring; ExitError_code : option Z }.

Record ProcResult :=
  { proc_stdout : gostring;
    proc_stderr : gostring;
    proc_err : option RunError;
    DeadlineExceeded : bool }.

(** [exec.CommandContext(timeoutCtx, "bash", "-c", command)] with its
    directory, followed by [Run]. *)
Definition Launcher (W : Type) :=
  context W -> gostring -> gostring -> Z -> W -> ProcResult * W.

(** Formatting done by package fmt that is not spelled out here: the verb
    for quoted strings and the text of a [time.Duration]. *)
Class Fmt := { Quote : gostring -> gostring; Duration_String : Z -> gostring }.

(** A compiled [*regexp.Regexp]: its source text and its matcher. *)
Record Regexp := { String_ : gostring; MatchString : gostring -> bool }.

(** [environments.CommandValidator] (and [agent.CommandValidator]). *)
Definition CommandValidator := gostring -> option error.

(** ** Validator and executor of package agent (agent/executor.go) *)

Module agent_executor.
Section agent_executor.
Context {W : Type} {fmt : Fmt}.

Record BlocklistValidator := { patterns : list Regexp }.

(** The loop of [Validate].  The first component lists the patterns on
    which [MatchString] was called, in order. *)
Fixpoint Validate_loop (ps : list Regexp) (command : gostring)
  : list Regexp * option error :=
  match ps with
  | [] => ([], None)
  | re :: rest =>
      if MatchString re command then
        ([re],
         Some (ProcessE
           {| ErrType := ProcessErrExecution;
              ErrMessage :=
                str "Command blocked for safety: matches pattern "
                ++ Quote (String_ re)
                ++ str ". Please use a safer alternative." |}))
      else
        let '(seen, r) := Validate_loop rest command in (re :: seen, r)
  end.

Definition Validate (v : BlocklistValidator) (command : gostring)
  : option error :=
  snd (Validate_loop (patterns v) command).

Record BashExecutor :=
  { timeout : Z; workingDir : gostring; validator : option CommandValidator }.

(** [Output.String] of package agent. *)
Definition Output_String (o : Output) : gostring :=
  let result := Stdout o in
  let result :=
    if negb (eqs (Stderr o) []) then result ++ nl :: str "stderr: " ++ Stderr o
    else result in
  if negb (ExitCode o =? 0) then result ++ nl :: str "exit code: " ++ itoa (ExitCode o)
  else result.

Definition Execute (launch : Launcher W) (e : BashExecutor) (ctx : context W)
           (action : Action) (s : Sys W) : (Output * option error) * Sys W :=
  if negb (eqs (Type_ action) ActionTypeBash) then
    ((Output_zero,
      Some (PlainE (str "unsupported action type: " ++ Type_ action))), s)
  else
    match match validator e with
          | Some v => v (Command action)
          | None => None
          end with
    | Some err => ((Output_zero, Some err), s)
    | None =>
        let '(r, w) := launch ctx (Command action) (workingDir e) (timeout e)
                              (world s) in
        let s' := {| world := w;
                     trace := trace s ++ [EvSpawn (Command action)
                                                  (workingDir e) (timeout e)] |} in
        let output := {| Stdout := proc_stdout r; Stderr := proc_stderr r;
                         ExitCode := 0; TimedOut := false |} in
        match proc_err r with
        | Some err =>
            if DeadlineExceeded r then
              let output := {| Stdout := Stdout output; Stderr := Stderr output;
                               ExitCode := ExitCode output; TimedOut := true |} in
              ((output,
                Some (ProcessE
                  {| ErrType := ProcessErrTimeout;
                     ErrMessage :=
                       str "Command timed out after "
                       ++ Duration_String (timeout e)
                       ++ str ". Partial output:" ++ nl :: Output_String output |})),
               s')
            else
              let output :=
                match ExitError_code err with
                | Some c => {| Stdout := Stdout output; Stderr := Stderr output;
                               ExitCode := c; TimedOut := TimedOut output |}
                | None => output
                end in
              ((output,
                Some (ProcessE
                  {| ErrType := ProcessErrExecution;
                     ErrMessage :=
                       str "Command failed: " ++ Error_text err
                       ++ nl :: str "Output:" ++ nl :: Output_String output |})),
               s')
        | None => ((output, None), s')
        end
    end.

End agent_executor.
End agent_executor.

(** ** The local environment (environments/local) *)

Module local.
Section local.
Context {W : Type} {fmt : Fmt}.

Record Config :=
  { timeout : Z; workingDir : gostring; validator : option CommandValidator }.

(** [Output.String] of package environments. *)
Definition Output_String (o : Output) : gostring :=
  if negb (eqs (Stderr o) []) then Stdout o ++ nl :: Stderr o else Stdout o.

(** The default of [time.Duration] in [New]: thirty seconds, in
    nanoseconds. *)
Definition thirty_seconds : Z := 30 * 1000000000.

(** [New]: the environment is its configuration, with the default
    timeout. *)
Definition New (cfg : Config) : Config :=
  if timeout cfg =? 0 then
    {| timeout := thirty_seconds; workingDir := workingDir cfg;
       validator := validator cfg |}
  else cfg.

Definition Execute (launch : Launcher W) (e : Config) (ctx : context W)
           (action : Action) (s : Sys W) : (Output * option error) * Sys W :=
  if negb (eqs (Type_ action) ActionTypeBash) then
    ((Output_zero,
      Some (PlainE (str "unsupported action type: " ++ Type_ action))), s)
  else
    match match validator e with
          | Some v => v (Command action)
          | None => None
          end with
    | Some err => ((Output_zero, Some err), s)
    | None =>
        let '(r, w) := launch ctx (Command action) (workingDir e) (timeout e)
                              (world s) in
        let s' := {| world := w;
                     trace := trace s ++ [EvSpawn (Command action)
                                                  (workingDir e) (timeout e)] |} in
        let output := {| Stdout := proc_stdout r; Stderr := proc_stderr r;
                         ExitCode := 0; TimedOut := false |} in
        match proc_err r with
        | Some err =>
            if DeadlineExceeded r then
              let output := {| Stdout := Stdout output; Stderr := Stderr output;
                               ExitCode := ExitCode output; TimedOut := true |} in
              ((output,
                Some (ExecutionE
                  {| ExecType := ErrTimeout;
                     ExecMessage :=
                       str "Command timed out after "
                       ++ Duration_String (timeout e)
                       ++ str ". Partial output:" ++ nl :: Output_String output |})),
               s')
            else
              let output :=
                match ExitError_code err with
                | Some c => {| Stdout := Stdout output; Stderr := Stderr output;
                               ExitCode := c; TimedOut := TimedOut output |}
                | None => output
                end in
              ((output,
                Some (ExecutionE
                  {| ExecType := ErrExecution;
                     ExecMessage :=
                       str "Command failed: " ++ Error_text err
                       ++ nl :: str "Output:" ++ nl :: Output_String output |})),
               s')
        | None => ((output, None), s')
        end
    end.

End local.
End local.

(** ** Completion marker and observations

    [isTaskComplete], [extractFinalOutput] and [formatObservation] have the
    same text in agent.go (methods of [baseAgent]) and in agent/agent.go
    (methods of [BaseAgent]); none of them reads its receiver. *)

Definition completionMarker : gostring := str "TASK_COMPLETE".

Definition isTaskComplete (output : Output) : bool :=
  let firstLine :=
    hd [] (strings.SplitN_nl_2 (strings.TrimSpace (Stdout output))) in
  eqs (strings.TrimSpace firstLine) completionMarker.

Definition extractFinalOutput (output : Output) : gostring :=
  match strings.SplitN_nl_2 (Stdout output) with
  | _ :: after :: _ => strings.TrimSpace after
  | _ => []
  end.

Definition maxLen : Z := 10000.

Definition truncation_notice : gostring :=
  nl :: nl :: str "[... output truncated ...]" ++ [nl; nl].

Definition formatObservation (output : Output) : gostring :=
  if eqs (strings.TrimSpace (Stdout output)) [] && (ExitCode output =? 0) then
    str "(no output)"
  else
    let result := Stdout output in
    let result :=
      if maxLen <? Z.of_nat (List.length result) then
        let head := firstn (Z.to_nat (maxLen / 2)) result in
        let tail := skipn (List.length result - Z.to_nat (maxLen / 2)) result in
        head ++ truncation_notice ++ tail
      else result in
    if negb (ExitCode output =? 0) then
      str "[exit code: " ++ itoa (ExitCode output) ++ str "]" ++ nl :: result
    else result.

(** ** Collaborators of the loop *)

(** [Parser]. *)
Definition Parser := gostring -> Action * option error.

(** [models.Model] (and [agent.Querier]). *)
Definition Model (W : Type) :=
  context W -> list Message -> W -> (gostring * option error) * W.

(** [environments.Environment] (and [agent.Executor]). *)
Definition Environment (W : Type) :=
  context W -> Action -> W -> (Output * option error) * W.

(** [ActionHandler]: the output, whether the action was handled, an error. *)
Definition ActionHandler (W : Type) :=
  context W -> Action -> W -> (Output * bool * option error) * W.

(** An [io.Writer] is either [io.Discard] or a writer whose writes are
    observed, in which case they are logged. *)
Inductive Writer := io_Discard | io_Writer.

(** A [*zerolog.Logger]: the no-op logger or any other. *)
Inductive Logger := zerolog_Nop | zerolog_Logger.

(** A call of a Go function either returns or panics (here: on a nil
    parser or a nil writer). *)
Inductive outcome :=
| Returned (response : gostring) (err : option error)
| Panicked.

(** One pass through the body of the loop of [Run]: it returns from [Run]
    or goes on to the next iteration with a value for [lastResponse]. *)
Inductive iteration :=
| Break (r : outcome)
| Continue (lastResponse : gostring).

(** [fmt.Fprint] on a writer that may be nil. *)
Definition Fprint {W : Type} (w : option Writer) (text : gostring) (s : Sys W)
  : option (Sys W) :=
  match w with
  | None => None
  | Some io_Discard => Some s
  | Some io_Writer => Some (record (EvWrite text) s)
  end.

(** ** Package wise (agent.go, config.go) *)

Module wise.

(** [DefaultSystemPrompt]. *)
Definition DefaultSystemPrompt : gostring :=
  unlines
    [ str "You are an autonomous agent that executes bash commands to complete tasks.";
      [];
      str "RULES:";
      str "1. You can ONLY execute bash commands by wrapping them in a markdown code block with the 'bash' language tag";
      str "2. Execute ONE command at a time and wait for the output";
      str "3. Use the command output to inform your next action";
      str "4. When the task is complete, output " ++ dquote :: str "TASK_COMPLETE"
        ++ dquote :: str " followed by a summary on the next line";
      [];
      str "Example command format:";
      str "```bash";
      str "ls -la";
      str "```";
      [];
      str "Example completion:";
      str "```bash";
      str "echo " ++ dquote :: str "TASK_COMPLETE" ++ [dquote];
      str "echo " ++ dquote :: str "Summary: Created hello.txt with the requested content"
        ++ [dquote];
      str "```" ].

(** Modelled from the spec: [NewBashParser] of package wise, whose
    parser.go is not among the sources.  The spec (4.1) describes one
    parser, the one agent/parser.go implements. *)
Definition NewBashParser : Parser := parser.ParseAction.

Section wise.
Context {W : Type}.

Record Config :=
  { parser : option Parser;
    logger : option Logger;
    output : option Writer;
    maxSteps : Z;
    systemPrompt : gostring;
    actionHandler : option (ActionHandler W) }.

(** The zero value [Config{}]. *)
Definition Config_zero : Config :=
  {| parser := None; logger := None; output := None; maxSteps := 0;
     systemPrompt := []; actionHandler := None |}.

Definition NewConfig : Config :=
  {| parser := None; logger := None; output := Some io_Discard;
     maxSteps := 25; systemPrompt := DefaultSystemPrompt;
     actionHandler := None |}.

Definition WithMaxSteps (c : Config) (n : Z) : Config :=
  {| parser := parser c; logger := logger c; output := output c;
     maxSteps := n; systemPrompt := systemPrompt c;
     actionHandler := actionHandler c |}.

Record baseAgent :=
  { model : Model W;
    env : Environment W;
    cfg : Config;
    messages : list Message;
    step : Z }.

Definition New (model : Model W) (env : Environment W) (cfg : Config)
  : baseAgent * option error :=
  let cfg :=
    if maxSteps cfg =? 0 then
      {| parser := parser cfg; logger := logger cfg; output := output cfg;
         maxSteps := 25; systemPrompt := systemPrompt cfg;
         actionHandler := actionHandler cfg |}
    else cfg in
  let cfg :=
    if eqs (systemPrompt cfg) [] then
      {| parser := parser cfg; logger := logger cfg; output := output cfg;
         maxSteps := maxSteps cfg; systemPrompt := DefaultSystemPrompt;
         actionHandler := actionHandler cfg |}
    else cfg in
  let cfg :=
    match output cfg with
    | None =>
        {| parser := parser cfg; logger := logger cfg;
           output := Some io_Discard; maxSteps := maxSteps cfg;
           systemPrompt := systemPrompt cfg;
           actionHandler := actionHandler cfg |}
    | Some _ => cfg
    end in
  let cfg :=
    match parser cfg with
    | None =>
        {| parser := Some NewBashParser; logger := logger cfg;
           output := output cfg; maxSteps := maxSteps cfg;
           systemPrompt := systemPrompt cfg;
           actionHandler := actionHandler cfg |}
    | Some _ => cfg
    end in
  let cfg :=
    match logger cfg with
    | None =>
        {| parser := parser cfg; logger := Some zerolog_Nop;
           output := output cfg; maxSteps := maxSteps cfg;
           systemPrompt := systemPrompt cfg;
           actionHandler := actionHandler cfg |}
    | Some _ => cfg
    end in
  ({| model := model; env := env; cfg := cfg; messages := []; step := 0 |},
   None).

Definition set_messages (a : baseAgent) (ms : list Message) : baseAgent :=
  {| model := model a; env := env a; cfg := cfg a; messages := ms;
     step := step a |}.

Definition set_step (a : baseAgent) (n : Z) : baseAgent :=
  {| model := model a; env := env a; cfg := cfg a; messages := messages a;
     step := n |}.

Definition addMessage (a : baseAgent) (role content : gostring) : baseAgent :=
  set_messages a (messages a ++ [{| Role := role; Content := content |}]).

Definition handleOutput (a : baseAgent) (output_ : Output) (s : Sys W)
  : outcome * baseAgent * Sys W :=
  match
    (if negb (isTaskComplete output_)
        && negb (eqs (strings.TrimSpace (Stdout output_)) [])
     then Fprint (output (cfg a)) (Stdout output_ ++ [nl]) s
     else Some s)
  with
  | None => (Panicked, a, s)
  | Some s1 =>
      if isTaskComplete output_ then
        (Returned (extractFinalOutput output_)
           (Some (TerminatingE {| Reason := ReasonComplete;
                                  FinalOutput := extractFinalOutput output_ |})),
         a, s1)
      else
        let feedback := formatObservation output_ in
        (Returned [] None, addMessage a RoleUser feedback, s1)
  end.

(** The step gets as far as the execution of an action: the context is
    live, the model answers [response], the parser finds [action] in it,
    and the command is echoed, which leaves the system in [s2]. *)
Definition reaches_action (ctx : context W) (a : baseAgent) (s : Sys W)
           (response : gostring) (action : Action) (s2 : Sys W) : Prop :=
  ctx (world s) = None
  /\ exists w1 p,
      model a ctx (messages a) (world s) = ((response, None), w1)
      /\ parser (cfg a) = Some p
      /\ p response = (action, None)
      /\ Fprint (output (cfg a)) (str "$ " ++ Command action ++ [nl])
           {| world := w1; trace := trace s ++ [EvQuery (messages a)] |}
         = Some s2.

(** The execution of an action in [Step]: the custom handler first and,
    when there is none or it leaves the action unhandled, the
    environment. *)
Definition run_action (a : baseAgent) (ctx : context W) (action : Action)
           (s : Sys W) : (Output * option error) * Sys W :=
  let default (s : Sys W) :=
    let '((o, err), w) := env a ctx action (world s) in
    ((o, err), {| world := w; trace := trace s ++ [EvExecute action] |}) in
  match actionHandler (cfg a) with
  | Some h =>
      let '((o, handled, err), w) := h ctx action (world s) in
      let s' := {| world := w; trace := trace s ++ [EvHandler action] |} in
      if handled then ((o, err), s') else default s'
  | None => default s
  end.

Definition Step (ctx : context W) (a : baseAgent) (s : Sys W)
  : outcome * baseAgent * Sys W :=
  match ctx (world s) with
  | Some err => (Returned [] (Some (WrapE (str "context cancelled") err)), a, s)
  | None =>
      let '((response, err), w1) := model a ctx (messages a) (world s) in
      let s1 := {| world := w1; trace := trace s ++ [EvQuery (messages a)] |} in
      match err with
      | Some err => (Returned [] (Some (WrapE (str "query failed") err)), a, s1)
      | None =>
          match parser (cfg a) with
          | None => (Panicked, a, s1)
          | Some p =>
              let '(action, err) := p response in
              match err with
              | Some err => (Returned [] (Some err), a, s1)
              | None =>
                  let a1 := addMessage a RoleAssistant response in
                  match Fprint (output (cfg a1))
                               (str "$ " ++ Command action ++ [nl]) s1 with
                  | None => (Panicked, a1, s1)
                  | Some s2 =>
                      match run_action a1 ctx action s2 with
                      | ((o, Some err), s3) => (Returned [] (Some err), a1, s3)
                      | ((o, None), s3) => handleOutput a1 o s3
                      end
                  end
              end
          end
      end
  end.

(** Two agents with the same collaborators and configuration. *)
Definition same_setup (a b : baseAgent) : Prop :=
  model a = model b /\ env a = env b /\ cfg a = cfg b.

(** The body of the loop of [Run]: it leaves [Run] with a result or goes
    on with a last response. *)
Definition Run_body (ctx : context W) (a : baseAgent) (s : Sys W)
           (lastResponse : gostring) : iteration * baseAgent * Sys W :=
  match Step ctx a s with
  | (Panicked, a', s') => (Break Panicked, a', s')
  | (Returned response None, a', s') => (Continue response, a', s')
  | (Returned response (Some err), a', s') =>
      match As_TerminatingErr err with
      | Some termErr => (Break (Returned (FinalOutput termErr) None), a', s')
      | None =>
          match As_ProcessErr err with
          | Some procErr =>
              (Continue lastResponse,
               addMessage a' RoleUser (ErrMessage procErr), s')
          | None =>
              match As_ExecutionError err with
              | Some execErr =>
                  (Continue lastResponse,
                   addMessage a' RoleUser (ExecMessage execErr), s')
              | None => (Break (Returned [] (Some err)), a', s')
              end
          end
      end
  end.

(** The loop of [Run].  [n] counts the iterations that remain: the loop
    variable [a.step] goes from 0 up to [maxSteps], one by one, also on
    [continue]. *)
Fixpoint Run_loop (ctx : context W) (n : nat) (a : baseAgent) (s : Sys W)
         (lastResponse : gostring) : outcome * baseAgent * Sys W :=
  match n with
  | O =>
      (Returned lastResponse
         (Some (TerminatingE {| Reason := ReasonStepLimit; FinalOutput := [] |})),
       a, s)
  | S k =>
      match Run_body ctx a s lastResponse with
      | (Break r, a', s') => (r, a', s')
      | (Continue response, a', s') =>
          Run_loop ctx k (set_step a' (step a' + 1)) s' response
      end
  end.

Definition Run (ctx : context W) (a : baseAgent) (task : gostring) (s : Sys W)
  : outcome * baseAgent * Sys W :=
  let a := set_messages a [] in
  let a := addMessage a RoleSystem (systemPrompt (cfg a)) in
  let a := addMessage a RoleUser task in
  Run_loop ctx (Z.to_nat (maxSteps (cfg a))) (set_step a 0) s [].

End wise.
End wise.

(** ** Package agent (agent/agent.go) *)

Module agent.
Section agent.
Context {W : Type}.

(** The fields of [Config] that the loop reads. *)
Record Config :=
  { SystemPrompt : gostring; UserPrompt : gostring; MaxSteps : Z }.

Record BaseAgent :=
  { config : Config;
    querier : Model W;
    parser : option Parser;
    executor : Environment W;
    output : option Writer;
    messages : list Message;
    step : Z }.

(** [NewWithComponents]; it leaves the writer unset. *)
Definition NewWithComponents (config : Config) (querier : Model W)
           (parser : option Parser) (executor : Environment W) : BaseAgent :=
  {| config := config; querier := querier; parser := parser;
     executor := executor; output := None; messages := []; step := 0 |}.

Definition set_messages (a : BaseAgent) (ms : list Message) : BaseAgent :=
  {| config := config a; querier := querier a; parser := parser a;
     executor := executor a; output := output a; messages := ms;
     step := step a |}.

Definition set_step (a : BaseAgent) (n : Z) : BaseAgent :=
  {| config := config a; querier := querier a; parser := parser a;
     executor := executor a; output := output a; messages := messages a;
     step := n |}.

Definition addMessage (a : BaseAgent) (role content : gostring) : BaseAgent :=
  set_messages a (messages a ++ [{| Role := role; Content := content |}]).

(** The step gets as far as the execution of an action. *)
Definition reaches_action (ctx : context W) (a : BaseAgent) (s : Sys W)
           (response : gostring) (action : Action) (s2 : Sys W) : Prop :=
  ctx (world s) = None
  /\ exists w1 p,
      querier a ctx (messages a) (world s) = ((response, None), w1)
      /\ parser a = Some p
      /\ p response = (action, None)
      /\ Fprint (output a) (str "$ " ++ Command action ++ [nl])
           {| world := w1; trace := trace s ++ [EvQuery (messages a)] |}
         = Some s2.

Definition Step (ctx : context W) (a : BaseAgent) (s : Sys W)
  : outcome * BaseAgent * Sys W :=
  match ctx (world s) with
  | Some err => (Returned [] (Some (WrapE (str "context cancelled") err)), a, s)
  | None =>
      let '((response, err), w1) := querier a ctx (messages a) (world s) in
      let s1 := {| world := w1; trace := trace s ++ [EvQuery (messages a)] |} in
      match err with
      | Some err => (Returned [] (Some (WrapE (str "query failed") err)), a, s1)
      | None =>
          match parser a with
          | None => (Panicked, a, s1)
          | Some p =>
              let '(action, err) := p response in
              match err with
              | Some err => (Returned [] (Some err), a, s1)
              | None =>
                  let a1 := addMessage a RoleAssistant response in
                  match Fprint (output a1)
                               (str "$ " ++ Command action ++ [nl]) s1 with
                  | None => (Panicked, a1, s1)
                  | Some s2 =>
                      let '((o, err), w3) := executor a1 ctx action (world s2) in
                      let s3 := {| world := w3;
                                   trace := trace s2 ++ [EvExecute action] |} in
                      match err with
                      | Some err => (Returned [] (Some err), a1, s3)
                      | None =>
                          match
                            (if negb (isTaskComplete o)
                                && negb (eqs (strings.TrimSpace (Stdout o)) [])
                             then Fprint (output a1) (Stdout o ++ [nl]) s3
                             else Some s3)
                          with
                          | None => (Panicked, a1, s3)
                          | Some s4 =>
                              if isTaskComplete o then
                                (Returned (extractFinalOutput o)
                                   (Some (TerminatingE
                                      {| Reason := ReasonComplete;
                                         FinalOutput := extractFinalOutput o |})),
                                 a1, s4)
                              else
                                let feedback := formatObservation o in
                                (Returned response None,
                                 addMessage a1 RoleUser feedback, s4)
                          end
                      end
                  end
              end
          end
      end
  end.

Definition Run_body (ctx : context W) (a : BaseAgent) (s : Sys W)
           (lastResponse : gostring) : iteration * BaseAgent * Sys W :=
  match Step ctx a s with
  | (Panicked, a', s') => (Break Panicked, a', s')
  | (Returned response None, a', s') => (Continue response, a', s')
  | (Returned response (Some err), a', s') =>
      match As_TerminatingErr err with
      | Some termErr => (Break (Returned (FinalOutput termErr) None), a', s')
      | None =>
          match As_ProcessErr err with
          | Some procErr =>
              (Continue lastResponse,
               addMessage a' RoleUser (ErrMessage procErr), s')
          | None => (Break (Returned [] (Some err)), a', s')
          end
      end
  end.

Fixpoint Run_loop (ctx : context W) (n : nat) (a : BaseAgent) (s : Sys W)
         (lastResponse : gostring) : outcome * BaseAgent * Sys W :=
  match n with
  | O =>
      (Returned lastResponse
         (Some (TerminatingE {| Reason := ReasonStepLimit; FinalOutput := [] |})),
       a, s)
  | S k =>
      match Run_body ctx a s lastResponse with
      | (Break r, a', s') => (r, a', s')
      | (Continue response, a', s') =>
          Run_loop ctx k (set_step a' (step a' + 1)) s' response
      end
  end.

Definition Run (ctx : context W) (a : BaseAgent) (s : Sys W)
  : outcome * BaseAgent * Sys W :=
  let a := set_messages a [] in
  let a := addMessage a RoleSystem (SystemPrompt (config a)) in
  let a := addMessage a RoleUser (UserPrompt (config a)) in
  Run_loop ctx (Z.to_nat (MaxSteps (config a))) (set_step a 0) s [].

End agent.
End agent.

(** ** Notions of the specification *)

(** The first line of a text: what precedes its first newline. *)
Fixpoint firstLine (s : gostring) : gostring :=
  match s with
  | [] => []
  | c :: r => if Ascii.eqb c nl then [] else c :: firstLine r
  end.

(** Everything after the first line: what follows the first newline. *)
Fixpoint afterFirstLine (s : gostring) : gostring :=
  match s with
  | [] => []
  | c :: r => if Ascii.eqb c nl then r else afterFirstLine r
  end.

(** A text is blank when trimming leaves nothing of it. *)
Definition blank (s : gostring) : Prop := strings.TrimSpace s = [].

(** A bash-tagged fenced block of [response] with contents [cap]: the
    opening fence, white space up to a newline, the contents, and a closing
    fence at the start of a line. *)
Definition fence_at (response pre cap post : gostring) : Prop :=
  exists ws,
    response = pre ++ regexp.fence_open ++ ws ++ nl :: cap
                   ++ regexp.fence_close ++ post
    /\ Forall (fun c => regexp.perl_space c = true) ws.

(** An error of the blocked kind, in either package. *)
Definition is_BlockedError (e : error) : Prop :=
  (exists pe, As_ProcessErr e = Some pe /\ ErrType pe = ErrBlocked)
  \/ (exists ee, As_ExecutionError e = Some ee /\ ExecType ee = ErrBlocked).

(** The error that [Validate] of package agent makes for a pattern. *)
Definition blocked_by {fmt : Fmt} (re : Regexp) : error :=
  ProcessE
    {| ErrType := ProcessErrExecution;
       ErrMessage :=
         str "Command blocked for safety: matches pattern "
         ++ Quote (String_ re) ++ str ". Please use a safer alternative." |}.

(** A byte below 128 that is not white space. *)
Definition plain (c : ascii) : Prop :=
  (code c < 128)%N /\ strings.asciiSpace c = false.

(** The Output of a process that was killed at the deadline: what it had
    written, exit code 0, and the flag. *)
Definition timed_out_Output (r : ProcResult) : Output :=
  {| Stdout := proc_stdout r; Stderr := proc_stderr r; ExitCode := 0;
     TimedOut := true |}.

(** The number of queries to the model that a log records. *)
Fixpoint queries (t : list Event) : nat :=
  match t with
  | [] => O
  | EvQuery _ :: r => S (queries r)
  | _ :: r => queries r
  end.

(** The number of processes that a log records. *)
Fixpoint spawns (t : list Event) : nat :=
  match t with
  | [] => O
  | EvSpawn _ _ _ :: r => S (spawns r)
  | _ :: r => spawns r
  end.

(** The old history is kept as it is at the front of the new one. *)
Definition extends (new old : list Message) : Prop :=
  exists more, new = old ++ more.

(** The log [t'] is the log [t] followed by new events, and every query
    among the new events was made with a history that satisfies [P]. *)
Definition logged (P : list Message -> Prop) (t t' : list Event) : Prop :=
  exists new, t' = t ++ new /\ forall h, In (EvQuery h) new -> P h.

(** No iteration of the loop of package wise ends it, whatever the history
    and the state of the world: the context is live and the body of the
    loop goes on. *)
Definition never_ends {W : Type} (ctx : context W) (a : @wise.baseAgent W)
  : Prop :=
  forall b s last,
    wise.same_setup b a ->
    ctx (world s) = None
    /\ exists response b' s',
        wise.Run_body ctx b s last = (Continue response, b', s').

(** ** Collaborators used in examples *)

Module examples.

(** A response holding one fenced command. *)
Definition fenced (command : gostring) : gostring :=
  str "```bash" ++ nl :: command ++ nl :: str "```".

Definition live : context unit := fun _ => None.

(** A model that always gives the same response. *)
Definition model_always (response : gostring) : Model unit :=
  fun _ _ w => ((response, None), w).

(** An environment in which every command succeeds with the same
    standard output. *)
Definition env_always (stdout : gostring) : Environment unit :=
  fun _ _ w =>
    (({| Stdout := stdout; Stderr := []; ExitCode := 0; TimedOut := false |},
      None), w).

(** An environment in which every command fails with the same error. *)
Definition env_failing (o : Output) (err : error) : Environment unit :=
  fun _ _ w => ((o, Some err), w).

(** A launcher that gives the same result for every command. *)
Definition launch_always (r : ProcResult) : Launcher unit :=
  fun _ _ _ _ w => (r, w).

(** Quoting of printable text without quotes or backslashes, and the
    text of thirty seconds. *)
Definition plain_fmt : Fmt :=
  {| Quote := fun s => dquote :: s ++ [dquote];
     Duration_String := fun _ => str "30s" |}.

(** The compiled form of a pattern without metacharacters. *)
Definition literal (p : gostring) : Regexp :=
  {| String_ := p; MatchString := fun s => strings.Contains s p |}.

Definition start : Sys unit := {| world := tt; trace := [] |}.

(** A process killed at the deadline after it has written something. *)
Definition killed : ProcResult :=
  {| proc_stdout := str "working";
     proc_stderr := [];
     proc_err := Some {| Error_text := str "signal: killed";
                         ExitError_code := Some (-1) |};
     DeadlineExceeded := true |}.


(** A blocklist of two patterns. *)
Definition blocklist : agent_executor.BlocklistValidator :=
  {| agent_executor.patterns := [literal (str "mkfs"); literal (str "shutdown")] |}.

(** The command [echo "TASK_COMPLETE\nSummary: X"], the escape standing
    for a newline as in a Go literal, and what it prints. *)
Definition echo_summary : gostring :=
  str "echo " ++ dquote :: str "TASK_COMPLETE" ++ nl :: str "Summary: X"
  ++ [dquote].

Definition echo_summary_stdout : gostring :=
  str "TASK_COMPLETE" ++ nl :: str "Summary: X" ++ [nl].

(** An agent of package wise, built by [New] from the default
    configuration, whose model asks for that command. *)
Definition echo_agent : wise.baseAgent :=
  fst (wise.New (model_always (fenced echo_summary))
                (env_always echo_summary_stdout) wise.NewConfig).

Definition spaces (n : nat) : gostring := repeat " "%char n.

(** A model that always asks for [ls], in a directory with one file. *)
Definition ls_response : gostring := fenced (str "ls").
Definition ls_stdout : gostring := str "a.txt" ++ [nl].

(** An agent of package wise with a budget of three steps. *)
Definition ls_agent : wise.baseAgent :=
  fst (wise.New (model_always ls_response) (env_always ls_stdout)
         (wise.WithMaxSteps wise.NewConfig 3)).

(** The same in package agent, with the writer that [NewWithConfig]
    puts in. *)
Definition ls_BaseAgent : agent.BaseAgent :=
  {| agent.config := {| agent.SystemPrompt := wise.DefaultSystemPrompt;
                        agent.UserPrompt := str "list the files";
                        agent.MaxSteps := 3 |};
     agent.querier := model_always ls_response;
     agent.parser := Some parser.ParseAction;
     agent.executor := env_always ls_stdout;
     agent.output := Some io_Discard;
     agent.messages := [];
     agent.step := 0 |}.

(** An agent of package wise built from the zero configuration. *)
Definition zero_agent : wise.baseAgent :=
  fst (wise.New (model_always ls_response) (env_always ls_stdout)
         wise.Config_zero).

End examples.

(** ** Further notions *)

Definition backquote : ascii := "`"%char.

(** A text without backquotes. *)
Definition no_backquote (s : gostring) : Prop := ~ In backquote s.

(** ** Fenced blocks, as the specification describes them

    A block opens with the bash-language fence, whose line holds nothing
    more than white space, and closes with the first bare fence at the
    start of a later line; what lies between is its contents. *)

(** White space that stays on the line: tab, form feed, carriage return and
    space. *)
Definition line_space (c : ascii) : bool :=
  ((code c =? 9) || (code c =? 12) || (code c =? 13) || (code c =? 32))%N.

(** The rest of the line of an opening fence: white space up to the
    newline.  The result is the text of the lines that follow. *)
Fixpoint opening_line (s : gostring) : option gostring :=
  match s with
  | [] => None
  | c :: r =>
      if Ascii.eqb c nl then Some r
      else if line_space c then opening_line r else None
  end.

(** The text before the first occurrence of [sep] in [s], and the text
    after that occurrence. *)
Fixpoint cut_at (sep s : gostring) : option (gostring * gostring) :=
  match strings.CutPrefix sep s with
  | Some rest => Some ([], rest)
  | None =>
      match s with
      | [] => None
      | c :: r =>
          match cut_at sep r with
          | Some (before, after) => Some (c :: before, after)
          | None => None
          end
      end
  end.

Definition opening_fence : gostring := str "```bash".

(** A bare fence at the start of a line. *)
Definition closing_fence : gostring := nl :: str "```".

(** A fenced block at the very start of [s]: its contents and the text
    after its closing fence. *)
Definition block_here (s : gostring) : option (gostring * gostring) :=
  match strings.CutPrefix opening_fence s with
  | Some r =>
      match opening_line r with
      | Some lines => cut_at closing_fence lines
      | None => None
      end
  | None => None
  end.

(** The fenced blocks of a text from left to right, none inside another,
    each with the text that follows it.  [skip] counts the bytes of the
    last block that are still to be passed over. *)
Fixpoint blocks_from (skip : nat) (s : gostring)
  : list (gostring * gostring) :=
  match s with
  | [] => []
  | c :: r =>
      match skip with
      | S k => blocks_from k r
      | O =>
          match block_here s with
          | Some (contents, rest) =>
              (contents, rest)
              :: blocks_from (List.length r - List.length rest) r
          | None => blocks_from O r
          end
      end
  end.

(** The contents of the fenced blocks of a response. *)
Definition bash_blocks (response : gostring) : list gostring :=
  map fst (blocks_from O response).

(** A block that holds white space only (or nothing) and is followed,
    somewhere in the rest of the text, by another bare fence at the start of
    a line. *)
Definition blank_before_fence (b : gostring * gostring) : bool :=
  forallb (fun c => line_space c || Ascii.eqb c nl) (fst b)
  && strings.Contains (snd b) closing_fence.

(** The three roles the loop writes. *)
Definition known_role (m : Message) : Prop :=
  Role m = RoleSystem \/ Role m = RoleUser \/ Role m = RoleAssistant.

(** The error of [ParseAction] for a response without a fence. *)
Definition no_command_error : error :=
  ProcessE
    {| ErrType := ProcessErrFormat;
       ErrMessage := str "No bash command found. If the task is complete, respond with TASK_COMPLETE. Otherwise, provide exactly one command in ```bash``` block." |}.

(** The error of [ParseAction] for a fence without a command. *)
Definition empty_command_error : error :=
  ProcessE
    {| ErrType := ProcessErrFormat;
       ErrMessage := str "Empty command in bash block. Please provide a valid command." |}.

(** The error of [ParseAction] for [n] fences. *)
Definition found_commands_error (n : Z) : error :=
  ProcessE
    {| ErrType := ProcessErrFormat;
       ErrMessage :=
         str "Found " ++ itoa n
         ++ str " commands, expected exactly one. Please provide a single command in ```bash``` block." |}.

(** No error of the three kinds that the loop of [Run] looks for is
    reachable from [e]: [Run] takes [e] as fatal. *)
Definition fatal (e : error) : Prop :=
  As_TerminatingErr e = None /\ As_ProcessErr e = None
  /\ As_ExecutionError e = None.

(** The step limit signal. *)
Definition step_limit_signal : error :=
  TerminatingE {| Reason := ReasonStepLimit; FinalOutput := [] |}.


(** What the output and the error of [Execute] tell about the process
    that ran. *)
Definition reports_process (o : Output) (err : option error) (r : ProcResult)
  : Prop :=
  Stdout o = proc_stdout r /\ Stderr o = proc_stderr r
  /\ (err = None <-> proc_err r = None)
  /\ (TimedOut o = true <-> proc_err r <> None /\ DeadlineExceeded r = true)
  /\ (ExitCode o <> 0 ->
      DeadlineExceeded r = false
      /\ exists cause, proc_err r = Some cause
                       /\ ExitError_code cause = Some (ExitCode o))
  /\ (err = None -> ExitCode o = 0 /\ TimedOut o = false).

(** The local environment as an [environments.Environment]: the call
    [env.Execute(ctx, action)] of the loop runs [Execute] of
    environments/local.  The processes it starts are logged by the loop as
    one execution. *)
Definition local_env {W : Type} {fmt : Fmt} (launch : Launcher W)
           (e : local.Config) : Environment W :=
  fun ctx action w =>
    let '(res, s') :=
      local.Execute launch e ctx action {| world := w; trace := [] |} in
    (res, world s').

(** The output of a process that failed before the deadline. *)
Definition failed_Output (r : ProcResult) (cause : RunError) : Output :=
  {| Stdout := proc_stdout r; Stderr := proc_stderr r;
     ExitCode := match ExitError_code cause with Some c => c | None => 0 end;
     TimedOut := false |}.

(** The output of a process that ended well. *)
Definition done_Output (r : ProcResult) : Output :=
  {| Stdout := proc_stdout r; Stderr := proc_stderr r; ExitCode := 0;
     TimedOut := false |}.

(** Two agents of package agent with the same components. *)
Definition agent_same_setup {W : Type} (a b : @agent.BaseAgent W) : Prop :=
  agent.config a = agent.config b /\ agent.querier a = agent.querier b
  /\ agent.parser a = agent.parser b /\ agent.executor a = agent.executor b
  /\ agent.output a = agent.output b.

(** The log [t'] is the log [t] followed by queries to the model and by
    nothing else: no action was handled or executed, no process started,
    nothing written. *)
Definition only_queries (t t' : list Event) : Prop :=
  exists new, t' = t ++ new /\ Forall (fun ev => exists h, ev = EvQuery h) new.

(** ** The model over an OpenAI-compatible API

    [Query] of models/openai and [Query] of [OpenAIQuerier] in package agent
    have the same text.  The client of the library is outside the program:
    [GenerateContent] is a function of the converted messages and of the
    world, which gives the contents of the choices of the response or an
    error. *)

Module openai.
Section openai.
Context {W : Type}.

Inductive ChatMessageType :=
| ChatMessageTypeSystem | ChatMessageTypeHuman | ChatMessageTypeAI.

(** [llms.TextParts(msgType, content)]. *)
Record MessageContent := { MsgRole : ChatMessageType; Text : gostring }.

Definition Client :=
  context W -> list MessageContent -> W -> (list gostring * option error) * W.

(** The loop of [Query] that fills [llmMessages]. *)
Fixpoint convert (messages : list Message) : list MessageContent :=
  match messages with
  | [] => []
  | msg :: rest =>
      if eqs (Role msg) RoleSystem then
        {| MsgRole := ChatMessageTypeSystem; Text := Content msg |}
        :: convert rest
      else if eqs (Role msg) RoleUser then
        {| MsgRole := ChatMessageTypeHuman; Text := Content msg |}
        :: convert rest
      else if eqs (Role msg) RoleAssistant then
        {| MsgRole := ChatMessageTypeAI; Text := Content msg |}
        :: convert rest
      else convert rest
  end.

Definition Query (GenerateContent : Client) : Model W :=
  fun ctx messages w =>
    let llmMessages := convert messages in
    let '((choices, err), w') := GenerateContent ctx llmMessages w in
    match err with
    | Some err =>
        (([], Some (WrapE (str "failed to generate content") err)), w')
    | None =>
        match choices with
        | [] => (([], Some (PlainE (str "no choices returned from model"))), w')
        | c :: _ => ((c, None), w')
        end
    end.

End openai.
End openai.

(** The role of a converted message is the one of the message it was made
    from, and so is its text. *)
Definition converted (m : Message) (c : openai.MessageContent) : Prop :=
  openai.Text c = Content m
  /\ (Role m = RoleSystem -> openai.MsgRole c = openai.ChatMessageTypeSystem)
  /\ (Role m = RoleUser -> openai.MsgRole c = openai.ChatMessageTypeHuman)
  /\ (Role m = RoleAssistant -> openai.MsgRole c = openai.ChatMessageTypeAI).

(** [m] has one of the three roles, as a test. *)
Definition known_roleb (m : Message) : bool :=
  eqs (Role m) RoleSystem || eqs (Role m) RoleUser || eqs (Role m) RoleAssistant.

(** ** Texts of the errors

    The [Error] methods of errors.go and of environments/local, and the
    text of an error made by [fmt.Errorf] with or without a cause. *)
Fixpoint Error_string (e : error) : gostring :=
  match e with
  | TerminatingE t => str "terminating: " ++ Reason t
  | ProcessE p => str "process error [" ++ ErrType p ++ str "]: " ++ ErrMessage p
  | ExecutionE x =>
      str "execution error [" ++ ExecType x ++ str "]: " ++ ExecMessage x
  | PlainE msg => msg
  | WrapE msg cause => msg ++ str ": " ++ Error_string cause
  end.

(** ** Replacement of a placeholder

    [strings.ReplaceAll(s, old, new)] for a non-empty [old]: the
    occurrences of [old] are found from left to right and do not overlap.
    [skip] counts the bytes of an occurrence that remain to be passed. *)
Fixpoint replace_from (old new : gostring) (skip : nat) (s : gostring)
  : gostring :=
  match s with
  | [] => []
  | c :: r =>
      match skip with
      | S k => replace_from old new k r
      | O =>
          match strings.CutPrefix old s with
          | Some _ => new ++ replace_from old new (List.length old - 1) r
          | None => c :: replace_from old new O r
          end
      end
  end.

Definition ReplaceAll (s old new : gostring) : gostring :=
  replace_from old new O s.

Definition brace : ascii := "{"%char.

(** ** Configuration of package agent (agent/config.go) *)

Module agent_config.

Record EnvConfig :=
  { env_APIKey : gostring;
    env_BaseURL : gostring;
    env_Env : gostring;
    env_Model : gostring;
    env_MaxSteps : Z;
    env_CommandTimeout : Z }.

Record UserConfig :=
  { user_SystemPrompt : gostring;
    user_UserPrompt : gostring;
    user_Model : gostring;
    user_MaxSteps : Z;
    user_CommandTimeout : gostring;
    user_WorkingDir : gostring }.

Record Config :=
  { APIKey : gostring;
    BaseURL : gostring;
    Env : gostring;
    Model_ : gostring;
    MaxSteps : Z;
    CommandTimeout : Z;
    SystemPrompt : gostring;
    UserPrompt : gostring;
    WorkingDir : gostring;
    Output_ : option Writer;
    LogLevel : gostring }.

(** The defaults of the tags of [EnvConfig], and [30*time.Second]. *)
Definition default_Model : gostring := str "anthropic/claude-3.5-sonnet".
Definition default_MaxSteps : Z := 25.
Definition thirty_seconds : Z := 30 * 1000000000.

(** [LoadEnv]; [Process] is what [envconfig.Process] gives. *)
Definition LoadEnv (Process : EnvConfig + error) : EnvConfig + error :=
  match Process with
  | inr err => inr (WrapE (str "failed to load env config") err)
  | inl cfg => inl cfg
  end.

(** [LoadUserConfig]; [configPath] is the joined path, [exists_] whether
    [os.Stat] finds it and [DecodeFile] what [toml.DecodeFile] gives. *)
Definition LoadUserConfig (configPath : gostring) (exists_ : bool)
           (DecodeFile : UserConfig + error) : UserConfig + error :=
  if negb exists_ then
    inr (PlainE (str "config file not found: " ++ configPath))
  else
    match DecodeFile with
    | inr err => inr (WrapE (str "failed to load user config") err)
    | inl cfg => inl cfg
    end.

(** [Validate]; [Stat] tells whether a directory exists. *)
Definition Validate (Stat : gostring -> bool) (c : Config) : option error :=
  if eqs (APIKey c) [] then
    Some (PlainE (str "OPENROUTER_API_KEY is required"))
  else if eqs (BaseURL c) [] then
    Some (PlainE (str "OPENROUTER_BASE_URL is required"))
  else if eqs (strings.TrimSpace (SystemPrompt c)) [] then
    Some (PlainE (str "system_prompt is required in config.toml"))
  else if eqs (strings.TrimSpace (UserPrompt c)) [] then
    Some (PlainE (str "user_prompt is required in config.toml"))
  else if negb (eqs (WorkingDir c) []) && negb (Stat (WorkingDir c)) then
    Some (PlainE (str "working_dir does not exist: " ++ WorkingDir c))
  else None.

(** [LoadConfig], given what [LoadEnv] and [LoadUserConfig] return. *)
Definition LoadConfig (envCfg : EnvConfig + error)
           (userCfg : UserConfig + error)
           (ParseDuration : gostring -> Z + error) (Stat : gostring -> bool)
  : Config + error :=
  match envCfg with
  | inr err => inr err
  | inl envCfg =>
      match userCfg with
      | inr err => inr err
      | inl userCfg =>
          let model :=
            if negb (eqs (user_Model userCfg) [])
               && eqs (env_Model envCfg) default_Model
            then user_Model userCfg else env_Model envCfg in
          let maxSteps :=
            if (0 <? user_MaxSteps userCfg)
               && (env_MaxSteps envCfg =? default_MaxSteps)
            then user_MaxSteps userCfg else env_MaxSteps envCfg in
          let finish (timeout : Z) :=
            let cfg :=
              {| APIKey := env_APIKey envCfg;
                 BaseURL := env_BaseURL envCfg;
                 Env := env_Env envCfg;
                 Model_ := model;
                 MaxSteps := maxSteps;
                 CommandTimeout := timeout;
                 SystemPrompt := user_SystemPrompt userCfg;
                 UserPrompt := user_UserPrompt userCfg;
                 WorkingDir := user_WorkingDir userCfg;
                 Output_ := Some io_Discard;
                 LogLevel := [] |} in
            match Validate Stat cfg with
            | Some err => inr (WrapE (str "invalid config") err)
            | None => inl cfg
            end in
          if negb (eqs (user_CommandTimeout userCfg) [])
             && (env_CommandTimeout envCfg =? thirty_seconds)
          then
            match ParseDuration (user_CommandTimeout userCfg) with
            | inr err =>
                inr (WrapE (str "invalid command_timeout in config.toml") err)
            | inl d => finish d
            end
          else finish (env_CommandTimeout envCfg)
      end
  end.

(** The fields of the configuration that the loop reads. *)
Definition loop_config (c : Config) : agent.Config :=
  {| agent.SystemPrompt := SystemPrompt c;
     agent.UserPrompt := UserPrompt c;
     agent.MaxSteps := MaxSteps c |}.

End agent_config.

(** ** Construction of the executor and of the agent of package agent *)

Module agent_new.
Section agent_new.
Context {W : Type} {fmt : Fmt}.

(** [BashExecutorOption]. *)
Definition BashExecutorOption :=
  agent_executor.BashExecutor -> agent_executor.BashExecutor.

Definition WithTimeout (d : Z) : BashExecutorOption :=
  fun e =>
    {| agent_executor.timeout := d;
       agent_executor.workingDir := agent_executor.workingDir e;
       agent_executor.validator := agent_executor.validator e |}.

Definition WithWorkingDir (dir : gostring) : BashExecutorOption :=
  fun e =>
    {| agent_executor.timeout := agent_executor.timeout e;
       agent_executor.workingDir := dir;
       agent_executor.validator := agent_executor.validator e |}.

Definition WithValidator (v : CommandValidator) : BashExecutorOption :=
  fun e =>
    {| agent_executor.timeout := agent_executor.timeout e;
       agent_executor.workingDir := agent_executor.workingDir e;
       agent_executor.validator := Some v |}.

Definition WithoutValidation : BashExecutorOption :=
  fun e =>
    {| agent_executor.timeout := agent_executor.timeout e;
       agent_executor.workingDir := agent_executor.workingDir e;
       agent_executor.validator := None |}.

(** [NewBashExecutor]; [defaultValidator] is what
    [NewDefaultBlocklistValidator] returns. *)
Definition NewBashExecutor (defaultValidator : CommandValidator)
           (timeout : Z) (workingDir : gostring)
           (opts : list BashExecutorOption) : agent_executor.BashExecutor :=
  let timeout :=
    if timeout <=? 0 then agent_config.thirty_seconds else timeout in
  fold_left (fun e opt => opt e) opts
    {| agent_executor.timeout := timeout;
       agent_executor.workingDir := workingDir;
       agent_executor.validator := Some defaultValidator |}.

(** The executor as an [Executor] of the loop: the call
    [executor.Execute(ctx, action)] runs [Execute] of agent/executor.go. *)
Definition agent_env (launch : Launcher W) (e : agent_executor.BashExecutor)
  : Environment W :=
  fun ctx action w =>
    let '(res, s') :=
      agent_executor.Execute launch e ctx action {| world := w; trace := [] |} in
    (res, world s').

(** [NewOpenAIQuerier]; [openai_New] is the constructor of the client of
    the library, given the token, the base URL and the model. *)
Definition NewOpenAIQuerier
           (openai_New : gostring -> gostring -> gostring
                         -> @openai.Client W + error)
           (cfg : agent_config.Config) : @openai.Client W + error :=
  match openai_New (agent_config.APIKey cfg) (agent_config.BaseURL cfg)
          (agent_config.Model_ cfg) with
  | inr err => inr (WrapE (str "failed to create LLM client") err)
  | inl client => inl client
  end.

(** [NewWithConfig]. *)
Definition NewWithConfig
           (openai_New : gostring -> gostring -> gostring
                         -> @openai.Client W + error)
           (launch : Launcher W) (defaultValidator : CommandValidator)
           (config : agent_config.Config) : @agent.BaseAgent W + error :=
  match NewOpenAIQuerier openai_New config with
  | inr err => inr (WrapE (str "failed to create querier") err)
  | inl client =>
      let output :=
        match agent_config.Output_ config with
        | Some w => w
        | None => io_Discard
        end in
      inl {| agent.config := agent_config.loop_config config;
             agent.querier := openai.Query client;
             agent.parser := Some parser.ParseAction;
             agent.executor :=
               agent_env launch
                 (NewBashExecutor defaultValidator
                    (agent_config.CommandTimeout config)
                    (agent_config.WorkingDir config) []);
             agent.output := Some output;
             agent.messages := [];
             agent.step := 0 |}
  end.

End agent_new.
End agent_new.

(** ** The command line (cmd/root.go, cmd/run.go) *)

Module cmd.
Section cmd.
Context {W : Type}.

Definition ExitSuccess : Z := 0.
Definition ExitError : Z := 1.
Definition ExitMisuse : Z := 2.
Definition ExitPermissionDenied : Z := 126.
Definition ExitNotFound : Z := 127.

(** The flags [verbose], [quiet] and [jsonOut]. *)
Record Flags := { verbose : bool; quiet : bool; jsonOut : bool }.

Record RunResult :=
  { Success : bool; Task : gostring; Response : gostring; Error_ : gostring }.

(** What the command writes itself: text on the standard error, text on
    the standard output, and a [RunResult] encoded as JSON on the
    standard output.  (What the agent streams is in the log of the
    system.) *)
Inductive Printed :=
| ToStderr (text : gostring)
| ToStdout (text : gostring)
| JSONToStdout (r : RunResult).

(** How a function of the command ends: it returns an error value, or
    [os.Exit] ends the process with a status, or the agent panics. *)
Inductive ending :=
| Return (err : option error)
| Exit (code : Z)
| Panic.

(** The standard input: a terminal, or the lines the scanner reads and
    the error it ends with. *)
Inductive Stdin :=
| Terminal
| Piped (lines : list gostring) (err : option error).

Definition validateFlags (f : Flags) : option error :=
  if verbose f && quiet f then
    Some (PlainE (str "--verbose and --quiet cannot be used together"))
  else None.

(** [Execute] of cmd/root.go: the status of the process, given how the
    command ended (2 is the status of a Go program that panics). *)
Definition Execute (e : ending) : Z :=
  match e with
  | Return None => ExitSuccess
  | Return (Some _) => ExitError
  | Exit code => code
  | Panic => 2
  end.

Definition readStdin (stdin : Stdin) : list Printed * gostring :=
  match stdin with
  | Terminal => ([], [])
  | Piped lines (Some err) =>
      ([ToStderr (str "Error reading stdin: " ++ Error_string err ++ [nl])], [])
  | Piped lines None => ([], strings.TrimSpace (unlines lines))
  end.

Definition getTask (args : list gostring) (stdin : Stdin)
  : list Printed * gostring :=
  match args with
  | [] => readStdin stdin
  | a :: _ => if eqs a (str "-") then readStdin stdin else ([], a)
  end.

(** [outputJSON]; the encoder writes to the standard output, and the
    write is taken to succeed. *)
Definition outputJSON (task response : gostring) (err : option error)
  : list Printed * ending :=
  ([JSONToStdout
      {| Success := match err with None => true | Some _ => false end;
         Task := task;
         Response := response;
         Error_ := match err with
                   | Some e => Error_string e
                   | None => []
                   end |}],
   Return None).

Definition userError (msg : gostring) : list Printed * ending :=
  ([ToStderr (str "Error: " ++ msg ++ [nl])], Exit ExitMisuse).

Definition handleError (f : Flags) (err : error) (context : gostring)
  : list Printed * ending :=
  if jsonOut f then ([], Return (Some err))
  else
    let msg := Error_string err in
    if strings.Contains msg (str "OPENROUTER_API_KEY") then
      ([ToStderr (str "Error: API key not configured." ++ [nl]);
        ToStderr [nl];
        ToStderr (str "  export OPENROUTER_API_KEY=your-api-key" ++ [nl])],
       Exit ExitMisuse)
    else if strings.Contains msg (str "OPENROUTER_BASE_URL") then
      ([ToStderr (str "Error: API base URL not configured." ++ [nl]);
        ToStderr [nl];
        ToStderr (str "  export OPENROUTER_BASE_URL=https://openrouter.ai/api/v1"
                  ++ [nl])],
       Exit ExitMisuse)
    else if strings.Contains msg (str "permission denied") then
      ([ToStderr (str "Error: Permission denied during " ++ context
                  ++ str "." ++ [nl])],
       Exit ExitPermissionDenied)
    else
      ([ToStderr (str "Error: " ++ msg ++ [nl])], Exit ExitError).

(** The placeholder of the task in the user prompt. *)
Definition task_placeholder : gostring := str "{{.Task}}".

(** [context.Background()]. *)
Definition Background : context W := fun _ => None.

(** What [runAgent] changes in the loaded configuration before it makes
    the agent: the log level, the task put into the user prompt, and the
    standard output as the writer unless the command is quiet. *)
Definition prepare (f : Flags) (task : gostring) (cfg : agent_config.Config)
  : agent_config.Config :=
  {| agent_config.APIKey := agent_config.APIKey cfg;
     agent_config.BaseURL := agent_config.BaseURL cfg;
     agent_config.Env := agent_config.Env cfg;
     agent_config.Model_ := agent_config.Model_ cfg;
     agent_config.MaxSteps := agent_config.MaxSteps cfg;
     agent_config.CommandTimeout := agent_config.CommandTimeout cfg;
     agent_config.SystemPrompt := agent_config.SystemPrompt cfg;
     agent_config.UserPrompt :=
       ReplaceAll (agent_config.UserPrompt cfg) task_placeholder task;
     agent_config.WorkingDir := agent_config.WorkingDir cfg;
     agent_config.Output_ :=
       if negb (quiet f) then Some io_Writer else agent_config.Output_ cfg;
     agent_config.LogLevel :=
       if quiet f then str "error"
       else if verbose f then str "debug" else str "warn" |}.

(** [runAgent].  [LoadConfig] is what [agent.LoadConfig(".")] returns and
    [NewWithConfig] is [agent.NewWithConfig]. *)
Definition runAgent (f : Flags) (args : list gostring) (stdin : Stdin)
           (LoadConfig : agent_config.Config + error)
           (NewWithConfig : agent_config.Config -> @agent.BaseAgent W + error)
           (s : Sys W) : list Printed * ending * Sys W :=
  let '(p0, task) := getTask args stdin in
  if eqs task [] then
    let '(p, e) :=
      userError (str "no task provided. Usage: wise run "
                 ++ dquote :: str "your task" ++ [dquote]) in
    (p0 ++ p, e, s)
  else
    match LoadConfig with
    | inr err =>
        let '(p, e) := handleError f err (str "loading config") in
        (p0 ++ p, e, s)
    | inl cfg =>
        match NewWithConfig (prepare f task cfg) with
        | inr err =>
            let '(p, e) := handleError f err (str "creating agent") in
            (p0 ++ p, e, s)
        | inl a =>
            match agent.Run Background a s with
            | (Panicked, _, s') => (p0, Panic, s')
            | (Returned response err, _, s') =>
                if jsonOut f then
                  let '(p, e) := outputJSON task response err in
                  (p0 ++ p, e, s')
                else
                  match err with
                  | Some err =>
                      let '(p, e) := handleError f err (str "running agent") in
                      (p0 ++ p, e, s')
                  | None =>
                      if negb (quiet f) then
                        if negb (eqs response []) then
                          (p0 ++ [ToStdout (response ++ [nl])], Return None, s')
                        else
                          (p0 ++ [ToStdout (str "Done." ++ [nl])], Return None, s')
                      else (p0, Return None, s')
                  end
            end
        end
    end.

End cmd.
End cmd.

(** ** Construction of the blocklist (agent/executor.go) *)

Module blocklist.
Section blocklist.
Context {fmt : Fmt}.

(** [DefaultBlockedPatterns]. *)
Definition DefaultBlockedPatterns : list gostring :=
  [ str "rm\s+-[rf]*\s+/";
    str "rm\s+-[rf]*\s+\*";
    str "rm\s+-[rf]*\s+~";
    str ">\s*/dev/sd";
    str "mkfs";
    str "dd\s+if=.*/dev/";
    str "dd\s+of=.*/dev/";
    str "chmod\s+777\s+/";
    str "chown\s+-R\s+.*\s+/";
    str "curl.*\|\s*(ba)?sh";
    str "wget.*\|\s*(ba)?sh";
    str ":\(\)\{\s*:\|:&\s*\};:";
    str "/dev/null\s*>\s*/etc/";
    str ">\s*/etc/passwd";
    str ">\s*/etc/shadow";
    str "shutdown";
    str "reboot";
    str "init\s+0";
    str "halt";
    str "poweroff" ].

(** The loop of [NewBlocklistValidator]; [Compile] is [regexp.Compile]. *)
Fixpoint compile_all (Compile : gostring -> Regexp + error)
         (patterns : list gostring) : list Regexp + error :=
  match patterns with
  | [] => inl []
  | p :: rest =>
      match Compile p with
      | inr err => inr (WrapE (str "invalid pattern " ++ Quote p) err)
      | inl re =>
          match compile_all Compile rest with
          | inr err => inr err
          | inl compiled => inl (re :: compiled)
          end
      end
  end.

Definition NewBlocklistValidator (Compile : gostring -> Regexp + error)
           (patterns : list gostring)
  : agent_executor.BlocklistValidator + error :=
  match compile_all Compile patterns with
  | inr err => inr err
  | inl compiled => inl {| agent_executor.patterns := compiled |}
  end.

(** [NewDefaultBlocklistValidator]: the error is dropped, and the result
    is nil ([None]) when a pattern does not compile. *)
Definition NewDefaultBlocklistValidator (Compile : gostring -> Regexp + error)
  : option agent_executor.BlocklistValidator :=
  match NewBlocklistValidator Compile DefaultBlockedPatterns with
  | inl v => Some v
  | inr _ => None
  end.

End blocklist.
End blocklist.

(** The patterns of the default blocklist without a metacharacter: such a
    pattern matches the commands that contain it. *)
Definition literal_patterns : list gostring :=
  [ str "mkfs"; str "shutdown"; str "reboot"; str "halt"; str "poweroff" ].

(** [Compile] compiles [p] to a matcher of the texts that contain [p]. *)
Definition compiles_literally (Compile : gostring -> Regexp + error)
           (p : gostring) : Prop :=
  exists re, Compile p = inl re
             /\ String_ re = p
             /\ forall s, MatchString re s = strings.Contains s p.

Module examples2.

(** A context that is cancelled from the start. *)
Definition cancelled : context unit :=
  fun _ => Some (PlainE (str "context canceled")).

(** A model that fails with the given error. *)
Definition model_failing (e : error) : Model unit :=
  fun _ _ w => (([], Some e), w).

(** A handler that takes every action and answers with a fixed output. *)
Definition handler_always (stdout : gostring) : ActionHandler unit :=
  fun _ _ w =>
    (({| Stdout := stdout; Stderr := []; ExitCode := 0; TimedOut := false |},
      true, None), w).

(** An agent of package wise with that handler. *)
Definition handled_agent : wise.baseAgent :=
  fst (wise.New (examples.model_always examples.ls_response)
         (examples.env_always examples.ls_stdout)
         {| wise.parser := None; wise.logger := None; wise.output := None;
            wise.maxSteps := 2; wise.systemPrompt := [];
            wise.actionHandler := Some (handler_always (str "handled")) |}).

(** A process that fails with exit status 2 before the deadline. *)
Definition failed : ProcResult :=
  {| proc_stdout := [];
     proc_stderr := str "ls: cannot access 'missing'";
     proc_err := Some {| Error_text := str "exit status 2";
                         ExitError_code := Some 2 |};
     DeadlineExceeded := false |}.

Definition ls_missing : Action :=
  {| Type_ := ActionTypeBash; Command := str "ls missing" |}.

(** An agent of package wise over the local environment, in which every
    process fails that way. *)
Definition failing_agent : wise.baseAgent :=
  fst (wise.New (examples.model_always (examples.fenced (str "ls missing")))
         (@local_env unit examples.plain_fmt (examples.launch_always failed)
            (local.New {| local.timeout := 0; local.workingDir := [];
                          local.validator := None |}))
         wise.NewConfig).

(** An agent of package agent made by [NewWithComponents]. *)
Definition components_agent : agent.BaseAgent :=
  agent.NewWithComponents
    {| agent.SystemPrompt := wise.DefaultSystemPrompt;
       agent.UserPrompt := str "list the files";
       agent.MaxSteps := 3 |}
    (examples.model_always examples.ls_response)
    (Some parser.ParseAction)
    (examples.env_always examples.ls_stdout).

(** A client that returns no choice. *)
Definition client_silent : @openai.Client unit :=
  fun _ _ w => (([], None), w).

(** A history with a message of a role the conversion does not know. *)
Definition history_with_tool : list Message :=
  [ {| Role := RoleSystem; Content := str "be brief" |};
    {| Role := str "tool"; Content := str "a.txt" |};
    {| Role := RoleUser; Content := str "list the files" |} ].

(** An agent of package wise over that client. *)
Definition silent_agent : wise.baseAgent :=
  fst (wise.New (openai.Query client_silent)
         (examples.env_always examples.ls_stdout) wise.NewConfig).

(** The environment of a set-up with an empty API key, and a
    configuration file. *)
Definition env_no_key : agent_config.EnvConfig :=
  {| agent_config.env_APIKey := [];
     agent_config.env_BaseURL := str "https://openrouter.ai/api/v1";
     agent_config.env_Env := str "dev";
     agent_config.env_Model := agent_config.default_Model;
     agent_config.env_MaxSteps := 0;
     agent_config.env_CommandTimeout := agent_config.thirty_seconds |}.

Definition env_zero_steps : agent_config.EnvConfig :=
  {| agent_config.env_APIKey := str "sk-1";
     agent_config.env_BaseURL := str "https://openrouter.ai/api/v1";
     agent_config.env_Env := str "dev";
     agent_config.env_Model := agent_config.default_Model;
     agent_config.env_MaxSteps := 0;
     agent_config.env_CommandTimeout := agent_config.thirty_seconds |}.

Definition config_toml : agent_config.UserConfig :=
  {| agent_config.user_SystemPrompt := str "You run bash commands.";
     agent_config.user_UserPrompt := str "Task: {{.Task}}";
     agent_config.user_Model := str "openai/gpt-4o";
     agent_config.user_MaxSteps := 10;
     agent_config.user_CommandTimeout := [];
     agent_config.user_WorkingDir := [] |}.

(** No duration is parsed, and every directory exists. *)
Definition no_duration : gostring -> Z + error :=
  fun _ => inr (PlainE (str "time: invalid duration")).

Definition any_dir : gostring -> bool := fun _ => true.

(** A set-up that works: two steps, a client that always asks for [ls],
    processes that always print one file name, and a validator that
    refuses [mkfs] and [shutdown]. *)
Definition env_two_steps : agent_config.EnvConfig :=
  {| agent_config.env_APIKey := str "sk-1";
     agent_config.env_BaseURL := str "https://openrouter.ai/api/v1";
     agent_config.env_Env := str "dev";
     agent_config.env_Model := agent_config.default_Model;
     agent_config.env_MaxSteps := 2;
     agent_config.env_CommandTimeout := 0 |}.

Definition client_always (response : gostring) : @openai.Client unit :=
  fun _ _ w => (([response], None), w).

Definition openai_New_always (response : gostring)
  : gostring -> gostring -> gostring -> @openai.Client unit + error :=
  fun _ _ _ => inl (client_always response).

Definition listed : ProcResult :=
  {| proc_stdout := examples.ls_stdout; proc_stderr := [];
     proc_err := None; DeadlineExceeded := false |}.

Definition default_validator : CommandValidator :=
  @agent_executor.Validate examples.plain_fmt examples.blocklist.

Definition NewWithConfig_ls
  : agent_config.Config -> @agent.BaseAgent unit + error :=
  @agent_new.NewWithConfig unit examples.plain_fmt
    (openai_New_always examples.ls_response)
    (examples.launch_always listed) default_validator.

Definition loaded_two_steps : agent_config.Config + error :=
  agent_config.LoadConfig (inl env_two_steps) (inl config_toml)
    no_duration any_dir.

Definition json_flags : cmd.Flags :=
  {| cmd.verbose := false; cmd.quiet := false; cmd.jsonOut := true |}.

Definition plain_flags : cmd.Flags :=
  {| cmd.verbose := false; cmd.quiet := false; cmd.jsonOut := false |}.

(** A compiler that takes every pattern as a literal text. *)
Definition compile_literal : gostring -> Regexp + error :=
  fun p => inl (examples.literal p).

(** A response with an empty block, some prose and a second block. *)
Definition blank_then_ls : gostring :=
  examples.fenced (str "  ") ++ nl :: str "foo" ++ nl :: examples.fenced (str "ls").

(** A response with one empty block followed by a stray fence. *)
Definition blank_then_stray : gostring :=
  examples.fenced [] ++ nl :: str "Done." ++ nl :: str "```".

(** A model that asks for [ls] at first and for [pwd] once the history
    has grown, and an agent of package agent over it. *)
Definition model_by_history : Model unit :=
  fun _ messages w =>
    ((if Nat.leb (List.length messages) 2 then examples.fenced (str "ls")
      else examples.fenced (str "pwd"), None), w).

Definition varied_BaseAgent : agent.BaseAgent :=
  {| agent.config := {| agent.SystemPrompt := wise.DefaultSystemPrompt;
                        agent.UserPrompt := str "list the files";
                        agent.MaxSteps := 3 |};
     agent.querier := model_by_history;
     agent.parser := Some parser.ParseAction;
     agent.executor := examples.env_always examples.ls_stdout;
     agent.output := Some io_Discard;
     agent.messages := [];
     agent.step := 0 |}.

(** A configuration file whose command timeout does not parse. *)
Definition config_toml_bad_timeout : agent_config.UserConfig :=
  {| agent_config.user_SystemPrompt := str "You run bash commands.";
     agent_config.user_UserPrompt := str "Task: {{.Task}}";
     agent_config.user_Model := str "openai/gpt-4o";
     agent_config.user_MaxSteps := 10;
     agent_config.user_CommandTimeout := str "soon";
     agent_config.user_WorkingDir := [] |}.

End examples2.

(** * Properties *)

(** ** Strings *)

Lemma eqs_true (a b : gostring) : eqs a b = true <-> a = b.
Proof.
  unfold eqs. destruct (list_eq_dec ascii_dec a b); split; congruence.
Qed.

Lemma eqs_false (a b : gostring) : eqs a b = false <-> a <> b.
Proof.
  unfold eqs. destruct (list_eq_dec ascii_dec a b); split; congruence.
Qed.

Lemma eqs_refl (a : gostring) : eqs a a = true.
Proof. now apply eqs_true. Qed.

Lemma SplitN_first_after (s : gostring) :
  strings.SplitN_nl_2 s = [firstLine s]
  \/ strings.SplitN_nl_2 s = [firstLine s; afterFirstLine s].
Proof.
  induction s as [|c r IH]; simpl.
  - now left.
  - destruct (Ascii.eqb c nl); [now right|].
    destruct IH as [-> | ->]; [left | right]; reflexivity.
Qed.

Lemma SplitN_hd (s : gostring) : hd [] (strings.SplitN_nl_2 s) = firstLine s.
Proof. destruct (SplitN_first_after s) as [-> | ->]; reflexivity. Qed.

Lemma SplitN_single_after (s : gostring) :
  strings.SplitN_nl_2 s = [firstLine s] -> afterFirstLine s = [].
Proof.
  induction s as [|c r IH]; simpl; [reflexivity|].
  destruct (Ascii.eqb c nl); [discriminate|].
  destruct (SplitN_first_after r) as [E | E]; rewrite E; [|discriminate].
  intros _. now apply IH.
Qed.

(** A text is its first line, followed, when it has a newline, by the
    newline and the rest. *)
Lemma firstLine_shape (s : gostring) :
  s = firstLine s \/ s = firstLine s ++ nl :: afterFirstLine s.
Proof.
  induction s as [|c r IH]; simpl; [now left|].
  destruct (Ascii.eqb_spec c nl) as [-> | _]; [now right|].
  destruct IH as [IH | IH]; [left | right]; simpl; f_equal; exact IH.
Qed.

Lemma firstLine_app_nl (m r : gostring) :
  ~ In nl m -> firstLine (m ++ nl :: r) = m.
Proof.
  induction m as [|c m IH]; simpl; intros H.
  - reflexivity.
  - destruct (Ascii.eqb_spec c nl) as [-> | _]; [tauto|].
    f_equal. apply IH. tauto.
Qed.

Lemma firstLine_no_nl (m : gostring) : ~ In nl m -> firstLine m = m.
Proof.
  induction m as [|c m IH]; simpl; intros H; [reflexivity|].
  destruct (Ascii.eqb_spec c nl) as [-> | _]; [tauto|].
  f_equal. apply IH. tauto.
Qed.

(** *** Trimming *)

Lemma code_low_neq (c : ascii) (n : N) :
  (code c < 128)%N -> (128 <= n)%N -> (code c =? n)%N = false.
Proof. intros H1 H2. apply N.eqb_neq. lia. Qed.

Lemma code_low_leb (c : ascii) (n : N) :
  (code c < 128)%N -> (128 <= n)%N -> (n <=? code c)%N = false.
Proof. intros H1 H2. apply N.leb_gt. lia. Qed.

Ltac low_bytes H :=
  rewrite ?(code_low_neq _ _ H), ?(code_low_leb _ _ H) by lia.

Lemma isSpace2_low_l a b : (code a < 128)%N -> strings.isSpace2 a b = false.
Proof. intros H. unfold strings.isSpace2. low_bytes H. reflexivity. Qed.

Lemma isSpace2_low_r a b : (code b < 128)%N -> strings.isSpace2 a b = false.
Proof.
  intros H. unfold strings.isSpace2. low_bytes H.
  now destruct (code a =? 194)%N.
Qed.

Lemma isSpace3_low_1 a b c : (code a < 128)%N -> strings.isSpace3 a b c = false.
Proof. intros H. unfold strings.isSpace3. low_bytes H. reflexivity. Qed.

Lemma isSpace3_low_2 a b c : (code b < 128)%N -> strings.isSpace3 a b c = false.
Proof.
  intros H. unfold strings.isSpace3. low_bytes H.
  now destruct (code a =? 225)%N, (code a =? 226)%N, (code a =? 227)%N.
Qed.

Lemma isSpace3_low_3 a b c : (code c < 128)%N -> strings.isSpace3 a b c = false.
Proof.
  intros H. unfold strings.isSpace3. low_bytes H.
  now destruct (code a =? 225)%N, (code a =? 226)%N, (code a =? 227)%N,
               (code b =? 154)%N, (code b =? 128)%N, (code b =? 129)%N.
Qed.

Section trimFront.
Variable sp2 : ascii -> ascii -> bool.
Variable sp3 : ascii -> ascii -> ascii -> bool.
Hypothesis sp2_l : forall a b, (code a < 128)%N -> sp2 a b = false.
Hypothesis sp2_r : forall a b, (code b < 128)%N -> sp2 a b = false.
Hypothesis sp3_1 : forall a b c, (code a < 128)%N -> sp3 a b c = false.
Hypothesis sp3_2 : forall a b c, (code b < 128)%N -> sp3 a b c = false.
Hypothesis sp3_3 : forall a b c, (code c < 128)%N -> sp3 a b c = false.

(** Trimming stops at a plain byte. *)
Lemma trimFront_plain c z :
  plain c -> strings.trimFront sp2 sp3 (c :: z) = c :: z.
Proof.
  intros [Hc Hs].
  destruct z as [|c1 [|c2 r2]]; simpl; rewrite Hs; try reflexivity.
  - now rewrite sp2_l.
  - now rewrite sp2_l, sp3_1.
Qed.

(** What trimming removes lies before the first plain byte. *)
Lemma trimFront_app_plain_len n : forall y c z,
  (List.length y <= n)%nat -> plain c ->
  strings.trimFront sp2 sp3 (y ++ c :: z)
  = strings.trimFront sp2 sp3 y ++ c :: z.
Proof.
  induction n as [|n IH]; intros y c z Hlen Hc.
  - destruct y; [|simpl in Hlen; lia]. simpl app at 1.
    rewrite trimFront_plain by assumption. reflexivity.
  - destruct y as [|a y1]; [simpl app at 1; now rewrite trimFront_plain|].
    simpl in Hlen. destruct Hc as [Hc Hs].
    destruct (strings.asciiSpace a) eqn:Ha.
    { simpl. rewrite Ha. apply IH; [lia | now split]. }
    destruct y1 as [|b y2].
    { simpl. rewrite Ha, sp2_r by assumption.
      destruct z; [reflexivity|]. now rewrite sp3_2. }
    simpl in Hlen.
    destruct (sp2 a b) eqn:Hab.
    { simpl. rewrite Ha, Hab. apply IH; [lia | now split]. }
    destruct y2 as [|d y3].
    { simpl. rewrite Ha, Hab. now rewrite sp3_3. }
    simpl in Hlen.
    destruct (sp3 a b d) eqn:Habd.
    { simpl. rewrite Ha, Hab, Habd. apply IH; [lia | now split]. }
    simpl. now rewrite Ha, Hab, Habd.
Qed.

Lemma trimFront_app_plain y c z :
  plain c ->
  strings.trimFront sp2 sp3 (y ++ c :: z)
  = strings.trimFront sp2 sp3 y ++ c :: z.
Proof. apply (trimFront_app_plain_len (List.length y)). lia. Qed.

End trimFront.

(** Trimming returns what is left after some bytes at the front. *)
Lemma trimFront_suffix_len sp2 sp3 n : forall s,
  (List.length s <= n)%nat ->
  exists p, s = p ++ strings.trimFront sp2 sp3 s.
Proof.
  induction n as [|n IH]; intros s Hlen.
  - destruct s; [now exists [] | simpl in Hlen; lia].
  - destruct s as [|a r0]; [now exists []|].
    simpl in Hlen. cbn [strings.trimFront].
    destruct (strings.asciiSpace a).
    { destruct (IH r0) as [p Hp]; [lia|]. exists (a :: p). simpl. now f_equal. }
    destruct r0 as [|b r1]; [now exists []|].
    destruct (sp2 a b).
    { destruct (IH r1) as [p Hp]; [simpl in Hlen; lia|].
      exists (a :: b :: p). simpl. now do 2 f_equal. }
    destruct r1 as [|c r2]; [now exists []|].
    destruct (sp3 a b c); [|now exists []].
    destruct (IH r2) as [p Hp]; [simpl in Hlen; lia|].
    exists (a :: b :: c :: p). simpl. now do 3 f_equal.
Qed.

Lemma TrimRightSpace_prefix (s : gostring) :
  exists q, s = strings.TrimRightSpace s ++ q.
Proof.
  unfold strings.TrimRightSpace.
  destruct (trimFront_suffix_len (fun c1 c0 => strings.isSpace2 c0 c1)
              (fun c2 c1 c0 => strings.isSpace3 c0 c1 c2)
              (List.length (rev s)) (rev s) (le_n _)) as [p Hp].
  exists (rev p).
  rewrite <- rev_app_distr, <- Hp. now rewrite rev_involutive.
Qed.

(** Trimming on the right does not reach past a plain byte. *)
Lemma TrimRightSpace_app_plain (m : gostring) (c : ascii) (t : gostring) :
  plain c ->
  strings.TrimRightSpace (m ++ c :: t) = m ++ c :: strings.TrimRightSpace t.
Proof.
  intros Hc. unfold strings.TrimRightSpace.
  assert (E : rev (m ++ c :: t) = rev t ++ c :: rev m).
  { rewrite rev_app_distr. simpl. now rewrite <- app_assoc. }
  rewrite E, trimFront_app_plain; try assumption.
  - rewrite rev_app_distr. simpl. now rewrite rev_involutive, <- app_assoc.
  - intros; now apply isSpace2_low_r.
  - intros; now apply isSpace2_low_l.
  - intros; now apply isSpace3_low_3.
  - intros; now apply isSpace3_low_2.
  - intros; now apply isSpace3_low_1.
Qed.

Lemma plain_marker_last : plain "E"%char.
Proof. split; [vm_compute; reflexivity | reflexivity]. Qed.

(** The marker at the start of a text survives trimming: what is trimmed is
    white space after it. *)
Lemma TrimSpace_marker (t : gostring) :
  strings.TrimSpace (completionMarker ++ t)
  = completionMarker ++ strings.TrimRightSpace t.
Proof.
  unfold strings.TrimSpace.
  change (strings.TrimLeftSpace (completionMarker ++ t))
    with (completionMarker ++ t).
  change (completionMarker ++ t)
    with (str "TASK_COMPLET" ++ "E"%char :: t).
  rewrite TrimRightSpace_app_plain by exact plain_marker_last.
  reflexivity.
Qed.

Lemma marker_no_nl : ~ In nl completionMarker.
Proof.
  intros H. vm_compute in H.
  repeat (destruct H as [H | H]; [discriminate H|]). exact H.
Qed.

(** When the first line of the standard output is the marker, the loop
    sees the task as complete. *)
Lemma isTaskComplete_first_line (o : Output) :
  firstLine (Stdout o) = completionMarker -> isTaskComplete o = true.
Proof.
  intros H. unfold isTaskComplete. rewrite SplitN_hd.
  assert (E : exists t, Stdout o = completionMarker ++ t
                        /\ (t = [] \/ exists r, t = nl :: r)).
  { destruct (firstLine_shape (Stdout o)) as [E | E]; rewrite H in E.
    - exists []. rewrite app_nil_r. auto.
    - exists (nl :: afterFirstLine (Stdout o)). eauto. }
  destruct E as (t & -> & Ht).
  rewrite TrimSpace_marker.
  destruct (TrimRightSpace_prefix t) as [q Hq].
  assert (F : firstLine (completionMarker ++ strings.TrimRightSpace t)
              = completionMarker).
  { destruct (strings.TrimRightSpace t) as [|c u] eqn:Et.
    - rewrite app_nil_r. apply firstLine_no_nl, marker_no_nl.
    - destruct Ht as [-> | [r ->]]; [discriminate Hq|].
      simpl in Hq. injection Hq as <- _.
      apply firstLine_app_nl, marker_no_nl. }
  rewrite F. apply eqs_true. reflexivity.
Qed.

Lemma extractFinalOutput_after (o : Output) :
  extractFinalOutput o = strings.TrimSpace (afterFirstLine (Stdout o)).
Proof.
  unfold extractFinalOutput.
  destruct (SplitN_first_after (Stdout o)) as [E | E]; rewrite E.
  - now rewrite (SplitN_single_after _ E).
  - reflexivity.
Qed.

(** ** The loop of package wise *)

Section wise_facts.
Context {W : Type}.
Implicit Types (a : @wise.baseAgent W) (s : Sys W) (ctx : context W).

Lemma handleOutput_complete a (o : Output) s :
  firstLine (Stdout o) = completionMarker ->
  wise.handleOutput a o s
  = (Returned (strings.TrimSpace (afterFirstLine (Stdout o)))
       (Some (TerminatingE
          {| Reason := ReasonComplete;
             FinalOutput := strings.TrimSpace (afterFirstLine (Stdout o)) |})),
     a, s).
Proof.
  intros H. unfold wise.handleOutput.
  rewrite (isTaskComplete_first_line o H). simpl.
  now rewrite extractFinalOutput_after.
Qed.

End wise_facts.

(** C1.  When a command has been executed without error and the first line
    of its standard output is the completion marker, the step returns a
    terminating signal with reason complete whose final output is the
    trimmed text after the first line, the loop of Run ends at once with
    that final output, and the history holds the response of the model as
    its last message: the output is not added to it. *)
Theorem completion_marker_ends_loop
  (W : Type) (ctx : context W) (a : @wise.baseAgent W) (s : Sys W)
  (k : nat) (lastResponse response : gostring)
  (action : Action) (s2 s3 : Sys W) (o : Output) :
  wise.reaches_action ctx a s response action s2 ->
  wise.run_action (wise.addMessage a RoleAssistant response) ctx action s2
  = ((o, None), s3) ->
  firstLine (Stdout o) = completionMarker ->
  let final := strings.TrimSpace (afterFirstLine (Stdout o)) in
  let a' := wise.addMessage a RoleAssistant response in
  wise.Step ctx a s
  = (Returned final
       (Some (TerminatingE {| Reason := ReasonComplete; FinalOutput := final |})),
     a', s3)
  /\ wise.Run_loop ctx (S k) a s lastResponse = (Returned final None, a', s3)
  /\ wise.messages a'
     = wise.messages a ++ [{| Role := RoleAssistant; Content := response |}].
Proof.
  intros (Hctx & w1 & p & Hq & Hp & Hparse & Hw) Hrun Hline final a'.
  assert (HS : wise.Step ctx a s
               = (Returned final
                    (Some (TerminatingE {| Reason := ReasonComplete;
                                           FinalOutput := final |})),
                  a', s3)).
  { unfold wise.Step. rewrite Hctx, Hq, Hp, Hparse.
    change (wise.cfg (wise.addMessage a RoleAssistant response))
      with (wise.cfg a).
    rewrite Hw, Hrun. now apply handleOutput_complete. }
  split; [exact HS|]. split; [|reflexivity].
  simpl. unfold wise.Run_body. rewrite HS. reflexivity.
Qed.

(** The command [echo "TASK_COMPLETE\nSummary: X"]: Run ends with the final
    output [Summary: X], the step with reason complete. *)
Lemma completion_marker_echo :
  let a := wise.addMessage
             (wise.addMessage (wise.set_messages examples.echo_agent [])
                RoleSystem wise.DefaultSystemPrompt) RoleUser (str "say it") in
  let s3 :=
    {| world := tt;
       trace := [ EvQuery (wise.messages a);
                  EvExecute {| Type_ := ActionTypeBash;
                               Command := examples.echo_summary |} ] |} in
  wise.Step examples.live a examples.start
  = (Returned (str "Summary: X")
       (Some (TerminatingE {| Reason := ReasonComplete;
                              FinalOutput := str "Summary: X" |})),
     wise.addMessage a RoleAssistant (examples.fenced examples.echo_summary), s3)
  /\ wise.Run examples.live examples.echo_agent (str "say it") examples.start
     = (Returned (str "Summary: X") None,
        wise.addMessage a RoleAssistant (examples.fenced examples.echo_summary),
        s3).
Proof.
  intros a s3.
  destruct (completion_marker_ends_loop unit examples.live a examples.start
    24 [] (examples.fenced examples.echo_summary)
    {| Type_ := ActionTypeBash; Command := examples.echo_summary |}
    {| world := tt; trace := [ EvQuery (wise.messages a) ] |} s3
    {| Stdout := examples.echo_summary_stdout; Stderr := []; ExitCode := 0;
       TimedOut := false |}) as (HS & HR & _).
  - split; [reflexivity|]. exists tt, parser.ParseAction.
    repeat split; reflexivity.
  - reflexivity.
  - reflexivity.
  - split; [exact HS | exact HR].
Defined.

(** The test for completion trims the standard output before it takes the
    first line, the extraction of the final output does not: after a
    leading blank line the marker is recognised and stays in the final
    output. *)
Example leading_blank_line_keeps_marker :
  let o := {| Stdout := nl :: str "TASK_COMPLETE" ++ nl :: str "Summary: X";
              Stderr := []; ExitCode := 0; TimedOut := false |} in
  isTaskComplete o = true
  /\ extractFinalOutput o = str "TASK_COMPLETE" ++ nl :: str "Summary: X".
Proof. split; reflexivity. Qed.

(** ** Observations *)

Lemma formatObservation_blank (o : Output) :
  blank (Stdout o) -> ExitCode o = 0 -> formatObservation o = str "(no output)".
Proof.
  unfold blank, formatObservation. intros -> ->. reflexivity.
Qed.

Lemma formatObservation_not_blank (o : Output) :
  ~ (blank (Stdout o) /\ ExitCode o = 0) ->
  eqs (strings.TrimSpace (Stdout o)) [] && (ExitCode o =? 0) = false.
Proof.
  intros H. apply andb_false_iff.
  destruct (eqs (strings.TrimSpace (Stdout o)) []) eqn:E; [|now left].
  destruct (Z.eqb_spec (ExitCode o) 0) as [E0|]; [|now right].
  exfalso. apply H. split; [now apply eqs_true | exact E0].
Qed.

(** C8.  A blank standard output with exit code 0 is rendered as the
    sentinel; a standard output of more than 10000 bytes, unless it is blank
    with exit code 0, is rendered as its first 5000 bytes, the truncation
    notice and its last 5000 bytes, after the exit code line when the exit
    code is not 0; a nonzero exit code is put in front; and the rendering
    depends on the standard output and the exit code only. *)
Theorem formatObservation_spec (o : Output) :
  (blank (Stdout o) -> ExitCode o = 0 ->
   formatObservation o = str "(no output)")
  /\ (~ (blank (Stdout o) /\ ExitCode o = 0) ->
      maxLen < Z.of_nat (List.length (Stdout o)) ->
      formatObservation o
      = (if ExitCode o =? 0 then []
         else str "[exit code: " ++ itoa (ExitCode o) ++ str "]" ++ [nl])
        ++ firstn (Z.to_nat (maxLen / 2)) (Stdout o) ++ truncation_notice
        ++ skipn (List.length (Stdout o) - Z.to_nat (maxLen / 2)) (Stdout o))
  /\ (ExitCode o <> 0 ->
      exists body,
        formatObservation o
        = str "[exit code: " ++ itoa (ExitCode o) ++ str "]" ++ nl :: body)
  /\ (forall o', Stdout o' = Stdout o -> ExitCode o' = ExitCode o ->
                 formatObservation o' = formatObservation o).
Proof.
  repeat split.
  - apply formatObservation_blank.
  - intros Hnb Hlen. unfold formatObservation.
    rewrite (formatObservation_not_blank o Hnb).
    replace (maxLen <? Z.of_nat (List.length (Stdout o))) with true
      by (symmetry; now apply Z.ltb_lt).
    destruct (ExitCode o =? 0); simpl negb; cbv iota.
    + reflexivity.
    + rewrite <- !app_assoc. reflexivity.
  - intros Hne. unfold formatObservation.
    destruct (Z.eqb_spec (ExitCode o) 0) as [E|_]; [contradiction|].
    rewrite andb_false_r. simpl negb. cbv iota. eauto.
  - intros o' Hs He. unfold formatObservation. now rewrite Hs, He.
Qed.

Lemma formatObservation_spec_witness :
  formatObservation Output_zero = str "(no output)"
  /\ formatObservation
       {| Stdout := repeat "a"%char (Z.to_nat 10001); Stderr := [];
          ExitCode := 0; TimedOut := false |}
     = repeat "a"%char (Z.to_nat 5000) ++ truncation_notice
       ++ repeat "a"%char (Z.to_nat 5000)
  /\ exists body,
       formatObservation
         {| Stdout := str "boom"; Stderr := []; ExitCode := 2;
            TimedOut := false |}
       = str "[exit code: 2]" ++ nl :: body.
Proof.
  split; [|split].
  - apply (proj1 (formatObservation_spec Output_zero)); reflexivity.
  - set (o := {| Stdout := repeat "a"%char (Z.to_nat 10001); Stderr := [];
                 ExitCode := 0; TimedOut := false |}).
    destruct (formatObservation_spec o) as (_ & H & _).
    rewrite H.
    + vm_compute. reflexivity.
    + assert (E : strings.TrimSpace (Stdout o) = repeat "a"%char (Z.to_nat 10001))
        by (vm_compute; reflexivity).
      intros [Hb _]. unfold blank in Hb. rewrite E in Hb. discriminate Hb.
    + vm_compute. reflexivity.
  - set (o := {| Stdout := str "boom"; Stderr := []; ExitCode := 2;
                 TimedOut := false |}).
    destruct (formatObservation_spec o) as (_ & _ & H & _).
    apply H. discriminate.
Defined.

(** A blank standard output of more than 10000 bytes with exit code 0 is
    rendered as the sentinel: no head, notice and tail. *)
Lemma formatObservation_blank_oversized :
  let o := {| Stdout := examples.spaces (Z.to_nat 10001); Stderr := [];
              ExitCode := 0; TimedOut := false |} in
  maxLen < Z.of_nat (List.length (Stdout o))
  /\ formatObservation o = str "(no output)"
  /\ ~ exists front,
        formatObservation o
        = front ++ firstn (Z.to_nat (maxLen / 2)) (Stdout o)
          ++ truncation_notice
          ++ skipn (List.length (Stdout o) - Z.to_nat (maxLen / 2)) (Stdout o).
Proof.
  intros o.
  assert (L : List.length (Stdout o) = Z.to_nat 10001)
    by exact (repeat_length " "%char (Z.to_nat 10001)).
  assert (F : formatObservation o = str "(no output)")
    by (vm_compute; reflexivity).
  split; [rewrite L; vm_compute; reflexivity|]. split; [exact F|].
  intros [front H]. rewrite F in H.
  apply (f_equal (@List.length ascii)) in H.
  rewrite !length_app, length_firstn, L in H.
  change (List.length (str "(no output)")) with 11%nat in H.
  change (Z.to_nat (maxLen / 2)) with (Z.to_nat 5000) in H.
  lia.
Qed.

(** ** The executors *)

Lemma trace_grows_ne (t : list Event) (ev : Event) : t ++ [ev] <> t.
Proof.
  intros H. apply (f_equal (@List.length Event)) in H.
  rewrite length_app in H. simpl in H. lia.
Qed.

(** C9.  In both executors, an action of another kind than bash and a
    command that the validator rejects make Execute return the zero Output
    with the error, the system untouched; and whenever Execute returns an
    error without having started a process, its Output is the zero value. *)
Theorem Execute_refusal_zero_Output
  (W : Type) (fmt : Fmt) (launch : Launcher W) (ctx : context W)
  (action : Action) (s : Sys W) :
  (forall e : agent_executor.BashExecutor,
      (Type_ action <> ActionTypeBash ->
       agent_executor.Execute launch e ctx action s
       = ((Output_zero,
           Some (PlainE (str "unsupported action type: " ++ Type_ action))), s))
      /\ (forall v err,
             Type_ action = ActionTypeBash ->
             agent_executor.validator e = Some v ->
             v (Command action) = Some err ->
             agent_executor.Execute launch e ctx action s
             = ((Output_zero, Some err), s))
      /\ (forall o err s',
             agent_executor.Execute launch e ctx action s = ((o, Some err), s') ->
             trace s' = trace s ->
             o = Output_zero))
  /\ (forall e : local.Config,
      (Type_ action <> ActionTypeBash ->
       local.Execute launch e ctx action s
       = ((Output_zero,
           Some (PlainE (str "unsupported action type: " ++ Type_ action))), s))
      /\ (forall v err,
             Type_ action = ActionTypeBash ->
             local.validator e = Some v ->
             v (Command action) = Some err ->
             local.Execute launch e ctx action s
             = ((Output_zero, Some err), s))
      /\ (forall o err s',
             local.Execute launch e ctx action s = ((o, Some err), s') ->
             trace s' = trace s ->
             o = Output_zero)).
Proof.
  split; intros e; (split; [|split]).
  - intros H. unfold agent_executor.Execute.
    apply eqs_false in H. now rewrite H.
  - intros v err H Hv Hr. unfold agent_executor.Execute.
    apply eqs_true in H. now rewrite H, Hv, Hr.
  - intros o err s'. unfold agent_executor.Execute.
    destruct (negb (eqs (Type_ action) ActionTypeBash)); [congruence|].
    destruct (match agent_executor.validator e with
              | Some v => v (Command action) | None => None end);
      [congruence|].
    destruct (launch _ _ _ _ _) as [r w].
    destruct (proc_err r); [destruct (DeadlineExceeded r)|];
      intros H Ht; injection H as _ _ <-; simpl in Ht;
      now apply trace_grows_ne in Ht.
  - intros H. unfold local.Execute.
    apply eqs_false in H. now rewrite H.
  - intros v err H Hv Hr. unfold local.Execute.
    apply eqs_true in H. now rewrite H, Hv, Hr.
  - intros o err s'. unfold local.Execute.
    destruct (negb (eqs (Type_ action) ActionTypeBash)); [congruence|].
    destruct (match local.validator e with
              | Some v => v (Command action) | None => None end);
      [congruence|].
    destruct (launch _ _ _ _ _) as [r w].
    destruct (proc_err r); [destruct (DeadlineExceeded r)|];
      intros H Ht; injection H as _ _ <-; simpl in Ht;
      now apply trace_grows_ne in Ht.
Qed.

Lemma Execute_refusal_zero_Output_witness :
  @local.Execute unit examples.plain_fmt
    (examples.launch_always examples.killed)
    {| local.timeout := 1; local.workingDir := []; local.validator := None |}
    examples.live {| Type_ := str "python"; Command := str "print(1)" |}
    examples.start
  = ((Output_zero, Some (PlainE (str "unsupported action type: python"))),
     examples.start)
  /\ @agent_executor.Execute unit examples.plain_fmt
       (examples.launch_always examples.killed)
       {| agent_executor.timeout := 1; agent_executor.workingDir := [];
          agent_executor.validator :=
            Some (@agent_executor.Validate examples.plain_fmt examples.blocklist) |}
       examples.live {| Type_ := ActionTypeBash; Command := str "shutdown -h now" |}
       examples.start
     = ((Output_zero,
         Some (ProcessE
           {| ErrType := ProcessErrExecution;
              ErrMessage :=
                str "Command blocked for safety: matches pattern "
                ++ dquote :: str "shutdown" ++ dquote
                :: str ". Please use a safer alternative." |})),
        examples.start).
Proof.
  split.
  - apply (proj1 (proj2 (Execute_refusal_zero_Output unit examples.plain_fmt
             (examples.launch_always examples.killed) examples.live
             {| Type_ := str "python"; Command := str "print(1)" |}
             examples.start)
             {| local.timeout := 1; local.workingDir := [];
                local.validator := None |})).
    discriminate.
  - apply (proj1 (proj2 (proj1 (Execute_refusal_zero_Output unit examples.plain_fmt
             (examples.launch_always examples.killed) examples.live
             {| Type_ := ActionTypeBash; Command := str "shutdown -h now" |}
             examples.start)
             {| agent_executor.timeout := 1; agent_executor.workingDir := [];
                agent_executor.validator :=
                  Some (@agent_executor.Validate examples.plain_fmt examples.blocklist) |}))
             (@agent_executor.Validate examples.plain_fmt examples.blocklist));
      reflexivity.
Defined.

(** ** The validator *)

Section validator_facts.
Context {fmt : Fmt}.

Lemma Validate_loop_no_match (ps : list Regexp) (command : gostring) :
  Forall (fun r => MatchString r command = false) ps ->
  agent_executor.Validate_loop ps command = (ps, None).
Proof.
  induction 1 as [|re ps Hre _ IH]; simpl; [reflexivity|].
  now rewrite Hre, IH.
Qed.

Lemma Validate_loop_first_match (ps : list Regexp) (command : gostring) :
  (exists re, In re ps /\ MatchString re command = true) ->
  exists before re after,
    ps = before ++ re :: after
    /\ Forall (fun r => MatchString r command = false) before
    /\ MatchString re command = true
    /\ agent_executor.Validate_loop ps command
       = (before ++ [re], Some (blocked_by re)).
Proof.
  induction ps as [|p ps IH]; intros (re & Hin & Hre); [destruct Hin|].
  destruct (MatchString p command) eqn:Hp.
  - exists [], p, ps. simpl. rewrite Hp. repeat split. constructor.
  - destruct Hin as [-> | Hin]; [congruence|].
    destruct IH as (before & re' & after & -> & Hb & Hm & HV); [eauto|].
    exists (p :: before), re', after. simpl. rewrite Hp, HV.
    repeat split; try assumption. now constructor.
Qed.

End validator_facts.

(** C3.  When a command matches a pattern of the blocklist, Validate calls
    the matchers of the patterns up to the first one that matches and of no
    later one, and returns a process error of kind execution whose message
    quotes that pattern and asks for a safer alternative; an executor with
    this validator returns the zero Output and that error and leaves the
    system as it was: no process is started. *)
Theorem Validate_first_match
  (fmt : Fmt) (v : agent_executor.BlocklistValidator) (command : gostring) :
  (exists re, In re (agent_executor.patterns v)
              /\ MatchString re command = true) ->
  exists before re after,
    agent_executor.patterns v = before ++ re :: after
    /\ Forall (fun r => MatchString r command = false) before
    /\ MatchString re command = true
    /\ agent_executor.Validate_loop (agent_executor.patterns v) command
       = (before ++ [re],
          Some (ProcessE
            {| ErrType := ProcessErrExecution;
               ErrMessage :=
                 str "Command blocked for safety: matches pattern "
                 ++ Quote (String_ re)
                 ++ str ". Please use a safer alternative." |}))
    /\ agent_executor.Validate v command = Some (blocked_by re)
    /\ forall (W : Type) (launch : Launcher W) (e : agent_executor.BashExecutor)
              (ctx : context W) (s : Sys W),
         agent_executor.validator e = Some (agent_executor.Validate v) ->
         agent_executor.Execute launch e ctx
           {| Type_ := ActionTypeBash; Command := command |} s
         = ((Output_zero, Some (blocked_by re)), s).
Proof.
  intros H.
  destruct (Validate_loop_first_match _ _ H)
    as (before & re & after & Hps & Hb & Hm & HV).
  exists before, re, after.
  assert (HVal : agent_executor.Validate v command = Some (blocked_by re))
    by (unfold agent_executor.Validate; now rewrite HV).
  repeat split; try assumption.
  intros W launch e ctx s He.
  unfold agent_executor.Execute. simpl. now rewrite He, HVal.
Qed.

Lemma Validate_first_match_witness :
  exists before re after,
    agent_executor.patterns examples.blocklist = before ++ re :: after
    /\ Forall (fun r => MatchString r (str "sudo shutdown now") = false) before
    /\ MatchString re (str "sudo shutdown now") = true
    /\ @agent_executor.Validate_loop examples.plain_fmt
         (agent_executor.patterns examples.blocklist) (str "sudo shutdown now")
       = (before ++ [re],
          Some (ProcessE
            {| ErrType := ProcessErrExecution;
               ErrMessage :=
                 str "Command blocked for safety: matches pattern "
                 ++ @Quote examples.plain_fmt (String_ re)
                 ++ str ". Please use a safer alternative." |}))
    /\ @agent_executor.Validate examples.plain_fmt examples.blocklist
         (str "sudo shutdown now")
       = Some (@blocked_by examples.plain_fmt re)
    /\ forall (W : Type) (launch : Launcher W) (e : agent_executor.BashExecutor)
              (ctx : context W) (s : Sys W),
         agent_executor.validator e
         = Some (@agent_executor.Validate examples.plain_fmt examples.blocklist) ->
         @agent_executor.Execute W examples.plain_fmt launch e ctx
           {| Type_ := ActionTypeBash; Command := str "sudo shutdown now" |} s
         = ((Output_zero, Some (@blocked_by examples.plain_fmt re)), s).
Proof.
  apply (Validate_first_match examples.plain_fmt examples.blocklist
           (str "sudo shutdown now")).
  exists (examples.literal (str "shutdown")).
  split; [right; now left | reflexivity].
Defined.

(** The error of Validate is of kind execution, not of a blocked kind. *)
Lemma Validate_kind_not_blocked :
  (exists re, In re (agent_executor.patterns examples.blocklist)
              /\ MatchString re (str "sudo mkfs /dev/sda1") = true)
  /\ exists pe,
       @agent_executor.Validate examples.plain_fmt examples.blocklist
         (str "sudo mkfs /dev/sda1") = Some (ProcessE pe)
       /\ ErrType pe = ProcessErrExecution
       /\ ~ is_BlockedError (ProcessE pe).
Proof.
  split.
  - exists (examples.literal (str "mkfs")). split; [now left | reflexivity].
  - eexists. split; [reflexivity|]. split; [reflexivity|].
    intros [(pe & H & Hk) | (ee & H & _)]; [|discriminate H].
    injection H as <-. discriminate Hk.
Qed.

(** ** Timeouts *)

Section timeout_facts.
Context {W : Type} {fmt : Fmt}.




End timeout_facts.

(** ** Steps of package wise *)

Lemma queries_app (t u : list Event) :
  queries (t ++ u) = (queries t + queries u)%nat.
Proof.
  induction t as [|ev t IH]; simpl; [reflexivity|].
  destruct ev; simpl; now rewrite IH.
Qed.

Lemma extends_refl (h : list Message) : extends h h.
Proof. exists []. now rewrite app_nil_r. Qed.

Lemma extends_trans (h1 h2 h3 : list Message) :
  extends h3 h2 -> extends h2 h1 -> extends h3 h1.
Proof.
  intros [m1 ->] [m2 ->]. exists (m2 ++ m1). now rewrite app_assoc.
Qed.

Lemma extends_app (h more : list Message) : extends (h ++ more) h.
Proof. now exists more. Qed.

Section wise_steps.
Context {W : Type}.
Implicit Types (a : @wise.baseAgent W) (s : Sys W) (ctx : context W).

Lemma Fprint_queries (w : option Writer) (text : gostring) s s' :
  Fprint w text s = Some s' -> queries (trace s') = queries (trace s).
Proof.
  destruct w as [[|]|]; simpl; intros H; inversion H; subst; try reflexivity.
  simpl. rewrite queries_app. simpl. lia.
Qed.

Lemma run_action_queries a ctx action s r s' :
  wise.run_action a ctx action s = (r, s') ->
  queries (trace s') = queries (trace s).
Proof.
  unfold wise.run_action.
  destruct (wise.actionHandler (wise.cfg a)) as [h|].
  - destruct (h ctx action (world s)) as [[[o handled] err] w].
    destruct handled.
    + intros H; inversion H; subst. simpl. rewrite queries_app. simpl. lia.
    + simpl. destruct (wise.env a ctx action w) as [[o' err'] w'].
      intros H; inversion H; subst. simpl.
      rewrite !queries_app. simpl. lia.
  - destruct (wise.env a ctx action (world s)) as [[o' err'] w'].
    intros H; inversion H; subst. simpl. rewrite queries_app. simpl. lia.
Qed.

(** What [handleOutput] does to the agent and to the log. *)
Lemma handleOutput_effect a (o : Output) s r a' s' :
  wise.handleOutput a o s = (r, a', s') ->
  queries (trace s') = queries (trace s)
  /\ (a' = a
      \/ (r = Returned [] None
          /\ a' = wise.addMessage a RoleUser (formatObservation o))).
Proof.
  unfold wise.handleOutput.
  destruct (if negb (isTaskComplete o)
               && negb (eqs (strings.TrimSpace (Stdout o)) [])
            then Fprint (wise.output (wise.cfg a)) (Stdout o ++ [nl]) s
            else Some s) as [s1|] eqn:E.
  - assert (Q : queries (trace s1) = queries (trace s)).
    { destruct (negb (isTaskComplete o)
                && negb (eqs (strings.TrimSpace (Stdout o)) [])).
      - now apply Fprint_queries in E.
      - now inversion E. }
    destruct (isTaskComplete o); intros H; inversion H; subst; auto.
  - intros H; inversion H; subst; auto.
Qed.

(** From the execution of the action on, the step is [run_action]
    followed by [handleOutput]. *)
Lemma Step_at_action ctx a s response action s2 :
  wise.reaches_action ctx a s response action s2 ->
  wise.Step ctx a s
  = match wise.run_action (wise.addMessage a RoleAssistant response)
            ctx action s2 with
    | ((o, Some err), s3) =>
        (Returned [] (Some err), wise.addMessage a RoleAssistant response, s3)
    | ((o, None), s3) =>
        wise.handleOutput (wise.addMessage a RoleAssistant response) o s3
    end.
Proof.
  intros (Hctx & w1 & p & Hq & Hp & Hparse & Hw).
  unfold wise.Step. rewrite Hctx, Hq, Hp, Hparse.
  change (wise.cfg (wise.addMessage a RoleAssistant response))
    with (wise.cfg a).
  now rewrite Hw.
Qed.

(** A step leaves everything of the agent but the history as it was, adds
    to the history at its end only, and asks the model at most once. *)
Lemma Step_effect ctx a s r a' s' :
  wise.Step ctx a s = (r, a', s') ->
  wise.model a' = wise.model a /\ wise.env a' = wise.env a
  /\ wise.cfg a' = wise.cfg a /\ wise.step a' = wise.step a
  /\ extends (wise.messages a') (wise.messages a)
  /\ queries (trace s')
     = (queries (trace s)
        + match ctx (world s) with Some _ => 0 | None => 1 end)%nat.
Proof.
  unfold wise.Step.
  destruct (ctx (world s)) as [e|].
  { intros H; inversion H; subst. repeat split; auto using extends_refl. }
  destruct (wise.model a ctx (wise.messages a) (world s)) as [[response err] w1].
  set (s1 := {| world := w1; trace := trace s ++ [EvQuery (wise.messages a)] |}).
  assert (Q1 : queries (trace s1) = (queries (trace s) + 1)%nat)
    by (simpl; now rewrite queries_app).
  destruct err as [e|].
  { intros H; inversion H; subst. repeat split; auto using extends_refl. }
  destruct (wise.parser (wise.cfg a)) as [p|].
  2:{ intros H; inversion H; subst. repeat split; auto using extends_refl. }
  destruct (p response) as [action [e|]].
  { intros H; inversion H; subst. repeat split; auto using extends_refl. }
  change (wise.cfg (wise.addMessage a RoleAssistant response))
    with (wise.cfg a).
  destruct (Fprint _ _ s1) as [s2|] eqn:Hw.
  2:{ intros H; inversion H; subst. repeat split; auto.
      simpl. apply extends_app. }
  apply Fprint_queries in Hw.
  destruct (wise.run_action _ ctx action s2) as [[o [e|]] s3] eqn:Hr;
    apply run_action_queries in Hr.
  { intros H; inversion H; subst. repeat split; auto; try congruence.
    simpl. apply extends_app. }
  intros H. apply handleOutput_effect in H.
  destruct H as [Q [-> | [_ ->]]]; repeat split; auto; try congruence.
  - simpl. apply extends_app.
  - simpl. rewrite <- app_assoc. apply extends_app.
Qed.

(** The same for the body of the loop. *)
Lemma Run_body_effect ctx a s last r a' s' :
  wise.Run_body ctx a s last = (r, a', s') ->
  wise.model a' = wise.model a /\ wise.env a' = wise.env a
  /\ wise.cfg a' = wise.cfg a /\ wise.step a' = wise.step a
  /\ extends (wise.messages a') (wise.messages a)
  /\ queries (trace s')
     = (queries (trace s)
        + match ctx (world s) with Some _ => 0 | None => 1 end)%nat.
Proof.
  unfold wise.Run_body.
  destruct (wise.Step ctx a s) as [[o a1] s1] eqn:HS.
  apply Step_effect in HS. destruct HS as (Hm & He & Hc & Hs & Hx & Hq).
  destruct o as [response [err|]|].
  - destruct (As_TerminatingErr err);
      [|destruct (As_ProcessErr err); [|destruct (As_ExecutionError err)]];
      intros H; inversion H; subst; repeat split; auto;
      simpl; eapply extends_trans; eauto; apply extends_app.
  - intros H; inversion H; subst; repeat split; auto.
  - intros H; inversion H; subst; repeat split; auto.
Qed.

End wise_steps.

(** *** The histories the model is given *)

Section wise_traces.
Context {W : Type}.
Implicit Types (a : @wise.baseAgent W) (s : Sys W) (ctx : context W).

Lemma logged_refl P t : logged P t t.
Proof. exists []. rewrite app_nil_r. split; [reflexivity | intros h []]. Qed.

Lemma logged_trans (P : list Message -> Prop) t1 t2 t3 :
  logged P t1 t2 -> logged P t2 t3 -> logged P t1 t3.
Proof.
  intros (n1 & -> & H1) (n2 & -> & H2). exists (n1 ++ n2).
  rewrite app_assoc. split; [reflexivity|].
  intros h Hin. apply in_app_or in Hin. destruct Hin; auto.
Qed.

Lemma logged_weaken (P Q : list Message -> Prop) t t' :
  (forall h, P h -> Q h) -> logged P t t' -> logged Q t t'.
Proof. intros HPQ (n & -> & H). exists n. split; auto. Qed.

Lemma logged_one P t ev :
  (forall h, ev = EvQuery h -> P h) -> logged P t (t ++ [ev]).
Proof.
  intros H. exists [ev]. split; [reflexivity|].
  intros h [E | []]. now apply H.
Qed.

Lemma Fprint_logged P (w : option Writer) (text : gostring) s s' :
  Fprint w text s = Some s' -> logged P (trace s) (trace s').
Proof.
  destruct w as [[|]|]; simpl; intros H; inversion H; subst.
  - apply logged_refl.
  - apply logged_one. discriminate.
Qed.

Lemma run_action_logged P a ctx action s r s' :
  wise.run_action a ctx action s = (r, s') -> logged P (trace s) (trace s').
Proof.
  unfold wise.run_action.
  destruct (wise.actionHandler (wise.cfg a)) as [h|].
  - destruct (h ctx action (world s)) as [[[o handled] err] w].
    destruct handled.
    + intros H; inversion H; subst. apply logged_one. discriminate.
    + simpl. destruct (wise.env a ctx action w) as [[o' err'] w'].
      intros H; inversion H; subst. simpl.
      eapply logged_trans; apply logged_one; discriminate.
  - destruct (wise.env a ctx action (world s)) as [[o' err'] w'].
    intros H; inversion H; subst. apply logged_one. discriminate.
Qed.

Lemma handleOutput_logged P a (o : Output) s r a' s' :
  wise.handleOutput a o s = (r, a', s') -> logged P (trace s) (trace s').
Proof.
  unfold wise.handleOutput.
  destruct (if negb (isTaskComplete o)
               && negb (eqs (strings.TrimSpace (Stdout o)) [])
            then Fprint (wise.output (wise.cfg a)) (Stdout o ++ [nl]) s
            else Some s) as [s1|] eqn:E.
  - assert (Q : logged P (trace s) (trace s1)).
    { destruct (negb (isTaskComplete o)
                && negb (eqs (strings.TrimSpace (Stdout o)) [])).
      - now apply (Fprint_logged P) in E.
      - inversion E. apply logged_refl. }
    destruct (isTaskComplete o); intros H; inversion H; subst; auto.
  - intros H; inversion H; subst. apply logged_refl.
Qed.

(** The only history a step gives to the model is the one the agent holds
    when the step starts. *)
Lemma Step_logged ctx a s r a' s' :
  wise.Step ctx a s = (r, a', s') ->
  logged (fun h => h = wise.messages a) (trace s) (trace s').
Proof.
  unfold wise.Step.
  destruct (ctx (world s)) as [e|].
  { intros H; inversion H; subst. apply logged_refl. }
  destruct (wise.model a ctx (wise.messages a) (world s)) as [[response err] w1].
  set (s1 := {| world := w1; trace := trace s ++ [EvQuery (wise.messages a)] |}).
  assert (Q1 : logged (fun h => h = wise.messages a) (trace s) (trace s1))
    by (apply logged_one; intros h E; now inversion E).
  destruct err as [e|].
  { intros H; inversion H; subst. exact Q1. }
  destruct (wise.parser (wise.cfg a)) as [p|].
  2:{ intros H; inversion H; subst. exact Q1. }
  destruct (p response) as [action [e|]].
  { intros H; inversion H; subst. exact Q1. }
  change (wise.cfg (wise.addMessage a RoleAssistant response))
    with (wise.cfg a).
  destruct (Fprint _ _ s1) as [s2|] eqn:Hw.
  2:{ intros H; inversion H; subst. exact Q1. }
  apply (Fprint_logged (fun h => h = wise.messages a)) in Hw.
  destruct (wise.run_action _ ctx action s2) as [[o [e|]] s3] eqn:Hr;
    apply (run_action_logged (fun h => h = wise.messages a)) in Hr.
  { intros H; inversion H; subst.
    eapply logged_trans; [|exact Hr]. eapply logged_trans; eassumption. }
  intros H. apply (handleOutput_logged (fun h => h = wise.messages a)) in H.
  eapply logged_trans; [|exact H].
  eapply logged_trans; [|exact Hr]. eapply logged_trans; eassumption.
Qed.

Lemma Run_body_logged ctx a s last r a' s' :
  wise.Run_body ctx a s last = (r, a', s') ->
  logged (fun h => h = wise.messages a) (trace s) (trace s').
Proof.
  unfold wise.Run_body.
  destruct (wise.Step ctx a s) as [[o a1] s1] eqn:HS.
  apply Step_logged in HS.
  destruct o as [response [err|]|].
  - destruct (As_TerminatingErr err);
      [|destruct (As_ProcessErr err); [|destruct (As_ExecutionError err)]];
      intros H; inversion H; subst; exact HS.
  - intros H; inversion H; subst; exact HS.
  - intros H; inversion H; subst; exact HS.
Qed.

(** The loop keeps the history it starts with at the front of every
    history it gives to the model and of the history it ends with, and
    asks the model at most once per iteration. *)
Lemma Run_loop_effect ctx n : forall a s last r a' s',
  wise.Run_loop ctx n a s last = (r, a', s') ->
  wise.cfg a' = wise.cfg a
  /\ extends (wise.messages a') (wise.messages a)
  /\ logged (fun h => extends h (wise.messages a)) (trace s) (trace s')
  /\ (queries (trace s') <= queries (trace s) + n)%nat.
Proof.
  induction n as [|n IH]; intros a s last r a' s'; simpl.
  - intros H; inversion H; subst.
    split; [reflexivity|]. split; [apply extends_refl|].
    split; [apply logged_refl | lia].
  - destruct (wise.Run_body ctx a s last) as [[it a1] s1] eqn:HB.
    pose proof (Run_body_logged _ _ _ _ _ _ _ HB) as HL.
    apply Run_body_effect in HB.
    destruct HB as (_ & _ & Hc & _ & Hx & Hq).
    assert (HL' : logged (fun h => extends h (wise.messages a))
                    (trace s) (trace s1))
      by (eapply logged_weaken; [|exact HL];
          intros h ->; apply extends_refl).
    assert (Hq' : (queries (trace s1) <= queries (trace s) + 1)%nat)
      by (rewrite Hq; destruct (ctx (world s)); lia).
    destruct it as [r0 | response].
    + intros H; inversion H; subst.
      split; [assumption|]. split; [assumption|].
      split; [assumption | lia].
    + intros H. apply IH in H. simpl in H.
      destruct H as (Hc2 & Hx2 & HL2 & Hq2).
      split; [|split; [|split]].
      * congruence.
      * exact (extends_trans _ _ _ Hx2 Hx).
      * eapply logged_trans; [exact HL'|].
        eapply logged_weaken; [|exact HL2].
        intros h Hh. exact (extends_trans _ _ _ Hh Hx).
      * lia.
Qed.

End wise_traces.

(** C6.  Each operation of the loop (addMessage, handleOutput, Step, the
    body of the loop of Run) leaves the messages that are there as they are
    and at most adds messages after them; Run starts its history with the
    system prompt in the system role and the task in the user role, and
    every history it gives to the model, and the history it ends with,
    begins with these two messages. *)
Theorem history_append_only
  (W : Type) (ctx : context W) (a : @wise.baseAgent W) (task : gostring)
  (s : Sys W) :
  let first_two :=
    [ {| Role := RoleSystem; Content := wise.systemPrompt (wise.cfg a) |};
      {| Role := RoleUser; Content := task |} ] in
  (forall (b : @wise.baseAgent W) role content,
      wise.messages (wise.addMessage b role content)
      = wise.messages b ++ [{| Role := role; Content := content |}])
  /\ (forall (b : @wise.baseAgent W) o (s0 : Sys W) r b' s',
         wise.handleOutput b o s0 = (r, b', s') ->
         extends (wise.messages b') (wise.messages b))
  /\ (forall b s0 r b' s',
         wise.Step ctx b s0 = (r, b', s') ->
         extends (wise.messages b') (wise.messages b))
  /\ (forall b s0 last r b' s',
         wise.Run_body ctx b s0 last = (r, b', s') ->
         extends (wise.messages b') (wise.messages b))
  /\ (forall r a' s',
         wise.Run ctx a task s = (r, a', s') ->
         extends (wise.messages a') first_two
         /\ logged (fun h => extends h first_two) (trace s) (trace s')).
Proof.
  intros first_two. split; [reflexivity|]. split; [|split; [|split]].
  - intros b o s0 r b' s' H. apply handleOutput_effect in H.
    destruct H as [_ [-> | [_ ->]]];
      [apply extends_refl | apply extends_app].
  - intros b s0 r b' s' H. now apply Step_effect in H.
  - intros b s0 last r b' s' H. now apply Run_body_effect in H.
  - intros r a' s' H. unfold wise.Run in H.
    apply Run_loop_effect in H. destruct H as (_ & Hx & HL & _).
    split; [exact Hx | exact HL].
Qed.

Lemma history_append_only_witness :
  exists r a' s',
    wise.Run examples.live examples.echo_agent (str "say it") examples.start
    = (r, a', s')
    /\ extends (wise.messages a')
         [ {| Role := RoleSystem; Content := wise.DefaultSystemPrompt |};
           {| Role := RoleUser; Content := str "say it" |} ]
    /\ logged (fun h => extends h
                 [ {| Role := RoleSystem; Content := wise.DefaultSystemPrompt |};
                   {| Role := RoleUser; Content := str "say it" |} ])
         [] (trace s').
Proof.
  destruct (wise.Run examples.live examples.echo_agent (str "say it")
              examples.start) as [[r a'] s'] eqn:E.
  exists r, a', s'. split; [reflexivity|].
  exact (proj2 (proj2 (proj2 (proj2
           (history_append_only unit examples.live examples.echo_agent
              (str "say it") examples.start)))) r a' s' E).
Defined.

(** C7.  When the parser fails on the response of the model with a process
    error (such as its format error), the step returns that error and
    leaves the agent, its history included, as it was; the body of the loop
    then adds one message, in the user role, with the message of the error,
    and the loop goes on to its next iteration.  Every error of the bash
    parser is a process error of kind format. *)
Theorem parse_failure_feedback
  (W : Type) (ctx : context W) (a : @wise.baseAgent W) (s : Sys W)
  (k : nat) (lastResponse response : gostring) (w1 : W) (p : Parser)
  (action : Action) (pe : ProcessErr) :
  ctx (world s) = None ->
  wise.model a ctx (wise.messages a) (world s) = ((response, None), w1) ->
  wise.parser (wise.cfg a) = Some p ->
  p response = (action, Some (ProcessE pe)) ->
  let s1 := {| world := w1; trace := trace s ++ [EvQuery (wise.messages a)] |} in
  let a' := wise.addMessage a RoleUser (ErrMessage pe) in
  wise.Step ctx a s = (Returned [] (Some (ProcessE pe)), a, s1)
  /\ wise.Run_body ctx a s lastResponse = (Continue lastResponse, a', s1)
  /\ wise.messages a'
     = wise.messages a ++ [{| Role := RoleUser; Content := ErrMessage pe |}]
  /\ wise.Run_loop ctx (S k) a s lastResponse
     = wise.Run_loop ctx k (wise.set_step a' (wise.step a + 1)) s1 lastResponse
  /\ (forall r act e,
         parser.ParseAction r = (act, Some e) ->
         exists msg,
           e = ProcessE {| ErrType := ProcessErrFormat; ErrMessage := msg |}).
Proof.
  intros Hctx Hq Hp Hparse s1 a'.
  assert (HS : wise.Step ctx a s = (Returned [] (Some (ProcessE pe)), a, s1))
    by (unfold wise.Step; now rewrite Hctx, Hq, Hp, Hparse).
  assert (HB : wise.Run_body ctx a s lastResponse
               = (Continue lastResponse, a', s1))
    by (unfold wise.Run_body; now rewrite HS).
  split; [exact HS|]. split; [exact HB|]. split; [reflexivity|]. split.
  - simpl. now rewrite HB.
  - intros r act e. unfold parser.ParseAction.
    destruct (regexp.FindAllStringSubmatch r) as [|m more].
    + intros H; inversion H; eauto.
    + destruct (1 <? _); [intros H; inversion H; eauto|].
      destruct (eqs _ _); intros H; inversion H; eauto.
Qed.

Lemma parse_failure_feedback_witness :
  let a := fst (wise.New (examples.model_always (str "I am done."))
                  (examples.env_always []) wise.NewConfig) in
  let s1 := {| world := tt; trace := [EvQuery []] |} in
  let msg := str "No bash command found. If the task is complete, respond with TASK_COMPLETE. Otherwise, provide exactly one command in ```bash``` block." in
  wise.Step examples.live a examples.start
  = (Returned []
       (Some (ProcessE {| ErrType := ProcessErrFormat; ErrMessage := msg |})),
     a, s1)
  /\ wise.Run_body examples.live a examples.start []
     = (Continue [], wise.addMessage a RoleUser msg, s1).
Proof.
  intros a s1 msg.
  destruct (parse_failure_feedback unit examples.live a examples.start 0 []
              (str "I am done.") tt parser.ParseAction Action_zero
              {| ErrType := ProcessErrFormat; ErrMessage := msg |}
              eq_refl eq_refl eq_refl eq_refl) as (HS & HB & _).
  split; [exact HS | exact HB].
Defined.

(** ** Steps of package agent *)

Section agent_steps.
Context {W : Type}.
Implicit Types (a : @agent.BaseAgent W) (s : Sys W) (ctx : context W).


(** A step whose command runs and does not signal completion returns the
    response of the model. *)
Lemma agent_Step_observed ctx a s response action s2 o w3 s4 :
  agent.reaches_action ctx a s response action s2 ->
  agent.executor a ctx action (world s2) = ((o, None), w3) ->
  isTaskComplete o = false ->
  (if negb (eqs (strings.TrimSpace (Stdout o)) [])
   then Fprint (agent.output a) (Stdout o ++ [nl])
          {| world := w3; trace := trace s2 ++ [EvExecute action] |}
   else Some {| world := w3; trace := trace s2 ++ [EvExecute action] |})
  = Some s4 ->
  agent.Step ctx a s
  = (Returned response None,
     agent.addMessage (agent.addMessage a RoleAssistant response)
       RoleUser (formatObservation o), s4).
Proof.
  intros (Hctx & w1 & p & Hq & Hp & Hparse & Hw) He Hc Hpr.
  unfold agent.Step. rewrite Hctx, Hq, Hp, Hparse.
  change (agent.output (agent.addMessage a RoleAssistant response))
    with (agent.output a).
  change (agent.executor (agent.addMessage a RoleAssistant response))
    with (agent.executor a).
  rewrite Hw, He, Hc. simpl negb. rewrite andb_true_l, Hpr. reflexivity.
Qed.

End agent_steps.



(** ** Construction and the step budget *)

Lemma New_fields
  (W : Type) (model : Model W) (env : Environment W) (c : @wise.Config W) :
  let a := fst (wise.New model env c) in
  wise.maxSteps (wise.cfg a)
  = (if wise.maxSteps c =? 0 then 25 else wise.maxSteps c)
  /\ wise.systemPrompt (wise.cfg a)
     = (if eqs (wise.systemPrompt c) [] then wise.DefaultSystemPrompt
        else wise.systemPrompt c)
  /\ wise.output (wise.cfg a)
     = Some (match wise.output c with Some w => w | None => io_Discard end)
  /\ wise.parser (wise.cfg a)
     = Some (match wise.parser c with Some p => p | None => wise.NewBashParser end)
  /\ wise.actionHandler (wise.cfg a) = wise.actionHandler c.
Proof.
  destruct c as [p l o n sp h].
  cbn [wise.New fst wise.cfg wise.maxSteps wise.systemPrompt wise.output
       wise.parser wise.logger wise.actionHandler].
  destruct (n =? 0);
    cbn [wise.maxSteps wise.systemPrompt wise.output wise.parser wise.logger
         wise.actionHandler];
    destruct (eqs sp []);
    cbn [wise.maxSteps wise.systemPrompt wise.output wise.parser wise.logger
         wise.actionHandler];
    destruct o, p, l; repeat split; reflexivity.
Qed.

(** C10.  New returns no error and an agent with an empty history whose
    configuration has 25 for a maximum step count of 0, the default prompt
    for an empty system prompt, the discarding writer for a nil writer and
    the bash parser for a nil parser, and keeps every other value; from the
    zero configuration it makes an agent whose Run asks the model at most 25
    times, and 25 times when no step ends the loop. *)
Theorem New_substitutes_defaults
  (W : Type) (model : Model W) (env : Environment W) (c : @wise.Config W) :
  let a := fst (wise.New model env c) in
  snd (wise.New model env c) = None
  /\ wise.maxSteps (wise.cfg a)
     = (if wise.maxSteps c =? 0 then 25 else wise.maxSteps c)
  /\ wise.systemPrompt (wise.cfg a)
     = (if eqs (wise.systemPrompt c) [] then wise.DefaultSystemPrompt
        else wise.systemPrompt c)
  /\ wise.output (wise.cfg a)
     = Some (match wise.output c with Some w => w | None => io_Discard end)
  /\ wise.parser (wise.cfg a)
     = Some (match wise.parser c with Some p => p | None => wise.NewBashParser end)
  /\ wise.actionHandler (wise.cfg a) = wise.actionHandler c
  /\ wise.messages a = [] /\ wise.model a = model /\ wise.env a = env
  /\ wise.cfg (fst (wise.New model env wise.Config_zero))
     = {| wise.parser := Some wise.NewBashParser;
          wise.logger := Some zerolog_Nop;
          wise.output := Some io_Discard;
          wise.maxSteps := 25;
          wise.systemPrompt := wise.DefaultSystemPrompt;
          wise.actionHandler := None |}
  /\ (forall ctx task s r a' s',
         wise.Run ctx (fst (wise.New model env wise.Config_zero)) task s
         = (r, a', s') ->
         (queries (trace s') <= queries (trace s) + 25)%nat)
  /\ queries (trace (snd (wise.Run examples.live examples.zero_agent
                            (str "list the files") examples.start)))
     = 25%nat.
Proof.
  intros a.
  split; [reflexivity|].
  destruct (New_fields W model env c) as (H1 & H2 & H3 & H4 & H5).
  split; [exact H1|]. split; [exact H2|]. split; [exact H3|].
  split; [exact H4|]. split; [exact H5|].
  split; [reflexivity|]. split; [reflexivity|]. split; [reflexivity|].
  split; [reflexivity|]. split.
  - intros ctx task s r a' s' H. unfold wise.Run in H.
    apply Run_loop_effect in H. destruct H as (_ & _ & _ & H). exact H.
  - vm_compute. reflexivity.
Qed.

Lemma New_substitutes_defaults_witness :
  (queries (trace (snd (wise.Run examples.live examples.zero_agent
                          (str "list the files") examples.start)))
   <= 25)%nat.
Proof.
  destruct (wise.Run examples.live examples.zero_agent (str "list the files")
              examples.start) as [[r a'] s'] eqn:E.
  exact (proj1 (proj2 (proj2 (proj2 (proj2 (proj2 (proj2 (proj2 (proj2
           (proj2 (proj2
             (New_substitutes_defaults unit
                (examples.model_always examples.ls_response)
                (examples.env_always examples.ls_stdout)
                wise.Config_zero)))))))))))
           examples.live (str "list the files") examples.start r a' s' E).
Defined.

(** *** The step limit *)

Section wise_step_limit.
Context {W : Type}.
Implicit Types (a b : @wise.baseAgent W) (s : Sys W) (ctx : context W).

(** A step of package wise that ends without error returns the empty
    string, not the response of the model. *)
Lemma Step_response_empty ctx a s r a' s' :
  wise.Step ctx a s = (Returned r None, a', s') -> r = [].
Proof.
  unfold wise.Step.
  destruct (ctx (world s)); [discriminate|].
  destruct (wise.model a ctx (wise.messages a) (world s)) as [[response err] w1].
  destruct err; [discriminate|].
  destruct (wise.parser (wise.cfg a)) as [p|]; [|discriminate].
  destruct (p response) as [action [e|]]; [discriminate|].
  destruct (Fprint (wise.output _) _ _) as [s2|]; [|discriminate].
  destruct (wise.run_action _ ctx action s2) as [[o [e|]] s3];
    [discriminate|].
  unfold wise.handleOutput.
  destruct (if negb (isTaskComplete o) && _ then _ else _); [|discriminate].
  destruct (isTaskComplete o); intros H; inversion H; reflexivity.
Qed.

Lemma Run_body_response_empty ctx a s last response a' s' :
  wise.Run_body ctx a s last = (Continue response, a', s') ->
  response = last \/ response = [].
Proof.
  unfold wise.Run_body.
  destruct (wise.Step ctx a s) as [[o a1] s1] eqn:HS.
  destruct o as [r [err|]|].
  - destruct (As_TerminatingErr err);
      [|destruct (As_ProcessErr err); [|destruct (As_ExecutionError err)]];
      intros H; inversion H; auto.
  - apply Step_response_empty in HS. intros H; inversion H; subst; auto.
  - discriminate.
Qed.

(** Whenever the loop returns an error, the step limit signal included,
    the string it returns with it is the one it started with or empty. *)
Lemma Run_loop_response_empty ctx n : forall a s last r e a' s',
  wise.Run_loop ctx n a s last = (Returned r (Some e), a', s') ->
  r = last \/ r = [].
Proof.
  induction n as [|n IH]; intros a s last r e a' s'; simpl.
  - intros H; inversion H; auto.
  - destruct (wise.Run_body ctx a s last) as [[it a1] s1] eqn:HB.
    destruct it as [r0 | response].
    + unfold wise.Run_body in HB.
      destruct (wise.Step ctx a s) as [[o a2] s2].
      destruct o as [r1 [err|]|]; try discriminate.
      * destruct (As_TerminatingErr err);
          [|destruct (As_ProcessErr err);
            [|destruct (As_ExecutionError err)]];
          inversion HB; subst; intros H; inversion H; auto.
      * inversion HB; subst. discriminate.
    + intros H. apply IH in H. apply Run_body_response_empty in HB.
      destruct H as [-> | ->], HB as [-> | ->]; auto.
Qed.

Lemma same_setup_refl a : wise.same_setup a a.
Proof. repeat split. Qed.

(** When no iteration ends the loop, it runs for all its iterations, asks
    the model once in each, and returns the step limit signal. *)
Lemma Run_loop_never_ends ctx a0 n :
  never_ends ctx a0 ->
  forall b s last,
    wise.same_setup b a0 ->
    exists r b' s',
      wise.Run_loop ctx n b s last
      = (Returned r
           (Some (TerminatingE {| Reason := ReasonStepLimit;
                                  FinalOutput := [] |})), b', s')
      /\ queries (trace s') = (queries (trace s) + n)%nat
      /\ wise.step b' = wise.step b + Z.of_nat n.
Proof.
  intros Hne. induction n as [|n IH]; intros b s last Hb.
  - exists last, b, s. simpl. repeat split; lia.
  - destruct (Hne b s last Hb) as (Hctx & response & b1 & s1 & HB).
    pose proof (Run_body_effect _ _ _ _ _ _ _ HB)
      as (Hm & He & Hc & Hs & _ & Hq).
    rewrite Hctx in Hq.
    destruct (IH (wise.set_step b1 (wise.step b1 + 1)) s1 response)
      as (r & b' & s' & HR & HQ & HS).
    { destruct Hb as (B1 & B2 & B3). repeat split; simpl; congruence. }
    exists r, b', s'. simpl. rewrite HB. split; [exact HR|].
    simpl in HS. split; lia.
Qed.

End wise_step_limit.

Lemma ls_agent_never_ends : never_ends examples.live examples.ls_agent.
Proof.
  intros [m e c ms st] s last (Hm & He & Hc). simpl in Hm, He, Hc. subst.
  split; [reflexivity|]. do 3 eexists. reflexivity.
Qed.

(** C4, what the code does.  Run of package wise never returns the response
    of a step: whenever it returns with an error value, the step limit
    signal included, the string next to it is empty.  With a budget of three
    steps and a model that always asks for a command that runs and does not
    signal completion, the model is asked three times and Run returns the
    step limit signal with the empty string, where Run of package agent
    returns it with the last response. *)
Theorem Run_step_limit_drops_response :
  (forall (W : Type) (ctx : context W) (a : @wise.baseAgent W) task s r e a' s',
      wise.Run ctx a task s = (Returned r (Some e), a', s') -> r = [])
  /\ fst (fst (wise.Run examples.live examples.ls_agent (str "list the files")
                 examples.start))
     = Returned []
         (Some (TerminatingE {| Reason := ReasonStepLimit; FinalOutput := [] |}))
  /\ queries (trace (snd (wise.Run examples.live examples.ls_agent
                            (str "list the files") examples.start)))
     = 3%nat
  /\ fst (fst (agent.Run examples.live examples.ls_BaseAgent examples.start))
     = Returned examples.ls_response
         (Some (TerminatingE {| Reason := ReasonStepLimit; FinalOutput := [] |}))
  /\ queries (trace (snd (agent.Run examples.live examples.ls_BaseAgent
                            examples.start)))
     = 3%nat.
Proof.
  split; [|split; [|split; [|split]]].
  - intros W ctx a task s r e a' s' H. unfold wise.Run in H.
    apply Run_loop_response_empty in H. now destruct H.
  - vm_compute. reflexivity.
  - vm_compute. reflexivity.
  - vm_compute. reflexivity.
  - vm_compute. reflexivity.
Qed.

Lemma Run_never_ends (W : Type) (ctx : context W) (a : @wise.baseAgent W)
      (task : gostring) (s : Sys W) :
  never_ends ctx a ->
  exists a' s',
    wise.Run ctx a task s
    = (Returned []
         (Some (TerminatingE {| Reason := ReasonStepLimit; FinalOutput := [] |})),
       a', s')
    /\ queries (trace s')
       = (queries (trace s) + Z.to_nat (wise.maxSteps (wise.cfg a)))%nat.
Proof.
  intros Hne. unfold wise.Run.
  match goal with
  | |- context [wise.Run_loop ctx ?n ?b s []] =>
      destruct (Run_loop_never_ends ctx a n Hne b s [])
        as (r & a' & s' & HR & HQ & _); [repeat split|]
  end.
  exists a', s'. split; [|exact HQ].
  destruct (Run_loop_response_empty _ _ _ _ _ _ _ _ _ HR) as [-> | ->];
    exact HR.
Qed.

(** ** The parser *)

Lemma CutPrefix_Some (p s r : gostring) :
  strings.CutPrefix p s = Some r <-> s = p ++ r.
Proof.
  revert s. induction p as [|c p IH]; intros s; simpl.
  - split; [now intros [= ->] | now intros ->].
  - destruct s as [|d s]; [split; discriminate|].
    destruct (Ascii.eqb_spec c d) as [-> | Hne].
    + rewrite IH. split; [now intros -> | now intros [= ->]].
    + split; [discriminate | intros [= -> _]; contradiction].
Qed.

Lemma match_lazy_close_sound (s cap rest : gostring) :
  regexp.match_lazy_close s = Some (cap, rest) ->
  s = cap ++ regexp.fence_close ++ rest.
Proof.
  revert cap rest. induction s as [|c s IH]; intros cap rest.
  - simpl. discriminate.
  - cbn [regexp.match_lazy_close].
    destruct (strings.CutPrefix regexp.fence_close (c :: s)) as [r|] eqn:E.
    + intros [= <- <-]. now apply CutPrefix_Some in E.
    + destruct (regexp.match_lazy_close s) as [[cap' rest']|]; [|discriminate].
      intros [= <- <-]. simpl. f_equal. now apply IH.
Qed.

Lemma match_lazy_close_complete (x y : gostring) :
  exists cap rest,
    regexp.match_lazy_close (x ++ regexp.fence_close ++ y) = Some (cap, rest).
Proof.
  induction x as [|c x IH].
  - exists [], y. reflexivity.
  - change ((c :: x) ++ regexp.fence_close ++ y)
      with (c :: (x ++ regexp.fence_close ++ y)).
    cbn [regexp.match_lazy_close].
    destruct (strings.CutPrefix regexp.fence_close _) as [r|]; [eauto|].
    destruct IH as (cap & rest & ->). eauto.
Qed.

Lemma match_spaces_nl_sound (s cap rest : gostring) :
  regexp.match_spaces_nl s = Some (cap, rest) ->
  exists ws,
    Forall (fun c => regexp.perl_space c = true) ws
    /\ s = ws ++ nl :: cap ++ regexp.fence_close ++ rest.
Proof.
  revert cap rest. induction s as [|c s IH]; intros cap rest; simpl.
  - discriminate.
  - destruct (regexp.perl_space c) eqn:Hc; [|discriminate].
    destruct (regexp.match_spaces_nl s) as [m|].
    + intros [= ->]. destruct (IH cap rest eq_refl) as (ws & Hws & ->).
      exists (c :: ws). split; [now constructor | reflexivity].
    + destruct (Ascii.eqb_spec c nl) as [-> | _]; [|discriminate].
      intros H. apply match_lazy_close_sound in H. subst s.
      exists []. split; [constructor | reflexivity].
Qed.

Lemma match_spaces_nl_complete (ws cap post : gostring) :
  Forall (fun c => regexp.perl_space c = true) ws ->
  exists cap' rest,
    regexp.match_spaces_nl (ws ++ nl :: cap ++ regexp.fence_close ++ post)
    = Some (cap', rest).
Proof.
  induction 1 as [|c ws Hc _ IH].
  - change ([] ++ nl :: cap ++ regexp.fence_close ++ post)
      with (nl :: (cap ++ regexp.fence_close ++ post)).
    cbn [regexp.match_spaces_nl].
    change (regexp.perl_space nl) with true. cbv iota.
    destruct (regexp.match_spaces_nl _) as [[c r]|]; [eauto|].
    change (Ascii.eqb nl nl) with true. cbv iota.
    apply match_lazy_close_complete.
  - change ((c :: ws) ++ nl :: cap ++ regexp.fence_close ++ post)
      with (c :: (ws ++ nl :: cap ++ regexp.fence_close ++ post)).
    cbn [regexp.match_spaces_nl]. rewrite Hc.
    destruct IH as (cap' & rest & ->). eauto.
Qed.

Lemma match_here_sound (s cap rest : gostring) :
  regexp.match_here s = Some (cap, rest) -> fence_at s [] cap rest.
Proof.
  unfold regexp.match_here, fence_at.
  destruct (strings.CutPrefix regexp.fence_open s) as [r|] eqn:E; [|discriminate].
  apply CutPrefix_Some in E. intros H.
  apply match_spaces_nl_sound in H. destruct H as (ws & Hws & ->).
  exists ws. split; [exact E | exact Hws].
Qed.

Lemma match_here_complete (s cap post : gostring) :
  fence_at s [] cap post -> regexp.match_here s <> None.
Proof.
  intros (ws & -> & Hws). unfold regexp.match_here.
  replace (strings.CutPrefix regexp.fence_open
             ([] ++ regexp.fence_open ++ ws ++ nl :: cap
                 ++ regexp.fence_close ++ post))
    with (Some (ws ++ nl :: cap ++ regexp.fence_close ++ post))
    by (symmetry; now apply CutPrefix_Some).
  destruct (match_spaces_nl_complete ws cap post Hws) as (c & r & ->).
  discriminate.
Qed.

Lemma fence_at_cons (c : ascii) (s pre cap post : gostring) :
  fence_at s pre cap post -> fence_at (c :: s) (c :: pre) cap post.
Proof. intros (ws & -> & Hws). exists ws. split; [reflexivity | exact Hws]. Qed.

(** Every submatch that the scan returns is the contents of a fenced block
    of the text. *)
Lemma scan_sound (s : gostring) : forall (skip : nat) (cap : gostring),
  In cap (regexp.scan skip s) -> exists pre post, fence_at s pre cap post.
Proof.
  induction s as [|c r IH]; intros skip cap; [intros []|].
  cbn [regexp.scan]. destruct skip as [|k].
  - destruct (regexp.match_here (c :: r)) as [[cap0 rest]|] eqn:E.
    + intros [<- | Hin].
      * exists [], rest. now apply match_here_sound.
      * destruct (IH _ _ Hin) as (pre & post & H).
        exists (c :: pre), post. now apply fence_at_cons.
    + intros Hin. destruct (IH _ _ Hin) as (pre & post & H).
      exists (c :: pre), post. now apply fence_at_cons.
  - intros Hin. destruct (IH _ _ Hin) as (pre & post & H).
    exists (c :: pre), post. now apply fence_at_cons.
Qed.

(** A text with a fenced block has a match. *)
Lemma scan_complete (pre : gostring) : forall (s cap post : gostring),
  fence_at s pre cap post -> regexp.scan O s <> [].
Proof.
  induction pre as [|c pre IH]; intros s cap post H.
  - pose proof (match_here_complete _ _ _ H) as Hm.
    destruct H as (ws & -> & _).
    change ([] ++ regexp.fence_open ++ ws ++ nl :: cap
               ++ regexp.fence_close ++ post)
      with ("`"%char :: (str "``bash" ++ ws ++ nl :: cap
                           ++ regexp.fence_close ++ post)) in *.
    cbn [regexp.scan].
    destruct (regexp.match_here _) as [[c r]|]; [discriminate | contradiction].
  - assert (H' : exists s', s = c :: s' /\ fence_at s' pre cap post).
    { destruct H as (ws & -> & Hws). eexists. split; [reflexivity|].
      exists ws. split; [reflexivity | exact Hws]. }
    destruct H' as (s' & -> & H').
    cbn [regexp.scan].
    destruct (regexp.match_here (c :: s')) as [[c0 r]|]; [discriminate|].
    now apply (IH s' cap post).
Qed.

Lemma no_fence_iff (response : gostring) :
  regexp.FindAllStringSubmatch response = []
  <-> ~ exists pre cap post, fence_at response pre cap post.
Proof.
  unfold regexp.FindAllStringSubmatch. split.
  - intros H (pre & cap & post & Hf). now apply (scan_complete _ _ _ _ Hf).
  - intros H. destruct (regexp.scan O response) as [|cap l] eqn:E;
      [reflexivity|].
    exfalso. apply H.
    destruct (scan_sound response O cap) as (pre & post & Hf);
      [rewrite E; now left|].
    now exists pre, cap, post.
Qed.

(** Examples of the three errors. *)
Example ParseAction_none :
  snd (parser.ParseAction (str "I think we are done."))
  = Some (ProcessE {| ErrType := ProcessErrFormat;
                      ErrMessage := str "No bash command found. If the task is complete, respond with TASK_COMPLETE. Otherwise, provide exactly one command in ```bash``` block." |}).
Proof. reflexivity. Qed.

Example ParseAction_two :
  snd (parser.ParseAction
         (examples.fenced (str "ls") ++ nl :: examples.fenced (str "pwd")))
  = Some (ProcessE {| ErrType := ProcessErrFormat;
                      ErrMessage := str "Found 2 commands, expected exactly one. Please provide a single command in ```bash``` block." |}).
Proof. reflexivity. Qed.

Example ParseAction_empty :
  snd (parser.ParseAction (examples.fenced (str "  ")))
  = Some (ProcessE {| ErrType := ProcessErrFormat;
                      ErrMessage := str "Empty command in bash block. Please provide a valid command." |}).
Proof. reflexivity. Qed.

(** * Further properties *)

(** ** Agents made by New *)

Section wise_no_panic.
Context {W : Type}.
Implicit Types (a b : @wise.baseAgent W) (s : Sys W) (ctx : context W).

Lemma Fprint_Some (w : Writer) (text : gostring) s :
  exists s', Fprint (Some w) text s = Some s'.
Proof. destruct w; simpl; eauto. Qed.

Lemma handleOutput_no_panic a (o : Output) s :
  wise.output (wise.cfg a) <> None ->
  fst (fst (wise.handleOutput a o s)) <> Panicked.
Proof.
  intros Ho. unfold wise.handleOutput.
  destruct (wise.output (wise.cfg a)) as [w|]; [|contradiction].
  destruct (negb (isTaskComplete o)
            && negb (eqs (strings.TrimSpace (Stdout o)) [])).
  - destruct (Fprint_Some w (Stdout o ++ [nl]) s) as [s' ->].
    destruct (isTaskComplete o); discriminate.
  - destruct (isTaskComplete o); discriminate.
Qed.

Lemma Step_no_panic ctx a s :
  wise.parser (wise.cfg a) <> None ->
  wise.output (wise.cfg a) <> None ->
  fst (fst (wise.Step ctx a s)) <> Panicked.
Proof.
  intros Hp Ho. unfold wise.Step.
  destruct (ctx (world s)); [discriminate|].
  destruct (wise.model a ctx (wise.messages a) (world s)) as [[response err] w1].
  destruct err; [discriminate|].
  destruct (wise.parser (wise.cfg a)) as [p|]; [|contradiction].
  destruct (p response) as [action [e|]]; [discriminate|].
  change (wise.cfg (wise.addMessage a RoleAssistant response))
    with (wise.cfg a).
  destruct (wise.output (wise.cfg a)) as [w|] eqn:Hw; [|contradiction].
  destruct (Fprint_Some w (str "$ " ++ Command action ++ [nl])
              {| world := w1; trace := trace s ++ [EvQuery (wise.messages a)] |})
    as [s2 ->].
  destruct (wise.run_action _ ctx action s2) as [[o [e|]] s3];
    [discriminate|].
  apply handleOutput_no_panic.
  change (wise.cfg (wise.addMessage a RoleAssistant response))
    with (wise.cfg a).
  rewrite Hw. discriminate.
Qed.

Lemma Run_loop_no_panic ctx n : forall a s last,
  wise.parser (wise.cfg a) <> None ->
  wise.output (wise.cfg a) <> None ->
  fst (fst (wise.Run_loop ctx n a s last)) <> Panicked.
Proof.
  induction n as [|n IH]; intros a s last Hp Ho; simpl; [discriminate|].
  destruct (wise.Run_body ctx a s last) as [[it a1] s1] eqn:HB.
  pose proof (Run_body_effect _ _ _ _ _ _ _ HB) as (_ & _ & Hc & _).
  destruct it as [r|response].
  - unfold wise.Run_body in HB.
    pose proof (Step_no_panic ctx a s Hp Ho) as HS.
    destruct (wise.Step ctx a s) as [[o a2] s2].
    destruct o as [r1 [err|]|]; [| |now elim HS].
    + destruct (As_TerminatingErr err);
        [|destruct (As_ProcessErr err);
          [|destruct (As_ExecutionError err)]];
        inversion HB; subst; discriminate.
    + discriminate.
  - apply IH; simpl; now rewrite Hc.
Qed.

End wise_no_panic.

(** X1.  An agent made by New has a parser and a writer, whatever the
    configuration given to New: neither Run nor Step, on any agent with that
    configuration, panics for want of one of them, whatever the model and
    the environment answer, the task and the state of the world. *)
Theorem New_agent_never_panics
  (W : Type) (model : Model W) (env : Environment W) (c : @wise.Config W)
  (ctx : context W) (task : gostring) (s : Sys W) :
  fst (fst (wise.Run ctx (fst (wise.New model env c)) task s)) <> Panicked
  /\ forall b : @wise.baseAgent W,
       wise.cfg b = wise.cfg (fst (wise.New model env c)) ->
       fst (fst (wise.Step ctx b s)) <> Panicked.
Proof.
  destruct (New_fields W model env c) as (_ & _ & Ho & Hp & _).
  split.
  - unfold wise.Run. apply Run_loop_no_panic.
    + change (wise.parser (wise.cfg (fst (wise.New model env c))) <> None).
      rewrite Hp. discriminate.
    + change (wise.output (wise.cfg (fst (wise.New model env c))) <> None).
      rewrite Ho. discriminate.
  - intros b Hb. apply Step_no_panic; rewrite Hb.
    + rewrite Hp. discriminate.
    + rewrite Ho. discriminate.
Qed.

Lemma New_agent_never_panics_witness :
  fst (fst (wise.Step examples.live examples.zero_agent examples.start))
  <> Panicked.
Proof.
  exact (proj2 (New_agent_never_panics unit
                  (examples.model_always examples.ls_response)
                  (examples.env_always examples.ls_stdout) wise.Config_zero
                  examples.live [] examples.start)
           examples.zero_agent eq_refl).
Defined.

(** ** Cancellation and failures of the model *)

(** X2.  When the context is already cancelled at the start of a step (with
    an error of its own, none of the kinds the loop looks for), the step
    does not ask the model and returns that error wrapped, the agent and the
    system stay as they were, and the loop of Run returns the wrapped error
    at once; Run with a positive step budget then returns it with the
    two-message history and no query made. *)
Theorem cancelled_context_aborts
  (W : Type) (ctx : context W) (a : @wise.baseAgent W) (s : Sys W)
  (e : error) (task : gostring) :
  ctx (world s) = Some e ->
  fatal e ->
  wise.Step ctx a s = (Returned [] (Some (WrapE (str "context cancelled") e)), a, s)
  /\ (forall k last,
         wise.Run_loop ctx (S k) a s last
         = (Returned [] (Some (WrapE (str "context cancelled") e)), a, s))
  /\ (0 < wise.maxSteps (wise.cfg a) ->
      exists a',
        wise.Run ctx a task s
        = (Returned [] (Some (WrapE (str "context cancelled") e)), a', s)
        /\ wise.messages a'
           = [ {| Role := RoleSystem;
                  Content := wise.systemPrompt (wise.cfg a) |};
               {| Role := RoleUser; Content := task |} ]).
Proof.
  intros Hctx (H1 & H2 & H3).
  assert (HS : forall b : @wise.baseAgent W,
             wise.Step ctx b s
             = (Returned [] (Some (WrapE (str "context cancelled") e)), b, s))
    by (intros b; unfold wise.Step; now rewrite Hctx).
  assert (HL : forall (b : @wise.baseAgent W) k last,
             wise.Run_loop ctx (S k) b s last
             = (Returned [] (Some (WrapE (str "context cancelled") e)), b, s)).
  { intros b k last. simpl. unfold wise.Run_body. rewrite HS. simpl.
    now rewrite H1, H2, H3. }
  split; [apply HS|]. split; [apply HL|].
  intros Hpos. unfold wise.Run.
  destruct (Z.to_nat (wise.maxSteps
              (wise.cfg
                 (wise.addMessage
                    (wise.addMessage (wise.set_messages a []) RoleSystem
                       (wise.systemPrompt (wise.cfg (wise.set_messages a []))))
                    RoleUser task)))) as [|k] eqn:E.
  - simpl in E. lia.
  - eexists. split; [apply HL | reflexivity].
Qed.

Lemma cancelled_context_aborts_witness :
  exists a',
    wise.Run examples2.cancelled examples.ls_agent (str "list the files")
      examples.start
    = (Returned []
         (Some (WrapE (str "context cancelled")
                  (PlainE (str "context canceled")))),
       a', examples.start)
    /\ wise.messages a'
       = [ {| Role := RoleSystem; Content := wise.DefaultSystemPrompt |};
           {| Role := RoleUser; Content := str "list the files" |} ].
Proof.
  destruct (cancelled_context_aborts unit examples2.cancelled examples.ls_agent
              examples.start (PlainE (str "context canceled"))
              (str "list the files") eq_refl)
    as (_ & _ & H).
  - repeat split.
  - apply H. reflexivity.
Defined.

(** X3.  A failure of the model is wrapped by the step and then classified
    by the loop through the wrapping: with a cause of none of the three
    kinds, Run returns the wrapped error; with a terminating error as its
    cause, Run returns the output of that error and no error; with a process
    error as its cause, the loop adds the message of that error to the
    history in the user role and goes on.  In each case the model was asked
    once and the history got no assistant message. *)
Theorem query_failure_classified
  (W : Type) (ctx : context W) (a : @wise.baseAgent W) (s : Sys W)
  (last response : gostring) (e : error) (w1 : W) :
  ctx (world s) = None ->
  wise.model a ctx (wise.messages a) (world s) = ((response, Some e), w1) ->
  let s1 := {| world := w1; trace := trace s ++ [EvQuery (wise.messages a)] |} in
  wise.Step ctx a s = (Returned [] (Some (WrapE (str "query failed") e)), a, s1)
  /\ (fatal e ->
      wise.Run_body ctx a s last
      = (Break (Returned [] (Some (WrapE (str "query failed") e))), a, s1))
  /\ (forall t, As_TerminatingErr e = Some t ->
      wise.Run_body ctx a s last
      = (Break (Returned (FinalOutput t) None), a, s1))
  /\ (forall p, As_TerminatingErr e = None -> As_ProcessErr e = Some p ->
      wise.Run_body ctx a s last
      = (Continue last, wise.addMessage a RoleUser (ErrMessage p), s1)).
Proof.
  intros Hctx Hq s1.
  assert (HS : wise.Step ctx a s
               = (Returned [] (Some (WrapE (str "query failed") e)), a, s1))
    by (unfold wise.Step; now rewrite Hctx, Hq).
  split; [exact HS|]. unfold wise.Run_body. rewrite HS. simpl.
  split; [|split].
  - intros (H1 & H2 & H3). now rewrite H1, H2, H3.
  - intros t Ht. now rewrite Ht.
  - intros p H1 H2. now rewrite H1, H2.
Qed.

Lemma query_failure_classified_witness :
  fst (fst (wise.Run examples.live
              (fst (wise.New
                      (examples2.model_failing
                         (TerminatingE {| Reason := ReasonUserAbort;
                                          FinalOutput := str "bye" |}))
                      (examples.env_always []) wise.NewConfig))
              (str "anything") examples.start))
  = Returned (str "bye") None.
Proof.
  pose proof (query_failure_classified unit examples.live
    (wise.addMessage
       (wise.addMessage
          (wise.set_messages
             (fst (wise.New
                     (examples2.model_failing
                        (TerminatingE {| Reason := ReasonUserAbort;
                                         FinalOutput := str "bye" |}))
                     (examples.env_always []) wise.NewConfig)) [])
          RoleSystem wise.DefaultSystemPrompt) RoleUser (str "anything"))
    examples.start [] []
    (TerminatingE {| Reason := ReasonUserAbort; FinalOutput := str "bye" |})
    tt eq_refl eq_refl) as (_ & _ & H & _).
  specialize (H _ eq_refl).
  unfold wise.Run.
  change (Z.to_nat _) with 25%nat.
  cbn [wise.Run_loop].
  change (wise.set_step _ 0) with
    (wise.addMessage
       (wise.addMessage
          (wise.set_messages
             (fst (wise.New
                     (examples2.model_failing
                        (TerminatingE {| Reason := ReasonUserAbort;
                                         FinalOutput := str "bye" |}))
                     (examples.env_always []) wise.NewConfig)) [])
          RoleSystem wise.DefaultSystemPrompt) RoleUser (str "anything")).
  rewrite H. reflexivity.
Defined.

(** ** The custom handler *)

(** X4.  With a custom handler configured, a step that reaches the
    execution of an action calls the handler first.  When the handler
    reports the action as handled, the environment is not called: the step
    goes on with the output and the error of the handler.  When it reports
    it as not handled, its output and its error are dropped and the
    environment executes the action in the world the handler left. *)
Theorem handler_takes_precedence
  (W : Type) (ctx : context W) (a : @wise.baseAgent W) (s : Sys W)
  (response : gostring) (action : Action) (s2 : Sys W)
  (h : ActionHandler W) (o : Output) (handled : bool) (err : option error)
  (w : W) :
  wise.reaches_action ctx a s response action s2 ->
  wise.actionHandler (wise.cfg a) = Some h ->
  h ctx action (world s2) = ((o, handled, err), w) ->
  let a1 := wise.addMessage a RoleAssistant response in
  let s3 := {| world := w; trace := trace s2 ++ [EvHandler action] |} in
  (handled = true ->
   wise.Step ctx a s
   = match err with
     | Some e => (Returned [] (Some e), a1, s3)
     | None => wise.handleOutput a1 o s3
     end)
  /\ (handled = false ->
      wise.Step ctx a s
      = match wise.env a ctx action w with
        | ((o', Some e), w') =>
            (Returned [] (Some e), a1,
             {| world := w'; trace := trace s3 ++ [EvExecute action] |})
        | ((o', None), w') =>
            wise.handleOutput a1 o'
              {| world := w'; trace := trace s3 ++ [EvExecute action] |}
        end).
Proof.
  intros Hreach Hh Hcall a1 s3.
  rewrite (Step_at_action _ _ _ _ _ _ Hreach).
  unfold wise.run_action.
  change (wise.cfg (wise.addMessage a RoleAssistant response))
    with (wise.cfg a).
  change (wise.env (wise.addMessage a RoleAssistant response))
    with (wise.env a).
  rewrite Hh, Hcall. split; intros ->.
  - destruct err; reflexivity.
  - simpl. destruct (wise.env a ctx action w) as [[o' [e|]] w']; reflexivity.
Qed.

Lemma handler_takes_precedence_witness :
  let a := examples2.handled_agent in
  let a1 := wise.addMessage a RoleAssistant examples.ls_response in
  wise.Step examples.live a examples.start
  = wise.handleOutput a1
      {| Stdout := str "handled"; Stderr := []; ExitCode := 0;
         TimedOut := false |}
      {| world := tt;
         trace := [ EvQuery [];
                    EvHandler {| Type_ := ActionTypeBash;
                                 Command := str "ls" |} ] |}.
Proof.
  intros a a1.
  refine (proj1 (handler_takes_precedence unit examples.live a examples.start
            examples.ls_response
            {| Type_ := ActionTypeBash; Command := str "ls" |}
            {| world := tt; trace := [EvQuery []] |}
            (examples2.handler_always (str "handled"))
            {| Stdout := str "handled"; Stderr := []; ExitCode := 0;
               TimedOut := false |} true None tt _ eq_refl eq_refl) eq_refl).
  split; [reflexivity|]. exists tt, parser.ParseAction.
  repeat split; reflexivity.
Defined.

(** ** The size and the roles of the history *)

Section wise_added.
Context {W : Type}.
Implicit Types (a b : @wise.baseAgent W) (s : Sys W) (ctx : context W).

Lemma known_assistant (c : gostring) :
  known_role {| Role := RoleAssistant; Content := c |}.
Proof. right; right; reflexivity. Qed.

Lemma known_user (c : gostring) :
  known_role {| Role := RoleUser; Content := c |}.
Proof. right; left; reflexivity. Qed.

Lemma known_system (c : gostring) :
  known_role {| Role := RoleSystem; Content := c |}.
Proof. left; reflexivity. Qed.

(** The messages a step adds: two when it ends without error, at most one
    otherwise. *)
Lemma Step_added ctx a s r a' s' :
  wise.Step ctx a s = (r, a', s') ->
  exists more,
    wise.messages a' = wise.messages a ++ more
    /\ Forall known_role more
    /\ match r with
       | Returned _ None => List.length more = 2%nat
       | _ => (List.length more <= 1)%nat
       end.
Proof.
  unfold wise.Step.
  destruct (ctx (world s)) as [e|].
  { intros H; inversion H; subst. exists []. rewrite app_nil_r.
    repeat split; auto. }
  destruct (wise.model a ctx (wise.messages a) (world s)) as [[response err] w1].
  destruct err as [e|].
  { intros H; inversion H; subst. exists []. rewrite app_nil_r.
    repeat split; auto. }
  destruct (wise.parser (wise.cfg a)) as [p|].
  2:{ intros H; inversion H; subst. exists []. rewrite app_nil_r.
      repeat split; auto. }
  destruct (p response) as [action [e|]].
  { intros H; inversion H; subst. exists []. rewrite app_nil_r.
    repeat split; auto. }
  destruct (Fprint (wise.output _) _ _) as [s2|].
  2:{ intros H; inversion H; subst.
      exists [{| Role := RoleAssistant; Content := response |}].
      repeat split; auto using known_assistant. }
  destruct (wise.run_action _ ctx action s2) as [[o [e|]] s3].
  { intros H; inversion H; subst.
    exists [{| Role := RoleAssistant; Content := response |}].
    repeat split; auto using known_assistant. }
  unfold wise.handleOutput.
  destruct (if negb (isTaskComplete o) && _ then _ else _) as [s4|].
  2:{ intros H; inversion H; subst.
      exists [{| Role := RoleAssistant; Content := response |}].
      repeat split; auto using known_assistant. }
  destruct (isTaskComplete o); intros H; inversion H; subst.
  - exists [{| Role := RoleAssistant; Content := response |}].
    repeat split; auto using known_assistant.
  - exists [{| Role := RoleAssistant; Content := response |};
            {| Role := RoleUser; Content := formatObservation o |}].
    simpl. rewrite <- app_assoc.
    repeat split; auto using known_assistant, known_user.
Qed.

Lemma Run_body_added ctx a s last it a' s' :
  wise.Run_body ctx a s last = (it, a', s') ->
  exists more,
    wise.messages a' = wise.messages a ++ more
    /\ Forall known_role more /\ (List.length more <= 2)%nat.
Proof.
  unfold wise.Run_body.
  destruct (wise.Step ctx a s) as [[o a1] s1] eqn:HS.
  apply Step_added in HS. destruct HS as (more & Hm & Hk & Hl).
  destruct o as [response [err|]|].
  - destruct (As_TerminatingErr err);
      [|destruct (As_ProcessErr err) as [pe|];
        [|destruct (As_ExecutionError err) as [ee|]]];
      intros H; inversion H; subst.
    + exists more. repeat split; auto.
    + exists (more ++ [{| Role := RoleUser; Content := ErrMessage pe |}]).
      simpl. rewrite Hm, <- app_assoc. split; [reflexivity|].
      split; [apply Forall_app; auto using known_user|].
      rewrite length_app. simpl. lia.
    + exists (more ++ [{| Role := RoleUser; Content := ExecMessage ee |}]).
      simpl. rewrite Hm, <- app_assoc. split; [reflexivity|].
      split; [apply Forall_app; auto using known_user|].
      rewrite length_app. simpl. lia.
    + exists more. repeat split; auto.
  - intros H; inversion H; subst. exists more. repeat split; auto. lia.
  - intros H; inversion H; subst. exists more. repeat split; auto.
Qed.

Lemma Run_loop_added ctx n : forall a s last r a' s',
  wise.Run_loop ctx n a s last = (r, a', s') ->
  Forall known_role (wise.messages a) ->
  Forall known_role (wise.messages a')
  /\ (List.length (wise.messages a')
      <= List.length (wise.messages a) + 2 * n)%nat
  /\ logged (Forall known_role) (trace s) (trace s').
Proof.
  induction n as [|n IH]; intros a s last r a' s'; simpl.
  - intros H Hk; inversion H; subst.
    split; [exact Hk|]. split; [lia | apply logged_refl].
  - destruct (wise.Run_body ctx a s last) as [[it a1] s1] eqn:HB.
    intros H Hk.
    pose proof (Run_body_logged _ _ _ _ _ _ _ HB) as HL.
    assert (HL' : logged (Forall known_role) (trace s) (trace s1))
      by (eapply logged_weaken; [|exact HL]; now intros h ->).
    apply Run_body_added in HB. destruct HB as (more & Hm & Hkm & Hlen).
    assert (Hk1 : Forall known_role (wise.messages a1))
      by (rewrite Hm; apply Forall_app; auto).
    assert (Hl1 : (List.length (wise.messages a1)
                   <= List.length (wise.messages a) + 2)%nat)
      by (rewrite Hm, length_app; lia).
    destruct it as [r0|response].
    + inversion H; subst. split; [exact Hk1|]. split; [lia | exact HL'].
    + apply IH in H; [|exact Hk1]. simpl in H.
      destruct H as (H1 & H2 & H3).
      split; [exact H1|]. split; [lia|].
      eapply logged_trans; eassumption.
Qed.

End wise_added.

(** X5.  Each iteration of the loop adds at most two messages to the
    history, so the history Run ends with has at most 2 + 2 * maxSteps
    messages (two when maxSteps is not positive); every message of it, and
    of every history Run gives to the model, has the role system, user or
    assistant. *)
Theorem history_size_and_roles
  (W : Type) (ctx : context W) (a : @wise.baseAgent W) (task : gostring)
  (s : Sys W) (r : outcome) (a' : @wise.baseAgent W) (s' : Sys W) :
  wise.Run ctx a task s = (r, a', s') ->
  (List.length (wise.messages a')
   <= 2 + 2 * Z.to_nat (wise.maxSteps (wise.cfg a)))%nat
  /\ Forall known_role (wise.messages a')
  /\ logged (Forall known_role) (trace s) (trace s').
Proof.
  unfold wise.Run. intros H. apply Run_loop_added in H.
  - destruct H as (H1 & H2 & H3). simpl in H2.
    split; [exact H2|]. split; assumption.
  - simpl. constructor; [apply known_system|].
    constructor; [apply known_user | constructor].
Qed.

Lemma history_size_and_roles_witness :
  (List.length
     (wise.messages
        (snd (fst (wise.Run examples.live examples.ls_agent
                     (str "list the files") examples.start))))
   <= 8)%nat.
Proof.
  destruct (wise.Run examples.live examples.ls_agent (str "list the files")
              examples.start) as [[r a'] s'] eqn:E.
  exact (proj1 (history_size_and_roles unit examples.live examples.ls_agent
                  (str "list the files") examples.start r a' s' E)).
Defined.

(** ** The step budget *)

(** X6.  When no iteration ends the loop, Run asks the model once in each
    of its maxSteps iterations (none when maxSteps is not positive) and
    returns the step limit signal with the empty string; the step counter
    of the agent then equals the number of iterations. *)
Theorem Run_uses_whole_budget
  (W : Type) (ctx : context W) (a : @wise.baseAgent W) (task : gostring)
  (s : Sys W) :
  never_ends ctx a ->
  exists a' s',
    wise.Run ctx a task s = (Returned [] (Some step_limit_signal), a', s')
    /\ queries (trace s')
       = (queries (trace s) + Z.to_nat (wise.maxSteps (wise.cfg a)))%nat
    /\ wise.step a' = Z.max 0 (wise.maxSteps (wise.cfg a)).
Proof.
  intros Hne. unfold wise.Run.
  match goal with
  | |- context [wise.Run_loop ctx ?n ?b s []] =>
      destruct (Run_loop_never_ends ctx a n Hne b s [])
        as (r & a' & s' & HR & HQ & HS); [repeat split|]
  end.
  exists a', s'. split; [|split; [exact HQ|]].
  - destruct (Run_loop_response_empty _ _ _ _ _ _ _ _ _ HR) as [-> | ->];
      exact HR.
  - simpl in HS. rewrite HS. lia.
Qed.

Lemma Run_uses_whole_budget_witness :
  exists a' s',
    wise.Run examples.live examples.ls_agent (str "list the files")
      examples.start
    = (Returned [] (Some step_limit_signal), a', s')
    /\ queries (trace s') = 3%nat
    /\ wise.step a' = 3.
Proof.
  exact (Run_uses_whole_budget unit examples.live examples.ls_agent
           (str "list the files") examples.start ls_agent_never_ends).
Defined.

(** ** The completion marker after blank lines *)

Lemma trimFront_spaces sp2 sp3 (ws x : gostring) :
  Forall (fun c => strings.asciiSpace c = true) ws ->
  strings.trimFront sp2 sp3 (ws ++ x) = strings.trimFront sp2 sp3 x.
Proof.
  induction 1 as [|c ws Hc _ IH]; [reflexivity|].
  simpl. now rewrite Hc.
Qed.

Lemma TrimSpace_leading_spaces (ws x : gostring) :
  Forall (fun c => strings.asciiSpace c = true) ws ->
  strings.TrimSpace (ws ++ x) = strings.TrimSpace x.
Proof.
  intros H. unfold strings.TrimSpace, strings.TrimLeftSpace.
  now rewrite trimFront_spaces.
Qed.

Lemma afterFirstLine_spaces (ws x : gostring) :
  Forall (fun c => strings.asciiSpace c = true) ws ->
  In nl ws ->
  exists w2,
    afterFirstLine (ws ++ x) = w2 ++ x
    /\ Forall (fun c => strings.asciiSpace c = true) w2.
Proof.
  induction 1 as [|c ws Hc Hws IH]; intros Hin; [destruct Hin|].
  simpl. destruct (Ascii.eqb_spec c nl) as [-> | Hne].
  - exists ws. split; [reflexivity | exact Hws].
  - destruct Hin as [E | Hin]; [congruence|]. now apply IH.
Qed.

(** X7.  When the standard output has white space with a newline in it
    before the marker line, the loop still takes the task as complete (it
    trims before it looks at the first line), but the final output is cut
    from the untrimmed text: it is the marker followed by the rest, not the
    text after the marker. *)
Theorem marker_after_blank_lines (ws t : gostring) (o : Output) :
  Forall (fun c => strings.asciiSpace c = true) ws ->
  In nl ws ->
  t = [] \/ (exists r, t = nl :: r) ->
  Stdout o = ws ++ completionMarker ++ t ->
  isTaskComplete o = true
  /\ extractFinalOutput o = completionMarker ++ strings.TrimRightSpace t.
Proof.
  intros Hws Hin Ht Hs. split.
  - unfold isTaskComplete. rewrite Hs, (TrimSpace_leading_spaces _ _ Hws).
    apply (isTaskComplete_first_line
             {| Stdout := completionMarker ++ t; Stderr := []; ExitCode := 0;
                TimedOut := false |}).
    destruct Ht as [-> | [r ->]].
    + reflexivity.
    + exact (firstLine_app_nl completionMarker r marker_no_nl).
  - rewrite extractFinalOutput_after, Hs.
    destruct (afterFirstLine_spaces ws (completionMarker ++ t) Hws Hin)
      as (w2 & -> & Hw2).
    rewrite (TrimSpace_leading_spaces _ _ Hw2). apply TrimSpace_marker.
Qed.

Lemma marker_after_blank_lines_witness :
  let o := {| Stdout := nl :: str "TASK_COMPLETE" ++ nl :: str "Summary: X";
              Stderr := []; ExitCode := 0; TimedOut := false |} in
  isTaskComplete o = true
  /\ extractFinalOutput o
     = completionMarker ++ strings.TrimRightSpace (nl :: str "Summary: X").
Proof.
  intros o.
  apply (marker_after_blank_lines [nl] (nl :: str "Summary: X") o).
  - repeat constructor.
  - now left.
  - right. eauto.
  - reflexivity.
Defined.

(** ** The size of an observation *)

(** X8.  An observation is never empty; it has at most 10030 bytes after
    the exit code line, which is there only for a nonzero exit code; and a
    standard output that is not blank, of at most 10000 bytes, with exit
    code 0, is its own observation. *)
Theorem formatObservation_bounds (o : Output) :
  formatObservation o <> []
  /\ (Z.of_nat (List.length (formatObservation o))
      <= maxLen + Z.of_nat (List.length truncation_notice)
         + (if ExitCode o =? 0 then 0
            else Z.of_nat (List.length
                   (str "[exit code: " ++ itoa (ExitCode o) ++ str "]" ++ [nl]))))
  /\ (ExitCode o = 0 -> ~ blank (Stdout o) ->
      Z.of_nat (List.length (Stdout o)) <= maxLen ->
      formatObservation o = Stdout o).
Proof.
  assert (Hn : forall x y : gostring, x <> [] -> x ++ y <> [])
    by (intros [|c x] y H; [contradiction | discriminate]).
  unfold formatObservation, blank.
  destruct (eqs (strings.TrimSpace (Stdout o)) []) eqn:Eb;
    destruct (Z.eqb_spec (ExitCode o) 0) as [E0 | E0]; simpl andb; cbv iota;
    simpl negb; cbv iota.
  - split; [discriminate|]. split; [vm_compute; discriminate|].
    intros _ Hb. apply eqs_true in Eb. contradiction.
  - split; [discriminate|]. split; [|contradiction].
    destruct (Z.ltb_spec maxLen (Z.of_nat (List.length (Stdout o)))) as [Hl | Hl];
      cbn [List.length]; rewrite !length_app; cbn [List.length];
      rewrite ?length_app, ?length_firstn, ?length_skipn; cbn [List.length];
      change (Z.to_nat (maxLen / 2)) with (Z.to_nat 5000);
      unfold maxLen in *; lia.
  - apply eqs_false in Eb.
    assert (Hne : Stdout o <> [])
      by (intros E; apply Eb; rewrite E; reflexivity).
    destruct (Z.ltb_spec maxLen (Z.of_nat (List.length (Stdout o)))) as [Hl | Hl].
    + split; [|split].
      * intros E. apply (f_equal (@List.length ascii)) in E.
        rewrite !length_app in E. simpl in E. lia.
      * rewrite !length_app, length_firstn, length_skipn.
        change (Z.to_nat (maxLen / 2)) with (Z.to_nat 5000).
        unfold maxLen in *. lia.
      * intros _ _ Hle. lia.
    + split; [exact Hne|]. split; [lia | reflexivity].
  - split; [discriminate|]. split; [|contradiction].
    destruct (Z.ltb_spec maxLen (Z.of_nat (List.length (Stdout o)))) as [Hl | Hl];
      cbn [List.length]; rewrite !length_app; cbn [List.length];
      rewrite ?length_app, ?length_firstn, ?length_skipn; cbn [List.length];
      change (Z.to_nat (maxLen / 2)) with (Z.to_nat 5000);
      unfold maxLen in *; lia.
Qed.

Lemma formatObservation_bounds_witness :
  formatObservation
    {| Stdout := str "a.txt" ++ [nl]; Stderr := str "warning"; ExitCode := 0;
       TimedOut := false |}
  = str "a.txt" ++ [nl].
Proof.
  apply (proj2 (proj2 (formatObservation_bounds
           {| Stdout := str "a.txt" ++ [nl]; Stderr := str "warning";
              ExitCode := 0; TimedOut := false |}))).
  - reflexivity.
  - discriminate.
  - vm_compute. discriminate.
Defined.

(** ** Fenced commands in prose *)

Lemma CutPrefix_close_fails (c : ascii) (y : gostring) :
  y = [] \/ (exists d y', y = d :: y' /\ d <> backquote) ->
  strings.CutPrefix regexp.fence_close (c :: y) = None.
Proof.
  unfold regexp.fence_close.
  intros [-> | (d & y' & -> & Hd)];
    cbn [strings.CutPrefix str list_ascii_of_string];
    destruct (Ascii.eqb nl c); try reflexivity.
  destruct (Ascii.eqb_spec "`"%char d) as [E | _]; [|reflexivity].
  exfalso. apply Hd. now rewrite <- E.
Qed.

Lemma CutPrefix_close_fails_head (c : ascii) (y : gostring) :
  c <> nl -> strings.CutPrefix regexp.fence_close (c :: y) = None.
Proof.
  intros Hc. unfold regexp.fence_close. cbn [strings.CutPrefix].
  destruct (Ascii.eqb_spec nl c) as [E | _]; [now elim Hc | reflexivity].
Qed.

Lemma no_backquote_cons (c : ascii) (s : gostring) :
  no_backquote (c :: s) <-> c <> backquote /\ no_backquote s.
Proof.
  unfold no_backquote. simpl. split.
  - intros H. split; [intros E; apply H; now left | intros E; apply H; now right].
  - intros [H1 H2] [E | E]; [now apply H1 | now apply H2].
Qed.

Lemma no_backquote_app (s t : gostring) :
  no_backquote (s ++ t) <-> no_backquote s /\ no_backquote t.
Proof.
  unfold no_backquote. rewrite in_app_iff. tauto.
Qed.

(** Without a backquote before it, the closing fence ends the capture. *)
Lemma lazy_close_exact (u post : gostring) :
  no_backquote u ->
  regexp.match_lazy_close (u ++ regexp.fence_close ++ post) = Some (u, post).
Proof.
  induction u as [|c u IH]; intros Hu; [reflexivity|].
  apply no_backquote_cons in Hu. destruct Hu as [Hc Hu].
  change ((c :: u) ++ regexp.fence_close ++ post)
    with (c :: (u ++ regexp.fence_close ++ post)).
  cbn [regexp.match_lazy_close].
  rewrite CutPrefix_close_fails.
  - now rewrite (IH Hu).
  - right. destruct u as [|d u'].
    + exists nl, (str "```" ++ post). split; [reflexivity | discriminate].
    + apply no_backquote_cons in Hu. destruct Hu as [Hd _].
      exists d, (u' ++ regexp.fence_close ++ post). split; [reflexivity | exact Hd].
Qed.

Lemma lazy_close_none (x : gostring) :
  no_backquote x -> regexp.match_lazy_close x = None.
Proof.
  induction x as [|c x IH]; intros Hx; [reflexivity|].
  apply no_backquote_cons in Hx. destruct Hx as [Hc Hx].
  cbn [regexp.match_lazy_close].
  rewrite CutPrefix_close_fails.
  - now rewrite (IH Hx).
  - destruct x as [|d x']; [now left | right].
    apply no_backquote_cons in Hx. destruct Hx as [Hd _]. eauto.
Qed.

Lemma lazy_close_none_after_fence (post : gostring) :
  no_backquote post ->
  regexp.match_lazy_close (str "```" ++ post) = None.
Proof.
  intros Hp. pose proof (lazy_close_none post Hp) as H.
  change (str "```" ++ post)
    with (backquote :: backquote :: backquote :: post).
  cbn [regexp.match_lazy_close].
  rewrite !CutPrefix_close_fails_head by discriminate.
  now rewrite H.
Qed.

(** The white space, the newline and the capture, in a text whose fence
    holds no backquote and is followed by none: the match ends at the
    closing fence, and what it captures is the contents less white space at
    their start. *)
Lemma spaces_nl_shape (u post : gostring) :
  no_backquote u -> no_backquote post ->
  forall cap rest,
    regexp.match_spaces_nl (u ++ regexp.fence_close ++ post) = Some (cap, rest) ->
    rest = post
    /\ exists ws, u = ws ++ nl :: cap
                  /\ Forall (fun c => regexp.perl_space c = true) ws.
Proof.
  intros Hu Hp. induction u as [|c u IH]; intros cap rest.
  - change ([] ++ regexp.fence_close ++ post) with (nl :: (str "```" ++ post)).
    cbn [regexp.match_spaces_nl].
    change (regexp.perl_space nl) with true. cbv iota.
    change (str "```" ++ post) with (backquote :: (str "``" ++ post)) at 1.
    cbn [regexp.match_spaces_nl].
    change (regexp.perl_space backquote) with false. cbv iota.
    change (Ascii.eqb nl nl) with true. cbv iota.
    now rewrite (lazy_close_none_after_fence post Hp).
  - apply no_backquote_cons in Hu. destruct Hu as [Hc Hu].
    change ((c :: u) ++ regexp.fence_close ++ post)
      with (c :: (u ++ regexp.fence_close ++ post)).
    cbn [regexp.match_spaces_nl].
    destruct (regexp.perl_space c) eqn:Hs; [|discriminate].
    destruct (regexp.match_spaces_nl (u ++ regexp.fence_close ++ post))
      as [[cap' rest']|].
    + intros [= <- <-]. destruct (IH Hu cap' rest' eq_refl) as (-> & ws & -> & Hws).
      split; [reflexivity|]. exists (c :: ws). split; [reflexivity|].
      now constructor.
    + destruct (Ascii.eqb_spec c nl) as [-> | _]; [|discriminate].
      rewrite (lazy_close_exact u post Hu). intros [= <- <-].
      split; [reflexivity|]. exists []. split; [reflexivity | constructor].
Qed.

(** The same when the contents have a byte that is not white space, with
    any text after the fence. *)
Lemma spaces_nl_shape_solid (w : gostring) (x : ascii) (c' rest0 : gostring) :
  Forall (fun c => regexp.perl_space c = true) w ->
  regexp.perl_space x = false ->
  no_backquote (w ++ x :: c') ->
  forall cap rest,
    regexp.match_spaces_nl ((w ++ x :: c') ++ regexp.fence_close ++ rest0)
    = Some (cap, rest) ->
    rest = rest0
    /\ exists ws, w ++ x :: c' = ws ++ nl :: cap
                  /\ Forall (fun c => regexp.perl_space c = true) ws.
Proof.
  intros Hw Hx. induction Hw as [|c w Hc Hw IH]; intros Hnb cap rest.
  - change (([] ++ x :: c') ++ regexp.fence_close ++ rest0)
      with (x :: (c' ++ regexp.fence_close ++ rest0)).
    cbn [regexp.match_spaces_nl]. rewrite Hx. discriminate.
  - change (((c :: w) ++ x :: c') ++ regexp.fence_close ++ rest0)
      with (c :: ((w ++ x :: c') ++ regexp.fence_close ++ rest0)).
    change ((c :: w) ++ x :: c') with (c :: (w ++ x :: c')) in Hnb.
    apply no_backquote_cons in Hnb. destruct Hnb as [_ Hnb].
    cbn [regexp.match_spaces_nl]. rewrite Hc.
    destruct (regexp.match_spaces_nl
                ((w ++ x :: c') ++ regexp.fence_close ++ rest0))
      as [[cap' rest']|].
    + intros [= <- <-].
      destruct (IH Hnb cap' rest' eq_refl) as (-> & ws & E & Hws).
      split; [reflexivity|]. exists (c :: ws).
      split; [simpl; now rewrite E | now constructor].
    + destruct (Ascii.eqb_spec c nl) as [-> | _]; [|discriminate].
      rewrite (lazy_close_exact _ rest0 Hnb). intros [= <- <-].
      split; [reflexivity|]. exists []. split; [reflexivity | constructor].
Qed.

Lemma spaces_nl_succeeds (c post : gostring) :
  no_backquote c ->
  regexp.match_spaces_nl (nl :: c ++ regexp.fence_close ++ post) <> None.
Proof.
  intros Hc. cbn [regexp.match_spaces_nl].
  change (regexp.perl_space nl) with true. cbv iota.
  destruct (regexp.match_spaces_nl (c ++ regexp.fence_close ++ post));
    [discriminate|].
  change (Ascii.eqb nl nl) with true. cbv iota.
  rewrite (lazy_close_exact c post Hc). discriminate.
Qed.

Lemma perl_space_asciiSpace (c : ascii) :
  regexp.perl_space c = true -> strings.asciiSpace c = true.
Proof.
  unfold regexp.perl_space, strings.asciiSpace.
  repeat match goal with
         | |- context [(?x =? ?y)%N] => destruct (N.eqb_spec x y)
         end; intros H; try discriminate H;
    repeat match goal with
           | |- context [(?x <=? ?y)%N] => destruct (N.leb_spec x y)
           end; try reflexivity; lia.
Qed.

(** The capture differs from the contents by white space at the start
    only, so both trim to the same text. *)
Lemma capture_trims_alike (c cap ws : gostring) :
  nl :: c = ws ++ nl :: cap ->
  Forall (fun x => regexp.perl_space x = true) ws ->
  strings.TrimSpace cap = strings.TrimSpace c.
Proof.
  intros E Hws. destruct ws as [|x ws].
  - injection E as ->. reflexivity.
  - injection E as _ ->. inversion Hws as [|? ? _ Hws']; subst.
    symmetry. replace (ws ++ nl :: cap) with ((ws ++ [nl]) ++ cap)
      by now rewrite <- app_assoc.
    apply TrimSpace_leading_spaces. apply Forall_app. split.
    + eapply Forall_impl; [|exact Hws']. apply perl_space_asciiSpace.
    + repeat constructor.
Qed.

(** *** The scan *)

Lemma match_here_not_backquote (c : ascii) (s : gostring) :
  c <> backquote -> regexp.match_here (c :: s) = None.
Proof.
  intros Hc. unfold regexp.match_here, regexp.fence_open.
  cbn [strings.CutPrefix str list_ascii_of_string].
  destruct (Ascii.eqb_spec "`"%char c) as [E | _]; [|reflexivity].
  exfalso. apply Hc. now rewrite <- E.
Qed.

Lemma scan_prose (pre x : gostring) :
  no_backquote pre -> regexp.scan O (pre ++ x) = regexp.scan O x.
Proof.
  induction pre as [|c pre IH]; intros H; [reflexivity|].
  apply no_backquote_cons in H. destruct H as [Hc H].
  change ((c :: pre) ++ x) with (c :: (pre ++ x)).
  cbn [regexp.scan]. rewrite (match_here_not_backquote c _ Hc). now apply IH.
Qed.

Lemma scan_skip (mid rest : gostring) :
  regexp.scan (List.length mid) (mid ++ rest) = regexp.scan O rest.
Proof.
  induction mid as [|c mid IH]; [reflexivity|]. exact IH.
Qed.

(** After a match the scan goes on behind it. *)
Lemma scan_match (s cap rest : gostring) :
  regexp.match_here s = Some (cap, rest) ->
  regexp.scan O s = cap :: regexp.scan O rest.
Proof.
  intros H. pose proof (match_here_sound _ _ _ H) as (ws & E & _).
  destruct s as [|c r]; [discriminate E|].
  cbn [regexp.scan]. rewrite H. f_equal.
  assert (Er : r = (str "``bash" ++ ws ++ nl :: cap ++ regexp.fence_close)
                   ++ rest).
  { change ([] ++ regexp.fence_open ++ ws ++ nl :: cap
               ++ regexp.fence_close ++ rest)
      with (backquote
              :: (str "``bash" ++ ws ++ nl :: cap ++ regexp.fence_close ++ rest))
      in E.
    injection E as _ ->.
    rewrite <- !app_assoc. cbn [app]. now rewrite <- !app_assoc. }
  rewrite Er at 1 2. rewrite length_app.
  replace (List.length (str "``bash" ++ ws ++ nl :: cap ++ regexp.fence_close)
           + List.length rest - List.length rest)%nat
    with (List.length (str "``bash" ++ ws ++ nl :: cap ++ regexp.fence_close))
    by lia.
  apply scan_skip.
Qed.

Lemma fenced_assoc (c post : gostring) :
  examples.fenced c ++ post
  = regexp.fence_open ++ (nl :: c) ++ regexp.fence_close ++ post.
Proof.
  unfold examples.fenced, regexp.fence_open, regexp.fence_close.
  rewrite <- !app_assoc. cbn [app]. now rewrite <- !app_assoc.
Qed.

Lemma match_here_open (x : gostring) :
  regexp.match_here (regexp.fence_open ++ x) = regexp.match_spaces_nl x.
Proof.
  unfold regexp.match_here.
  now rewrite (proj2 (CutPrefix_Some regexp.fence_open
                        (regexp.fence_open ++ x) x) eq_refl).
Qed.

Lemma no_backquote_nl_cons (c : gostring) :
  no_backquote c -> no_backquote (nl :: c).
Proof. intros H. apply no_backquote_cons. split; [discriminate | exact H]. Qed.

(** A fence without backquotes, followed by text without backquotes. *)
Lemma match_here_fenced (c post : gostring) :
  no_backquote c -> no_backquote post ->
  exists cap,
    regexp.match_here (examples.fenced c ++ post) = Some (cap, post)
    /\ strings.TrimSpace cap = strings.TrimSpace c.
Proof.
  intros Hc Hp. rewrite fenced_assoc, match_here_open.
  pose proof (spaces_nl_succeeds c post Hc) as Hs.
  change ((nl :: c) ++ regexp.fence_close ++ post)
    with (nl :: c ++ regexp.fence_close ++ post).
  destruct (regexp.match_spaces_nl (nl :: c ++ regexp.fence_close ++ post))
    as [[cap rest]|] eqn:E; [|contradiction].
  destruct (spaces_nl_shape (nl :: c) post (no_backquote_nl_cons c Hc) Hp
              cap rest E) as (-> & ws & Ews & Hws).
  exists cap. split; [reflexivity|]. eapply capture_trims_alike; eassumption.
Qed.

Lemma all_spaces_blank (c : gostring) :
  Forall (fun x => strings.asciiSpace x = true) c -> strings.TrimSpace c = [].
Proof.
  intros H. rewrite <- (app_nil_r c).
  now rewrite (TrimSpace_leading_spaces c [] H).
Qed.

Lemma first_solid_byte (c : gostring) :
  Forall (fun x => regexp.perl_space x = true) c
  \/ exists w x c',
       c = w ++ x :: c'
       /\ Forall (fun y => regexp.perl_space y = true) w
       /\ regexp.perl_space x = false.
Proof.
  induction c as [|a c IH]; [left; constructor|].
  destruct (regexp.perl_space a) eqn:Ha.
  - destruct IH as [IH | (w & x & c' & -> & Hw & Hx)].
    + left. now constructor.
    + right. exists (a :: w), x, c'. repeat split; auto.
  - right. exists [], a, c. repeat split; auto.
Qed.

(** A fence that holds a command, followed by any text. *)
Lemma match_here_fenced_solid (c rest : gostring) :
  no_backquote c -> strings.TrimSpace c <> [] ->
  exists cap,
    regexp.match_here (examples.fenced c ++ rest) = Some (cap, rest)
    /\ strings.TrimSpace cap = strings.TrimSpace c.
Proof.
  intros Hc Hne. rewrite fenced_assoc, match_here_open.
  destruct (first_solid_byte c) as [Hall | (w & x & c' & E & Hw & Hx)].
  { exfalso. apply Hne, all_spaces_blank.
    eapply Forall_impl; [|exact Hall]. apply perl_space_asciiSpace. }
  pose proof (spaces_nl_succeeds c rest Hc) as Hs.
  change ((nl :: c) ++ regexp.fence_close ++ rest)
    with (nl :: c ++ regexp.fence_close ++ rest) in *.
  destruct (regexp.match_spaces_nl (nl :: c ++ regexp.fence_close ++ rest))
    as [[cap rest']|] eqn:Em; [|contradiction].
  assert (Hshape : rest' = rest
                   /\ exists ws, (nl :: w) ++ x :: c' = ws ++ nl :: cap
                      /\ Forall (fun y => regexp.perl_space y = true) ws).
  { apply (spaces_nl_shape_solid (nl :: w) x c' rest).
    - constructor; [reflexivity | exact Hw].
    - exact Hx.
    - change ((nl :: w) ++ x :: c') with (nl :: (w ++ x :: c')).
      rewrite <- E. now apply no_backquote_nl_cons.
    - change (((nl :: w) ++ x :: c') ++ regexp.fence_close ++ rest)
        with (nl :: (w ++ x :: c') ++ regexp.fence_close ++ rest).
      rewrite <- E. exact Em. }
  destruct Hshape as (-> & ws & Ews & Hws).
  exists cap. split; [reflexivity|].
  apply (capture_trims_alike c cap ws); [|exact Hws].
  rewrite <- Ews, E. reflexivity.
Qed.

Lemma scan_prose_only (post : gostring) :
  no_backquote post -> regexp.scan O post = [].
Proof.
  intros H. rewrite <- (app_nil_r post). now rewrite scan_prose.
Qed.

(** X9.  A response made of prose without backquotes around one fenced
    block whose contents have no backquote is parsed to the bash action
    whose command is the trimmed contents; when the contents are blank it
    is refused with the empty-command format error. *)
Theorem fenced_command_round_trip (pre c post : gostring) :
  no_backquote pre -> no_backquote c -> no_backquote post ->
  parser.ParseAction (pre ++ examples.fenced c ++ post)
  = if eqs (strings.TrimSpace c) [] then (Action_zero, Some empty_command_error)
    else ({| Type_ := ActionTypeBash; Command := strings.TrimSpace c |}, None).
Proof.
  intros Hpre Hc Hpost.
  destruct (match_here_fenced c post Hc Hpost) as (cap & Hm & Ht).
  unfold parser.ParseAction, regexp.FindAllStringSubmatch.
  rewrite (scan_prose pre _ Hpre), (scan_match _ _ _ Hm),
    (scan_prose_only post Hpost), Ht.
  reflexivity.
Qed.

Lemma fenced_command_round_trip_witness :
  parser.ParseAction
    (str "Let me look." ++ nl :: examples.fenced (nl :: str "  ls -la  ")
     ++ nl :: str "That lists the files.")
  = ({| Type_ := ActionTypeBash; Command := str "ls -la" |}, None).
Proof.
  assert (N : forall s : gostring,
             forallb (fun c => negb (Ascii.eqb c backquote)) s = true ->
             no_backquote s).
  { intros s H Hin. rewrite forallb_forall in H. specialize (H _ Hin).
    now rewrite Ascii.eqb_refl in H. }
  apply (fenced_command_round_trip (str "Let me look." ++ [nl])
           (nl :: str "  ls -la  ") (nl :: str "That lists the files."));
    apply N; reflexivity.
Defined.

(** X10.  Two fenced blocks in prose, all without backquotes apart from the
    fences and the first holding a command, are refused with the format
    error that counts two commands. *)
Theorem two_fenced_commands_refused (pre c1 mid c2 post : gostring) :
  no_backquote pre -> no_backquote c1 -> no_backquote mid ->
  no_backquote c2 -> no_backquote post ->
  strings.TrimSpace c1 <> [] ->
  parser.ParseAction
    (pre ++ examples.fenced c1 ++ mid ++ examples.fenced c2 ++ post)
  = (Action_zero, Some (found_commands_error 2)).
Proof.
  intros Hpre H1 Hmid H2 Hpost Hne.
  destruct (match_here_fenced_solid c1 (mid ++ examples.fenced c2 ++ post)
              H1 Hne) as (cap1 & Hm1 & _).
  destruct (match_here_fenced c2 post H2 Hpost) as (cap2 & Hm2 & _).
  unfold parser.ParseAction, regexp.FindAllStringSubmatch.
  rewrite (scan_prose pre _ Hpre), (scan_match _ _ _ Hm1),
    (scan_prose mid _ Hmid), (scan_match _ _ _ Hm2),
    (scan_prose_only post Hpost).
  reflexivity.
Qed.

Lemma two_fenced_commands_refused_witness :
  parser.ParseAction
    (examples.fenced (str "ls") ++ nl :: examples.fenced (str "pwd") ++ [])
  = (Action_zero, Some (found_commands_error 2)).
Proof.
  assert (N : forall s : gostring,
             forallb (fun c => negb (Ascii.eqb c backquote)) s = true ->
             no_backquote s).
  { intros s H Hin. rewrite forallb_forall in H. specialize (H _ Hin).
    now rewrite Ascii.eqb_refl in H. }
  apply (two_fenced_commands_refused [] (str "ls") [nl] (str "pwd") []);
    try (apply N; reflexivity).
  discriminate.
Defined.

(** ** Trimming is idempotent *)

Section trim_stable.

Variable sp2 : ascii -> ascii -> bool.
Variable sp3 : ascii -> ascii -> ascii -> bool.





End trim_stable.









(** ** The validator and the executors *)

(** X12.  Validate of package agent accepts a command exactly when none of
    the patterns of the blocklist matches it, and then it has tried every
    pattern, in order. *)
Theorem Validate_accepts_iff (fmt : Fmt)
  (v : agent_executor.BlocklistValidator) (command : gostring) :
  (agent_executor.Validate v command = None
   <-> Forall (fun re => MatchString re command = false)
         (agent_executor.patterns v))
  /\ (agent_executor.Validate v command = None ->
      fst (agent_executor.Validate_loop (agent_executor.patterns v) command)
      = agent_executor.patterns v).
Proof.
  unfold agent_executor.Validate.
  assert (H : snd (agent_executor.Validate_loop (agent_executor.patterns v)
                     command) = None ->
              Forall (fun re => MatchString re command = false)
                (agent_executor.patterns v)).
  { induction (agent_executor.patterns v) as [|re ps IH]; [constructor|].
    cbn [agent_executor.Validate_loop].
    destruct (MatchString re command) eqn:E; [discriminate|].
    destruct (agent_executor.Validate_loop ps command) as [seen r].
    cbn [snd] in *. intros Hr. constructor; auto. }
  split; [split|].
  - exact H.
  - intros Hall. now rewrite (Validate_loop_no_match _ _ Hall).
  - intros Hn. now rewrite (Validate_loop_no_match _ _ (H Hn)).
Qed.

Lemma Validate_accepts_iff_witness :
  @agent_executor.Validate examples.plain_fmt examples.blocklist (str "ls -la")
  = None.
Proof.
  apply (proj2 (proj1 (Validate_accepts_iff examples.plain_fmt
                         examples.blocklist (str "ls -la")))).
  repeat constructor.
Defined.

Section launched.
Context {W : Type} {fmt : Fmt}.
Variables (launch : Launcher W) (ctx : context W) (action : Action)
          (s : Sys W) (r : ProcResult) (w : W).

(** What Execute of package agent returns once the process has run. *)
Lemma agent_Execute_launched (e : agent_executor.BashExecutor) :
  Type_ action = ActionTypeBash ->
  (forall v, agent_executor.validator e = Some v ->
             v (Command action) = None) ->
  launch ctx (Command action) (agent_executor.workingDir e)
    (agent_executor.timeout e) (world s) = (r, w) ->
  agent_executor.Execute launch e ctx action s
  = (match proc_err r with
     | None =>
         ({| Stdout := proc_stdout r; Stderr := proc_stderr r;
             ExitCode := 0; TimedOut := false |}, None)
     | Some cause =>
         if DeadlineExceeded r then
           (timed_out_Output r,
            Some (ProcessE
              {| ErrType := ProcessErrTimeout;
                 ErrMessage :=
                   str "Command timed out after "
                   ++ Duration_String (agent_executor.timeout e)
                   ++ str ". Partial output:"
                   ++ nl :: agent_executor.Output_String (timed_out_Output r) |}))
         else
           let o := {| Stdout := proc_stdout r; Stderr := proc_stderr r;
                       ExitCode := match ExitError_code cause with
                                   | Some c => c
                                   | None => 0
                                   end;
                       TimedOut := false |} in
           (o,
            Some (ProcessE
              {| ErrType := ProcessErrExecution;
                 ErrMessage :=
                   str "Command failed: " ++ Error_text cause
                   ++ nl :: str "Output:"
                   ++ nl :: agent_executor.Output_String o |}))
     end,
     {| world := w;
        trace := trace s ++ [EvSpawn (Command action)
                               (agent_executor.workingDir e)
                               (agent_executor.timeout e)] |}).
Proof.
  intros Ht Hv Hl. unfold agent_executor.Execute.
  apply eqs_true in Ht. rewrite Ht. simpl negb. cbv iota.
  replace (match agent_executor.validator e with
           | Some v => v (Command action) | None => None end)
    with (@None error)
    by (destruct (agent_executor.validator e) as [v|];
        [symmetry; now apply Hv | reflexivity]).
  rewrite Hl.
  destruct (proc_err r) as [cause|]; [|reflexivity].
  destruct (DeadlineExceeded r); [reflexivity|].
  now destruct (ExitError_code cause).
Qed.

(** What Execute of the local environment returns once the process has
    run. *)
Lemma local_Execute_launched (e : local.Config) :
  Type_ action = ActionTypeBash ->
  (forall v, local.validator e = Some v -> v (Command action) = None) ->
  launch ctx (Command action) (local.workingDir e) (local.timeout e)
    (world s) = (r, w) ->
  local.Execute launch e ctx action s
  = (match proc_err r with
     | None =>
         ({| Stdout := proc_stdout r; Stderr := proc_stderr r;
             ExitCode := 0; TimedOut := false |}, None)
     | Some cause =>
         if DeadlineExceeded r then
           (timed_out_Output r,
            Some (ExecutionE
              {| ExecType := ErrTimeout;
                 ExecMessage :=
                   str "Command timed out after "
                   ++ Duration_String (local.timeout e)
                   ++ str ". Partial output:"
                   ++ nl :: local.Output_String (timed_out_Output r) |}))
         else
           let o := {| Stdout := proc_stdout r; Stderr := proc_stderr r;
                       ExitCode := match ExitError_code cause with
                                   | Some c => c
                                   | None => 0
                                   end;
                       TimedOut := false |} in
           (o,
            Some (ExecutionE
              {| ExecType := ErrExecution;
                 ExecMessage :=
                   str "Command failed: " ++ Error_text cause
                   ++ nl :: str "Output:"
                   ++ nl :: local.Output_String o |}))
     end,
     {| world := w;
        trace := trace s ++ [EvSpawn (Command action)
                               (local.workingDir e) (local.timeout e)] |}).
Proof.
  intros Ht Hv Hl. unfold local.Execute.
  apply eqs_true in Ht. rewrite Ht. simpl negb. cbv iota.
  replace (match local.validator e with
           | Some v => v (Command action) | None => None end)
    with (@None error)
    by (destruct (local.validator e) as [v|];
        [symmetry; now apply Hv | reflexivity]).
  rewrite Hl.
  destruct (proc_err r) as [cause|]; [|reflexivity].
  destruct (DeadlineExceeded r); [reflexivity|].
  now destruct (ExitError_code cause).
Qed.

End launched.

(** X13.  When the action is a bash action that the validator lets through,
    Execute of either package starts exactly one process, with the command,
    the directory and the timeout of the executor, and reports it: the
    output holds what the process wrote; there is no error exactly when the
    process ended well, and then the exit code is 0 and the timed-out flag
    is off; the flag is on exactly when the process failed after the
    deadline; a nonzero exit code is the exit code of a process that failed
    before the deadline.  The error is a process error in package agent and
    an execution error in the local environment. *)
Theorem Execute_reports_process
  (W : Type) (fmt : Fmt) (launch : Launcher W) (ctx : context W)
  (action : Action) (s : Sys W) (r : ProcResult) (w : W) :
  Type_ action = ActionTypeBash ->
  (forall e : agent_executor.BashExecutor,
      (forall v, agent_executor.validator e = Some v ->
                 v (Command action) = None) ->
      launch ctx (Command action) (agent_executor.workingDir e)
        (agent_executor.timeout e) (world s) = (r, w) ->
      exists o err,
        agent_executor.Execute launch e ctx action s
        = ((o, err),
           {| world := w;
              trace := trace s ++ [EvSpawn (Command action)
                                     (agent_executor.workingDir e)
                                     (agent_executor.timeout e)] |})
        /\ reports_process o err r
        /\ (forall x, err = Some x -> exists pe, x = ProcessE pe))
  /\ (forall e : local.Config,
      (forall v, local.validator e = Some v -> v (Command action) = None) ->
      launch ctx (Command action) (local.workingDir e) (local.timeout e)
        (world s) = (r, w) ->
      exists o err,
        local.Execute launch e ctx action s
        = ((o, err),
           {| world := w;
              trace := trace s ++ [EvSpawn (Command action)
                                     (local.workingDir e)
                                     (local.timeout e)] |})
        /\ reports_process o err r
        /\ (forall x, err = Some x -> exists ee, x = ExecutionE ee)).
Proof.
  intros Ht. split; intros e Hv Hl.
  - rewrite (agent_Execute_launched launch ctx action s r w e Ht Hv Hl).
    unfold reports_process.
    destruct (proc_err r) as [cause|] eqn:Ep;
      [destruct (DeadlineExceeded r) eqn:Ed|].
    + do 2 eexists. split; [reflexivity|].
      cbn [Stdout Stderr ExitCode TimedOut timed_out_Output].
      repeat split; try discriminate; try congruence.
      intros x Hx. injection Hx as <-. eauto.
    + destruct (ExitError_code cause) as [c|] eqn:Ec;
        (do 2 eexists; split; [reflexivity|];
         cbn [Stdout Stderr ExitCode TimedOut];
         repeat split; try discriminate; try congruence;
         try (intros [_ H]; discriminate H);
         try (now exists cause);
         try (intros x Hx; injection Hx as <-; eauto)).
    + do 2 eexists. split; [reflexivity|].
      cbn [Stdout Stderr ExitCode TimedOut].
      repeat split; try discriminate; try congruence.
      intros [H _]. congruence.
  - rewrite (local_Execute_launched launch ctx action s r w e Ht Hv Hl).
    unfold reports_process.
    destruct (proc_err r) as [cause|] eqn:Ep;
      [destruct (DeadlineExceeded r) eqn:Ed|].
    + do 2 eexists. split; [reflexivity|].
      cbn [Stdout Stderr ExitCode TimedOut timed_out_Output].
      repeat split; try discriminate; try congruence.
      intros x Hx. injection Hx as <-. eauto.
    + destruct (ExitError_code cause) as [c|] eqn:Ec;
        (do 2 eexists; split; [reflexivity|];
         cbn [Stdout Stderr ExitCode TimedOut];
         repeat split; try discriminate; try congruence;
         try (intros [_ H]; discriminate H);
         try (now exists cause);
         try (intros x Hx; injection Hx as <-; eauto)).
    + do 2 eexists. split; [reflexivity|].
      cbn [Stdout Stderr ExitCode TimedOut].
      repeat split; try discriminate; try congruence.
      intros [H _]. congruence.
Qed.

Lemma Execute_reports_process_witness :
  exists o err,
    fst (@local.Execute unit examples.plain_fmt
           (examples.launch_always examples2.failed)
           {| local.timeout := local.thirty_seconds; local.workingDir := [];
              local.validator := None |}
           examples.live examples2.ls_missing examples.start)
    = (o, err)
    /\ ExitCode o = 2 /\ TimedOut o = false
    /\ Stderr o = str "ls: cannot access 'missing'" /\ err <> None.
Proof.
  destruct (proj2 (Execute_reports_process unit examples.plain_fmt
              (examples.launch_always examples2.failed) examples.live
              examples2.ls_missing examples.start examples2.failed tt eq_refl)
              {| local.timeout := local.thirty_seconds; local.workingDir := [];
                 local.validator := None |})
    as (o & err & HE & HR & HK).
  - intros v Hv. discriminate Hv.
  - reflexivity.
  - exists o, err. rewrite HE. split; [reflexivity|].
    apply (f_equal fst) in HE. cbn in HE. injection HE as <- <-.
    repeat split. discriminate.
Defined.

(** ** The local environment under the loop of package wise *)

Section local_under_wise.
Context {W : Type} {fmt : Fmt}.
Variables (launch : Launcher W) (e : local.Config) (ctx : context W).

Lemma local_env_runs (action : Action) (w0 : W) (r : ProcResult) (w : W) :
  Type_ action = ActionTypeBash ->
  (forall v, local.validator e = Some v -> v (Command action) = None) ->
  launch ctx (Command action) (local.workingDir e) (local.timeout e) w0
  = (r, w) ->
  local_env launch e ctx action w0
  = (match proc_err r with
     | None => (done_Output r, None)
     | Some cause =>
         if DeadlineExceeded r then
           (timed_out_Output r,
            Some (ExecutionE
              {| ExecType := ErrTimeout;
                 ExecMessage :=
                   str "Command timed out after "
                   ++ Duration_String (local.timeout e)
                   ++ str ". Partial output:"
                   ++ nl :: local.Output_String (timed_out_Output r) |}))
         else
           (failed_Output r cause,
            Some (ExecutionE
              {| ExecType := ErrExecution;
                 ExecMessage :=
                   str "Command failed: " ++ Error_text cause
                   ++ nl :: str "Output:"
                   ++ nl :: local.Output_String (failed_Output r cause) |}))
     end, w).
Proof.
  intros Ht Hv Hl. unfold local_env.
  now rewrite (local_Execute_launched launch ctx action
                 {| world := w0; trace := [] |} r w e Ht Hv Hl).
Qed.

End local_under_wise.

(** X14.  An agent of package wise over the local environment, without a
    custom handler, whose step gets a bash command that the validator lets
    through: when the process fails before the deadline, the output is not
    formatted as an observation; the step returns the execution error, and
    the loop adds the message of the error (the text of the failure, then
    the standard output and, when there is one, the standard error) to the
    history in the user role, after the response, and goes on.  When the
    process ends well the step hands an output with exit code 0 to
    handleOutput, so an observation made from the local environment never
    has the exit code line. *)
Theorem failed_command_feedback
  (W : Type) (fmt : Fmt) (launch : Launcher W) (e : local.Config)
  (ctx : context W) (a : @wise.baseAgent W) (s s2 : Sys W) (last : gostring)
  (response : gostring) (action : Action) (r : ProcResult) (w : W) :
  wise.env a = local_env launch e ->
  wise.actionHandler (wise.cfg a) = None ->
  wise.reaches_action ctx a s response action s2 ->
  Type_ action = ActionTypeBash ->
  (forall v, local.validator e = Some v -> v (Command action) = None) ->
  launch ctx (Command action) (local.workingDir e) (local.timeout e) (world s2)
  = (r, w) ->
  let a1 := wise.addMessage a RoleAssistant response in
  let s3 := {| world := w; trace := trace s2 ++ [EvExecute action] |} in
  (forall cause,
      proc_err r = Some cause -> DeadlineExceeded r = false ->
      let msg := str "Command failed: " ++ Error_text cause
                 ++ nl :: str "Output:"
                 ++ nl :: local.Output_String (failed_Output r cause) in
      wise.Step ctx a s
      = (Returned []
           (Some (ExecutionE {| ExecType := ErrExecution; ExecMessage := msg |})),
         a1, s3)
      /\ wise.Run_body ctx a s last
         = (Continue last, wise.addMessage a1 RoleUser msg, s3))
  /\ (proc_err r = None ->
      wise.Step ctx a s = wise.handleOutput a1 (done_Output r) s3
      /\ forall a' s',
           wise.Step ctx a s = (Returned [] None, a', s') ->
           wise.messages a'
           = wise.messages a1
             ++ [{| Role := RoleUser;
                    Content :=
                      if eqs (strings.TrimSpace (proc_stdout r)) []
                      then str "(no output)"
                      else if maxLen <? Z.of_nat (List.length (proc_stdout r))
                      then firstn (Z.to_nat (maxLen / 2)) (proc_stdout r)
                           ++ truncation_notice
                           ++ skipn (List.length (proc_stdout r)
                                     - Z.to_nat (maxLen / 2)) (proc_stdout r)
                      else proc_stdout r |}]).
Proof.
  intros Henv Hh Hreach Ht Hv Hl a1 s3.
  assert (HR : wise.run_action a1 ctx action s2
               = (fst (local_env launch e ctx action (world s2)), s3)).
  { unfold wise.run_action.
    change (wise.cfg a1) with (wise.cfg a). change (wise.env a1) with (wise.env a).
    rewrite Hh, Henv.
    rewrite (local_env_runs launch e ctx action (world s2) r w Ht Hv Hl).
    destruct (proc_err r) as [c|]; [destruct (DeadlineExceeded r)|];
      reflexivity. }
  rewrite (local_env_runs launch e ctx action (world s2) r w Ht Hv Hl) in HR.
  split.
  - intros cause Hc Hd msg. rewrite Hc, Hd in HR. cbn [fst] in HR.
    assert (HS : wise.Step ctx a s
                 = (Returned []
                      (Some (ExecutionE {| ExecType := ErrExecution;
                                           ExecMessage := msg |})), a1, s3)).
    { rewrite (Step_at_action _ _ _ _ _ _ Hreach). fold a1. now rewrite HR. }
    split; [exact HS|]. unfold wise.Run_body. now rewrite HS.
  - intros Hn. rewrite Hn in HR. cbn [fst] in HR.
    assert (HS : wise.Step ctx a s = wise.handleOutput a1 (done_Output r) s3).
    { rewrite (Step_at_action _ _ _ _ _ _ Hreach). fold a1. now rewrite HR. }
    split; [exact HS|]. intros a' s' Hs. rewrite HS in Hs.
    unfold wise.handleOutput in Hs.
    destruct (if negb (isTaskComplete (done_Output r))
                 && negb (eqs (strings.TrimSpace (Stdout (done_Output r))) [])
              then Fprint (wise.output (wise.cfg a1))
                     (Stdout (done_Output r) ++ [nl]) s3
              else Some s3) as [s4|]; [|discriminate].
    destruct (isTaskComplete (done_Output r)); [discriminate|].
    injection Hs as <- <-.
    unfold wise.addMessage at 1. cbn [wise.messages wise.set_messages].
    do 3 f_equal.
    unfold formatObservation. cbn [ExitCode Stdout done_Output].
    rewrite Z.eqb_refl, andb_true_r.
    destruct (eqs (strings.TrimSpace (proc_stdout r)) []); [reflexivity|].
    change (negb (0 =? 0)) with false. cbv iota. reflexivity.
Qed.

Lemma failed_command_feedback_witness :
  let res := wise.Run_body examples.live examples2.failing_agent
               examples.start [] in
  fst (fst res) = Continue []
  /\ wise.messages (snd (fst res))
     = [ {| Role := RoleAssistant;
            Content := examples.fenced (str "ls missing") |};
         {| Role := RoleUser;
            Content := str "Command failed: exit status 2" ++ nl :: str "Output:"
                       ++ nl :: nl :: str "ls: cannot access 'missing'" |} ]
  /\ trace (snd res) = [ EvQuery []; EvExecute examples2.ls_missing ].
Proof.
  intros res.
  assert (Hreach : wise.reaches_action examples.live examples2.failing_agent
                     examples.start (examples.fenced (str "ls missing"))
                     examples2.ls_missing
                     {| world := tt; trace := [EvQuery []] |}).
  { split; [reflexivity|]. exists tt, parser.ParseAction.
    repeat split; reflexivity. }
  destruct (proj1 (failed_command_feedback unit examples.plain_fmt
              (examples.launch_always examples2.failed)
              (local.New {| local.timeout := 0; local.workingDir := [];
                            local.validator := None |})
              examples.live examples2.failing_agent examples.start
              {| world := tt; trace := [EvQuery []] |} []
              (examples.fenced (str "ls missing")) examples2.ls_missing
              examples2.failed tt eq_refl eq_refl Hreach eq_refl
              (fun v Hv => False_ind _ (eq_ind None
                 (fun x => match x with None => True | Some _ => False end)
                 I _ Hv))
              eq_refl)
            {| Error_text := str "exit status 2"; ExitError_code := Some 2 |}
            eq_refl eq_refl) as [_ HB].
  unfold res. rewrite HB. repeat split.
Defined.

(** ** Package agent *)

Section agent_more.
Context {W : Type}.
Implicit Types (a b : @agent.BaseAgent W) (s : Sys W) (ctx : context W).

Lemma agent_same_setup_refl a : agent_same_setup a a.
Proof. repeat split. Qed.

Lemma agent_same_setup_trans a b c :
  agent_same_setup a b -> agent_same_setup b c -> agent_same_setup a c.
Proof.
  intros (A1 & A2 & A3 & A4 & A5) (B1 & B2 & B3 & B4 & B5).
  repeat split; congruence.
Qed.

Lemma agent_Step_setup ctx a s r a' s' :
  agent.Step ctx a s = (r, a', s') -> agent_same_setup a' a.
Proof.
  unfold agent.Step.
  destruct (ctx (world s)) as [e|];
    [intros H; injection H as <- <- <-; apply agent_same_setup_refl|].
  destruct (agent.querier a ctx (agent.messages a) (world s))
    as [[response [e|]] w1];
    [intros H; injection H as <- <- <-; apply agent_same_setup_refl|].
  destruct (agent.parser a) as [p|];
    [|intros H; injection H as <- <- <-; apply agent_same_setup_refl].
  destruct (p response) as [action [e|]];
    [intros H; injection H as <- <- <-; apply agent_same_setup_refl|].
  destruct (Fprint _ _ _) as [s2|];
    [|intros H; injection H as <- <- <-; repeat split].
  destruct (agent.executor _ ctx action (world s2)) as [[o [e|]] w3];
    [intros H; injection H as <- <- <-; repeat split|].
  destruct (if negb (isTaskComplete o)
               && negb (eqs (strings.TrimSpace (Stdout o)) [])
            then _ else _) as [s4|];
    [|intros H; injection H as <- <- <-; repeat split].
  destruct (isTaskComplete o); intros H; injection H as <- <- <-;
    repeat split.
Qed.

Lemma agent_Step_queries ctx a s response a' s' :
  agent.Step ctx a s = (Returned response None, a', s') ->
  queries (trace s') = S (queries (trace s)).
Proof.
  unfold agent.Step.
  destruct (ctx (world s)); [discriminate|].
  destruct (agent.querier a ctx (agent.messages a) (world s))
    as [[resp [e|]] w1]; [discriminate|].
  destruct (agent.parser a) as [p|]; [|discriminate].
  destruct (p resp) as [action [e|]]; [discriminate|].
  destruct (Fprint _ _ _) as [s2|] eqn:E2; [|discriminate].
  apply Fprint_queries in E2. cbn [trace] in E2.
  destruct (agent.executor _ ctx action (world s2)) as [[o [e|]] w3];
    [discriminate|].
  destruct (if negb (isTaskComplete o)
               && negb (eqs (strings.TrimSpace (Stdout o)) [])
            then _ else _) as [s4|] eqn:E4; [|discriminate].
  assert (H4 : queries (trace s4) = queries (trace s2 ++ [EvExecute action])).
  { destruct (negb (isTaskComplete o)
              && negb (eqs (strings.TrimSpace (Stdout o)) [])).
    - now apply Fprint_queries in E4.
    - now injection E4 as <-. }
  destruct (isTaskComplete o); [discriminate|].
  intros H. injection H as _ _ <-.
  rewrite H4, queries_app, E2, queries_app. cbn. lia.
Qed.

(** When every step returns a response, the loop with one more step in
    its budget is the loop followed by one step, and it returns the
    response of that step. *)
Lemma agent_Run_loop_snoc ctx a0 :
  (forall b s, agent_same_setup b a0 ->
     exists response b' s',
       agent.Step ctx b s = (Returned response None, b', s')) ->
  forall n b s last,
    agent_same_setup b a0 ->
    exists last' b0 s0 r b1 s',
      agent.Run_loop ctx n b s last
      = (Returned last' (Some step_limit_signal), b0, s0)
      /\ agent_same_setup b0 a0
      /\ agent.Step ctx b0 s0 = (Returned r None, b1, s')
      /\ agent.Run_loop ctx (S n) b s last
         = (Returned r (Some step_limit_signal),
            agent.set_step b1 (agent.step b1 + 1), s')
      /\ queries (trace s0) = (queries (trace s) + n)%nat
      /\ queries (trace s') = (queries (trace s) + S n)%nat.
Proof.
  intros Hstep. induction n as [|n IH]; intros b s last Hb.
  - destruct (Hstep b s Hb) as (r & b1 & s1 & HS).
    exists last, b, s, r, b1, s1.
    split; [reflexivity|]. split; [exact Hb|]. split; [exact HS|].
    split.
    + cbn [agent.Run_loop]. unfold agent.Run_body. rewrite HS. reflexivity.
    + rewrite (agent_Step_queries _ _ _ _ _ _ HS). split; lia.
  - destruct (Hstep b s Hb) as (r1 & b1 & s1 & HS).
    pose proof (agent_Step_setup _ _ _ _ _ _ HS) as Hb1.
    destruct (IH (agent.set_step b1 (agent.step b1 + 1)) s1 r1)
      as (last' & b0 & s0 & r & b2 & s' & HR & Hb0 & HS0 & HR' & HQ0 & HQ').
    { apply (agent_same_setup_trans _ b1); [repeat split|].
      now apply (agent_same_setup_trans _ b). }
    exists last', b0, s0, r, b2, s'.
    assert (Hunfold : forall k,
               agent.Run_loop ctx (S k) b s last
               = agent.Run_loop ctx k
                   (agent.set_step b1 (agent.step b1 + 1)) s1 r1).
    { intros k. cbn [agent.Run_loop]. unfold agent.Run_body.
      now rewrite HS. }
    rewrite !Hunfold.
    split; [exact HR|]. split; [exact Hb0|]. split; [exact HS0|].
    split; [exact HR'|].
    rewrite HQ0, HQ', (agent_Step_queries _ _ _ _ _ _ HS). split; lia.
Qed.

End agent_more.

Section agent_without_writer.
Context {W : Type}.
Implicit Types (a b : @agent.BaseAgent W) (s : Sys W) (ctx : context W).

Lemma only_queries_refl (t : list Event) : only_queries t t.
Proof. exists []. split; [now rewrite app_nil_r | constructor]. Qed.

Lemma only_queries_one (t : list Event) (h : list Message) :
  only_queries t (t ++ [EvQuery h]).
Proof. exists [EvQuery h]. split; [reflexivity|]. constructor; eauto. Qed.

Lemma only_queries_trans (t u v : list Event) :
  only_queries t u -> only_queries u v -> only_queries t v.
Proof.
  intros (n1 & -> & H1) (n2 & -> & H2). exists (n1 ++ n2).
  split; [now rewrite app_assoc | now apply Forall_app].
Qed.

(** Without a writer a step ends before the executor is called. *)
Lemma agent_Step_without_writer ctx a s r a' s' :
  agent.output a = None ->
  agent.Step ctx a s = (r, a', s') ->
  only_queries (trace s) (trace s')
  /\ (forall response, r <> Returned response None).
Proof.
  intros Ho. unfold agent.Step.
  destruct (ctx (world s)) as [e|].
  { intros H; injection H as <- <- <-.
    split; [apply only_queries_refl | discriminate]. }
  destruct (agent.querier a ctx (agent.messages a) (world s))
    as [[response [e|]] w1].
  { intros H; injection H as <- <- <-.
    split; [apply only_queries_one | discriminate]. }
  destruct (agent.parser a) as [p|].
  2:{ intros H; injection H as <- <- <-.
      split; [apply only_queries_one | discriminate]. }
  destruct (p response) as [action [e|]].
  { intros H; injection H as <- <- <-.
    split; [apply only_queries_one | discriminate]. }
  change (agent.output (agent.addMessage a RoleAssistant response))
    with (agent.output a).
  rewrite Ho. cbn [Fprint].
  intros H; injection H as <- <- <-.
  split; [apply only_queries_one | discriminate].
Qed.

Lemma agent_Run_loop_without_writer ctx n : forall a s last r a' s',
  agent.output a = None ->
  agent.Run_loop ctx n a s last = (r, a', s') ->
  only_queries (trace s) (trace s').
Proof.
  induction n as [|n IH]; intros a s last r a' s' Ho.
  - cbn [agent.Run_loop]. intros H; injection H as <- <- <-.
    apply only_queries_refl.
  - cbn [agent.Run_loop]. unfold agent.Run_body.
    destruct (agent.Step ctx a s) as [[r1 a1] s1] eqn:ES.
    pose proof (agent_Step_setup _ _ _ _ _ _ ES) as (_ & _ & _ & _ & Ho1).
    destruct (agent_Step_without_writer _ _ _ _ _ _ Ho ES) as [Hq Hr].
    destruct r1 as [response [err|]|].
    + destruct (As_TerminatingErr err) as [t|].
      { intros H; injection H as <- <- <-. exact Hq. }
      destruct (As_ProcessErr err) as [pe|].
      * intros H. apply IH in H; [|cbn; congruence].
        exact (only_queries_trans _ _ _ Hq H).
      * intros H; injection H as <- <- <-. exact Hq.
    + now destruct (Hr response).
    + intros H; injection H as <- <- <-. exact Hq.
Qed.

End agent_without_writer.

(** X15.  NewWithComponents of package agent leaves the writer of the agent
    unset, and Step writes the command to it before it executes it: a step
    of such an agent whose response holds a command panics after it has
    added the response to the history, Run panics in its first step when
    the first response holds a command, and whatever the model answers, Run
    never calls the executor. *)
Theorem NewWithComponents_never_executes
  (W : Type) (config : agent.Config) (querier : Model W) (p : Parser)
  (executor : Environment W) (ctx : context W) (s : Sys W) :
  let a := agent.NewWithComponents config querier (Some p) executor in
  (forall r a' s',
      agent.Run ctx a s = (r, a', s') -> only_queries (trace s) (trace s'))
  /\ (forall msgs response action w1,
      ctx (world s) = None ->
      querier ctx msgs (world s) = ((response, None), w1) ->
      p response = (action, None) ->
      agent.Step ctx (agent.set_messages a msgs) s
      = (Panicked,
         agent.addMessage (agent.set_messages a msgs) RoleAssistant response,
         {| world := w1; trace := trace s ++ [EvQuery msgs] |}))
  /\ (forall response action w1,
      0 < agent.MaxSteps config ->
      ctx (world s) = None ->
      querier ctx
        [ {| Role := RoleSystem; Content := agent.SystemPrompt config |};
          {| Role := RoleUser; Content := agent.UserPrompt config |} ]
        (world s) = ((response, None), w1) ->
      p response = (action, None) ->
      fst (fst (agent.Run ctx a s)) = Panicked).
Proof.
  intros a. split; [|split].
  - intros r a' s'. unfold agent.Run.
    apply agent_Run_loop_without_writer. reflexivity.
  - intros msgs response action w1 Hc Hq Hp. unfold agent.Step.
    cbn [agent.set_messages agent.messages agent.querier agent.parser
         agent.config agent.executor agent.output agent.step a
         agent.NewWithComponents].
    rewrite Hc, Hq, Hp. reflexivity.
  - intros response action w1 Hm Hc Hq Hp. unfold agent.Run.
    change (agent.MaxSteps (agent.config _)) with (agent.MaxSteps config).
    destruct (Z.to_nat (agent.MaxSteps config)) as [|k] eqn:Ek; [lia|].
    cbn [agent.Run_loop]. unfold agent.Run_body, agent.Step.
    cbn [agent.set_messages agent.messages agent.querier agent.parser
         agent.config agent.executor agent.output agent.step a
         agent.NewWithComponents agent.addMessage agent.set_step app].
    rewrite Hc, Hq, Hp. reflexivity.
Qed.

Lemma NewWithComponents_never_executes_witness :
  fst (fst (agent.Run examples.live examples2.components_agent examples.start))
  = Panicked
  /\ trace (snd (agent.Run examples.live examples2.components_agent
                   examples.start))
     = [ EvQuery [ {| Role := RoleSystem; Content := wise.DefaultSystemPrompt |};
                   {| Role := RoleUser; Content := str "list the files" |} ] ].
Proof.
  split.
  - exact (proj2 (proj2 (NewWithComponents_never_executes unit
             {| agent.SystemPrompt := wise.DefaultSystemPrompt;
                agent.UserPrompt := str "list the files";
                agent.MaxSteps := 3 |}
             (examples.model_always examples.ls_response) parser.ParseAction
             (examples.env_always examples.ls_stdout) examples.live
             examples.start))
           examples.ls_response
           {| Type_ := ActionTypeBash; Command := str "ls" |} tt
           eq_refl eq_refl eq_refl eq_refl).
  - reflexivity.
Defined.

(** X16.  In package agent, when every step of the agent returns a response
    without an error, Run with a budget of n steps (n positive) is the loop
    that runs n - 1 steps from the two-message history, followed by one more
    step from the agent and the system that loop ends with: Run returns the
    step limit signal together with the response of that last step, the
    agent that step leaves with its counter raised, and the system it
    leaves; the model has been asked once in each step, n - 1 times before
    the last step. *)
Theorem agent_Run_returns_last_response
  (W : Type) (ctx : context W) (a : @agent.BaseAgent W) (s : Sys W) :
  (forall b s0, agent_same_setup b a ->
     exists response b' s',
       agent.Step ctx b s0 = (Returned response None, b', s')) ->
  0 < agent.MaxSteps (agent.config a) ->
  let n := Z.to_nat (agent.MaxSteps (agent.config a)) in
  let init :=
    agent.set_step
      (agent.addMessage
         (agent.addMessage (agent.set_messages a []) RoleSystem
            (agent.SystemPrompt (agent.config a)))
         RoleUser (agent.UserPrompt (agent.config a))) 0 in
  exists last b s0 r b1 s',
    agent.Run_loop ctx (n - 1) init s []
    = (Returned last (Some step_limit_signal), b, s0)
    /\ agent.Step ctx b s0 = (Returned r None, b1, s')
    /\ agent.Run ctx a s
       = (Returned r (Some step_limit_signal),
          agent.set_step b1 (agent.step b1 + 1), s')
    /\ queries (trace s0) = (queries (trace s) + (n - 1))%nat
    /\ queries (trace s') = (queries (trace s) + n)%nat.
Proof.
  intros Hstep Hm n init.
  destruct (agent_Run_loop_snoc ctx a Hstep (n - 1) init s [])
    as (last & b & s0 & r & b1 & s' & HR & _ & HS & HR' & HQ0 & HQ').
  { repeat split. }
  exists last, b, s0, r, b1, s'.
  split; [exact HR|]. split; [exact HS|].
  assert (En : S (n - 1) = n) by (unfold n; lia).
  rewrite En in HR', HQ'.
  split; [exact HR'|]. split; [exact HQ0 | exact HQ'].
Qed.

Lemma agent_Run_returns_last_response_witness :
  fst (fst (agent.Step examples.live
              (agent.set_step
                 (agent.addMessage
                    (agent.addMessage
                       (agent.set_messages examples2.varied_BaseAgent [])
                       RoleSystem wise.DefaultSystemPrompt)
                    RoleUser (str "list the files")) 0)
              examples.start))
  = Returned (examples.fenced (str "ls")) None
  /\ exists a' s',
       agent.Run examples.live examples2.varied_BaseAgent examples.start
       = (Returned (examples.fenced (str "pwd")) (Some step_limit_signal),
          a', s')
       /\ queries (trace s') = 3%nat.
Proof.
  split; [reflexivity|].
  destruct (agent_Run_returns_last_response unit examples.live
              examples2.varied_BaseAgent examples.start)
    as (last & b & s0 & r & b1 & s' & _ & _ & HR & _ & HQ).
  - intros [c q p e o ms st] s0 (Hc & Hq & Hp & He & Ho).
    cbn in Hc, Hq, Hp, He, Ho. subst.
    unfold agent.Step. cbn [agent.querier agent.messages examples.live world].
    unfold examples2.model_by_history.
    destruct (Nat.leb (List.length ms) 2); do 3 eexists; reflexivity.
  - reflexivity.
  - exists (agent.set_step b1 (agent.step b1 + 1)), s'.
    split; [|exact HQ].
    rewrite HR. f_equal. f_equal.
    assert (E : fst (fst (agent.Run examples.live examples2.varied_BaseAgent
                            examples.start))
                = Returned (examples.fenced (str "pwd"))
                    (Some step_limit_signal)) by reflexivity.
    rewrite HR in E. cbn [fst] in E. now injection E as ->.
Defined.

(** ** The model over an OpenAI-compatible API *)

Section openai_facts.
Context {W : Type}.

Lemma known_roleb_spec (m : Message) :
  known_roleb m = true <-> known_role m.
Proof.
  unfold known_roleb, known_role. split.
  - intros H. apply orb_prop in H as [H|H]; [apply orb_prop in H as [H|H]|];
      apply eqs_true in H; auto.
  - intros [H | [H | H]]; rewrite H; rewrite ?eqs_refl;
      rewrite ?orb_true_r; reflexivity.
Qed.

(** The conversion keeps the messages of the three roles, in order, and
    drops the others. *)
Lemma convert_filter (ms : list Message) :
  openai.convert ms = openai.convert (filter known_roleb ms)
  /\ Forall2 converted (filter known_roleb ms) (openai.convert ms).
Proof.
  induction ms as [|m ms [IH1 IH2]]; [split; constructor|].
  cbn [openai.convert filter].
  assert (Hk : known_roleb m
               = (eqs (Role m) RoleSystem || eqs (Role m) RoleUser
                  || eqs (Role m) RoleAssistant)) by reflexivity.
  rewrite Hk. clear Hk.
  destruct (eqs (Role m) RoleSystem) eqn:E1.
  { cbn [orb openai.convert]. rewrite E1. split; [now rewrite IH1|].
    constructor; [|exact IH2]. apply eqs_true in E1.
    repeat split; intros H; rewrite E1 in H; try reflexivity; discriminate H. }
  destruct (eqs (Role m) RoleUser) eqn:E2.
  { cbn [orb openai.convert]. rewrite E1, E2. split; [now rewrite IH1|].
    constructor; [|exact IH2]. apply eqs_true in E2.
    repeat split; intros H; rewrite E2 in H; try reflexivity; discriminate H. }
  destruct (eqs (Role m) RoleAssistant) eqn:E3.
  { cbn [orb openai.convert]. rewrite E1, E2, E3. split; [now rewrite IH1|].
    constructor; [|exact IH2]. apply eqs_true in E3.
    repeat split; intros H; rewrite E3 in H; try reflexivity; discriminate H. }
  cbn [orb]. split; assumption.
Qed.

Lemma filter_known (ms : list Message) :
  Forall known_role ms -> filter known_roleb ms = ms.
Proof.
  induction 1 as [|m ms Hm _ IH]; [reflexivity|].
  cbn [filter]. apply known_roleb_spec in Hm. now rewrite Hm, IH.
Qed.

(** A history of messages of the three roles is converted whole. *)
Lemma convert_known (ms : list Message) :
  Forall known_role ms -> Forall2 converted ms (openai.convert ms).
Proof.
  intros H. pose proof (proj2 (convert_filter ms)) as HF.
  now rewrite (filter_known ms H) in HF.
Qed.

End openai_facts.

(** X17.  Query converts the history message by message: the messages with
    role system, user or assistant are passed to the client in order, each
    with its content and the corresponding type, and a message of any other
    role is dropped without notice, so that it makes no difference to the
    answer.  Every history that Run of package wise gives to the model
    holds messages of the three roles only: it is converted whole. *)
Theorem Query_sends_whole_history
  (W : Type) (GenerateContent : @openai.Client W) (ctx : context W) :
  (forall ms,
      Forall2 converted (filter known_roleb ms) (openai.convert ms)
      /\ forall w, openai.Query GenerateContent ctx ms w
                   = openai.Query GenerateContent ctx (filter known_roleb ms) w)
  /\ (forall (a : @wise.baseAgent W) task s r a' s',
      wise.Run ctx a task s = (r, a', s') ->
      logged (fun h => Forall2 converted h (openai.convert h))
        (trace s) (trace s')).
Proof.
  split.
  - intros ms. destruct (convert_filter ms) as [H1 H2]. split; [exact H2|].
    intros w. unfold openai.Query. now rewrite <- H1.
  - intros a task s r a' s' H. unfold wise.Run in H.
    apply Run_loop_added in H.
    + destruct H as (_ & _ & HL).
      eapply logged_weaken; [|exact HL]. intros h. apply convert_known.
    + cbn. constructor; [apply known_system|].
      constructor; [apply known_user | constructor].
Qed.

Lemma Query_sends_whole_history_witness :
  List.length (openai.convert examples2.history_with_tool) = 2%nat
  /\ logged (fun h => Forall2 converted h (openai.convert h)) []
       (trace (snd (wise.Run examples.live examples.ls_agent
                      (str "list the files") examples.start))).
Proof.
  pose proof (Query_sends_whole_history unit examples2.client_silent
                examples.live) as [H1 H2].
  split.
  - destruct (H1 examples2.history_with_tool) as [HF _].
    apply Forall2_length in HF. rewrite <- HF. reflexivity.
  - destruct (wise.Run examples.live examples.ls_agent (str "list the files")
                examples.start) as [[r a'] s'] eqn:E.
    exact (H2 examples.ls_agent (str "list the files") examples.start r a' s' E).
Defined.

(** X18.  What Query makes of the answer of the client, and what the loop
    of package wise makes of it when Query is its model: the response is the
    content of the first choice; a response without choices is an error that
    the loop takes as fatal, so that Run stops at once with that error
    wrapped as a failed query; an error of the client is wrapped twice, and
    it ends the run as well unless an error of one of the kinds the loop
    looks for can be reached from it. *)
Theorem Query_failure_ends_run
  (W : Type) (GenerateContent : @openai.Client W) (ctx : context W)
  (a : @wise.baseAgent W) (s : Sys W) (last : gostring)
  (choices : list gostring) (err : option error) (w1 : W) :
  wise.model a = openai.Query GenerateContent ->
  ctx (world s) = None ->
  GenerateContent ctx (openai.convert (wise.messages a)) (world s)
  = ((choices, err), w1) ->
  let s1 := {| world := w1; trace := trace s ++ [EvQuery (wise.messages a)] |} in
  (forall c more, err = None -> choices = c :: more ->
     wise.model a ctx (wise.messages a) (world s) = ((c, None), w1))
  /\ (err = None -> choices = [] ->
      forall k,
        wise.Run_loop ctx (S k) a s last
        = (Returned []
             (Some (WrapE (str "query failed")
                      (PlainE (str "no choices returned from model")))), a, s1))
  /\ (forall e, err = Some e -> fatal e ->
      forall k,
        wise.Run_loop ctx (S k) a s last
        = (Returned []
             (Some (WrapE (str "query failed")
                      (WrapE (str "failed to generate content") e))), a, s1)).
Proof.
  intros Hm Hc Hg s1. split; [|split].
  - intros c more -> ->. rewrite Hm. unfold openai.Query. now rewrite Hg.
  - intros -> -> k. cbn [wise.Run_loop]. unfold wise.Run_body, wise.Step.
    rewrite Hc, Hm. unfold openai.Query. rewrite Hg. reflexivity.
  - intros e -> (H1 & H2 & H3) k. cbn [wise.Run_loop].
    unfold wise.Run_body, wise.Step.
    rewrite Hc, Hm. unfold openai.Query. rewrite Hg.
    cbn [As_TerminatingErr As_ProcessErr As_ExecutionError].
    now rewrite H1, H2, H3.
Qed.

Lemma Query_failure_ends_run_witness :
  fst (fst (wise.Run examples.live examples2.silent_agent
              (str "list the files") examples.start))
  = Returned []
      (Some (WrapE (str "query failed")
               (PlainE (str "no choices returned from model"))))
  /\ queries (trace (snd (wise.Run examples.live examples2.silent_agent
                            (str "list the files") examples.start))) = 1%nat.
Proof.
  pose proof (proj1 (proj2 (Query_failure_ends_run unit examples2.client_silent
                examples.live
                (wise.set_step
                   (wise.addMessage
                      (wise.addMessage
                         (wise.set_messages examples2.silent_agent [])
                         RoleSystem wise.DefaultSystemPrompt)
                      RoleUser (str "list the files")) 0)
                examples.start [] [] None tt eq_refl eq_refl eq_refl))
              eq_refl eq_refl 24%nat) as H.
  assert (E : wise.Run examples.live examples2.silent_agent
                (str "list the files") examples.start
              = wise.Run_loop examples.live 25
                  (wise.set_step
                     (wise.addMessage
                        (wise.addMessage
                           (wise.set_messages examples2.silent_agent [])
                           RoleSystem wise.DefaultSystemPrompt)
                        RoleUser (str "list the files")) 0)
                  examples.start []) by reflexivity.
  rewrite E, H. split; reflexivity.
Defined.

(** ** The task in the user prompt *)

Lemma replace_absent (old new s : gostring) :
  strings.Contains s old = false -> replace_from old new O s = s.
Proof.
  induction s as [|c r IH]; [reflexivity|].
  cbn [strings.Contains replace_from].
  destruct (strings.CutPrefix old (c :: r)); [discriminate|].
  intros H. now rewrite (IH H).
Qed.

Lemma replace_skip (old new : gostring) (p r : gostring) :
  replace_from old new (List.length p) (p ++ r) = replace_from old new O r.
Proof.
  induction p as [|c p IH]; [reflexivity|].
  cbn [List.length app replace_from]. exact IH.
Qed.

(** Text without a brace is copied. *)
Lemma replace_prose (new pre x : gostring) :
  ~ In brace pre ->
  replace_from cmd.task_placeholder new O (pre ++ x)
  = pre ++ replace_from cmd.task_placeholder new O x.
Proof.
  induction pre as [|c pre IH]; intros H; [reflexivity|].
  cbn [app replace_from].
  assert (Hc : Ascii.eqb brace c = false).
  { apply Ascii.eqb_neq. intros <-. apply H. now left. }
  unfold cmd.task_placeholder at 1.
  cbn [strings.CutPrefix str list_ascii_of_string].
  change "{"%char with brace. rewrite Hc.
  rewrite IH; [reflexivity|]. intros Hin. apply H. now right.
Qed.

(** The placeholder is replaced, and the scan goes on after it. *)
Lemma replace_placeholder (new x : gostring) :
  replace_from cmd.task_placeholder new O (cmd.task_placeholder ++ x)
  = new ++ replace_from cmd.task_placeholder new O x.
Proof.
  change (cmd.task_placeholder ++ x)
    with (brace :: str "{.Task}}" ++ x).
  cbn [replace_from].
  change (brace :: str "{.Task}}" ++ x) with (cmd.task_placeholder ++ x).
  rewrite (proj2 (CutPrefix_Some cmd.task_placeholder
                    (cmd.task_placeholder ++ x) x) eq_refl).
  change (List.length cmd.task_placeholder - 1)%nat
    with (List.length (str "{.Task}}")).
  now rewrite replace_skip.
Qed.

(** X19.  The task reaches the user prompt only through the placeholder
    {{.Task}}: a prompt without the placeholder is left as it is, so the
    task is dropped; where the placeholder follows text without a brace it
    is replaced by the task and the scan goes on after it, so every such
    occurrence is replaced and the text of the task is not scanned again: a
    prompt with one placeholder, and no other brace, becomes the text
    before it, the task (even one that holds the placeholder) and the text
    after it. *)
Theorem task_replaces_placeholder (task : gostring) :
  (forall prompt,
      strings.Contains prompt cmd.task_placeholder = false ->
      ReplaceAll prompt cmd.task_placeholder task = prompt)
  /\ (forall pre rest,
      ~ In brace pre ->
      ReplaceAll (pre ++ cmd.task_placeholder ++ rest) cmd.task_placeholder task
      = pre ++ task ++ ReplaceAll rest cmd.task_placeholder task)
  /\ (forall pre post,
      ~ In brace pre -> ~ In brace post ->
      ReplaceAll (pre ++ cmd.task_placeholder ++ post) cmd.task_placeholder task
      = pre ++ task ++ post).
Proof.
  unfold ReplaceAll. split; [|split].
  - intros prompt H. now apply replace_absent.
  - intros pre rest H. now rewrite replace_prose, replace_placeholder.
  - intros pre post H1 H2.
    rewrite replace_prose, replace_placeholder by assumption.
    rewrite <- (app_nil_r post) at 1.
    rewrite replace_prose by assumption. cbn [replace_from].
    now rewrite app_nil_r.
Qed.

Lemma task_replaces_placeholder_witness :
  ReplaceAll (str "Task: {{.Task}} (be brief)") cmd.task_placeholder
    (str "print {{.Task}}")
  = str "Task: print {{.Task}} (be brief)"
  /\ ReplaceAll (str "Do what the user asked.") cmd.task_placeholder
       (str "list the files")
     = str "Do what the user asked.".
Proof.
  destruct (task_replaces_placeholder (str "print {{.Task}}")) as (_ & _ & H).
  destruct (task_replaces_placeholder (str "list the files")) as (H0 & _).
  split.
  - apply (H (str "Task: ") (str " (be brief)")).
    + intros Hin. repeat (destruct Hin as [Hin | Hin]; [discriminate Hin|]).
      exact Hin.
    + intros Hin. repeat (destruct Hin as [Hin | Hin]; [discriminate Hin|]).
      exact Hin.
  - apply H0. reflexivity.
Defined.

(** ** Errors on the command line *)

Lemma Contains_app_r (p s sub : gostring) :
  strings.Contains s sub = true -> strings.Contains (p ++ s) sub = true.
Proof.
  intros H. induction p as [|c p IH]; [exact H|].
  cbn [app strings.Contains].
  now destruct (strings.CutPrefix sub (c :: p ++ s)).
Qed.

Lemma Contains_wrapped (prefix : gostring) (err : error) (sub : gostring) :
  strings.Contains (Error_string err) sub = true ->
  strings.Contains (Error_string (WrapE prefix err)) sub = true.
Proof.
  intros H. cbn [Error_string]. rewrite app_assoc. now apply Contains_app_r.
Qed.

(** Without the JSON flag handleError ends the process, with a status that
    is not 0, after it has written to the standard error only. *)
Lemma handleError_exits
  (f : cmd.Flags) (err : error) (context : gostring) :
  cmd.jsonOut f = false ->
  exists p code,
    cmd.handleError f err context = (p, cmd.Exit code)
    /\ code <> 0
    /\ (forall text, ~ In (cmd.ToStdout text) p)
    /\ (forall j, ~ In (cmd.JSONToStdout j) p).
Proof.
  intros Hj. unfold cmd.handleError. rewrite Hj.
  destruct (strings.Contains (Error_string err) (str "OPENROUTER_API_KEY"));
    [|destruct (strings.Contains (Error_string err) (str "OPENROUTER_BASE_URL"));
      [|destruct (strings.Contains (Error_string err) (str "permission denied"))]];
    do 2 eexists; (split; [reflexivity|]); (split; [discriminate|]);
    split; intros x Hin; cbn [In] in Hin;
    repeat (destruct Hin as [Hin | Hin]; [discriminate Hin|]); exact Hin.
Qed.

(** X20.  Without the JSON flag handleError never returns: it writes to the
    standard error and ends the process with status 2, 126 or 1, never 0.
    The status is 2 exactly when the text of the error names
    OPENROUTER_API_KEY or OPENROUTER_BASE_URL, and 126 exactly when it
    names neither and contains the words permission denied.  The text of a
    wrapped error ends with the text of its cause, so an error whose cause
    names one of the two variables gives status 2 however it is wrapped.
    With the JSON flag handleError writes nothing and returns the error. *)
Theorem handleError_exit_status
  (f : cmd.Flags) (err : error) (context : gostring) :
  let msg := Error_string err in
  let key := strings.Contains msg (str "OPENROUTER_API_KEY") in
  let url := strings.Contains msg (str "OPENROUTER_BASE_URL") in
  let denied := strings.Contains msg (str "permission denied") in
  (cmd.jsonOut f = false ->
   exists p code,
     cmd.handleError f err context = (p, cmd.Exit code)
     /\ p <> []
     /\ (code = 2 \/ code = 126 \/ code = 1)
     /\ (code = 2 <-> key = true \/ url = true)
     /\ (code = 126 <-> key = false /\ url = false /\ denied = true)
     /\ (key = true \/ url = true ->
         forall prefix,
           snd (cmd.handleError f (WrapE prefix err) context) = cmd.Exit 2))
  /\ (cmd.jsonOut f = true ->
      cmd.handleError f err context = ([], cmd.Return (Some err))).
Proof.
  intros msg key url denied. split.
  - intros Hj. unfold cmd.handleError. rewrite Hj.
    fold msg. fold key. fold url. fold denied.
    assert (Hw : key = true \/ url = true ->
                 forall prefix,
                   snd (if strings.Contains (Error_string (WrapE prefix err))
                             (str "OPENROUTER_API_KEY")
                        then ([cmd.ToStderr (str "Error: API key not configured." ++ [nl]);
                               cmd.ToStderr [nl];
                               cmd.ToStderr (str "  export OPENROUTER_API_KEY=your-api-key" ++ [nl])],
                              cmd.Exit cmd.ExitMisuse)
                        else if strings.Contains (Error_string (WrapE prefix err))
                                  (str "OPENROUTER_BASE_URL")
                        then ([cmd.ToStderr (str "Error: API base URL not configured." ++ [nl]);
                               cmd.ToStderr [nl];
                               cmd.ToStderr (str "  export OPENROUTER_BASE_URL=https://openrouter.ai/api/v1" ++ [nl])],
                              cmd.Exit cmd.ExitMisuse)
                        else if strings.Contains (Error_string (WrapE prefix err))
                                  (str "permission denied")
                        then ([cmd.ToStderr (str "Error: Permission denied during "
                                             ++ context ++ str "." ++ [nl])],
                              cmd.Exit cmd.ExitPermissionDenied)
                        else ([cmd.ToStderr (str "Error: "
                                             ++ Error_string (WrapE prefix err) ++ [nl])],
                              cmd.Exit cmd.ExitError))
                   = cmd.Exit 2).
    { intros [Hk | Hu] prefix.
      - now rewrite (Contains_wrapped prefix err _ Hk).
      - rewrite (Contains_wrapped prefix err _ Hu).
        now destruct (strings.Contains (Error_string (WrapE prefix err))
                        (str "OPENROUTER_API_KEY")). }
    destruct key eqn:Ek; [|destruct url eqn:Eu; [|destruct denied eqn:Ed]];
      do 2 eexists; (split; [reflexivity|]);
      (split; [discriminate|]);
      unfold cmd.ExitMisuse, cmd.ExitPermissionDenied, cmd.ExitError;
      (split; [auto|]);
      (split; [split; [auto; intros; discriminate | auto; intros [H|H]; discriminate]|]);
      (split; [split; [intros; try discriminate; auto
                      | intros (H1 & H2 & H3); try discriminate; auto]
              | exact Hw]).
  - intros Hj. unfold cmd.handleError. now rewrite Hj.
Qed.

Lemma handleError_exit_status_witness :
  exists p,
    cmd.handleError
      {| cmd.verbose := false; cmd.quiet := false; cmd.jsonOut := false |}
      (WrapE (str "query failed")
         (WrapE (str "failed to generate content")
            (PlainE (str "open /etc/key: permission denied"))))
      (str "running agent")
    = (p, cmd.Exit 126).
Proof.
  destruct (proj1 (handleError_exit_status
              {| cmd.verbose := false; cmd.quiet := false; cmd.jsonOut := false |}
              (WrapE (str "query failed")
                 (WrapE (str "failed to generate content")
                    (PlainE (str "open /etc/key: permission denied"))))
              (str "running agent")) eq_refl)
    as (p & code & HE & _ & _ & _ & H126 & _).
  exists p. rewrite HE. f_equal. f_equal.
  apply (proj2 H126). repeat split.
Defined.

(** ** Loading the configuration *)

(** X21.  A configuration that LoadConfig returns has passed Validate: the
    API key and the base URL are not empty, the two prompts are not blank,
    and the working directory, when one is given, exists; its writer is
    io.Discard.  Of the fields found in both places, the value of the
    environment is taken unless it equals the built-in default and the file
    gives a value (a model that is not empty, a positive number of steps):
    then the value of the file is taken, also when the environment sets the
    default value on purpose.  A number of steps that is zero or negative
    can only come from the environment, and LoadConfig does not refuse it.
    The command timeout of the file is parsed before anything is
    validated: when it is consulted (it is not empty and the timeout of the
    environment is thirty seconds) and does not parse, LoadConfig fails
    with the error of the parser wrapped as an invalid command_timeout,
    whatever the API key and the base URL are.  Otherwise (the timeout of
    the file is empty, or not consulted, or parses), when the API key or
    the base URL is empty LoadConfig fails with an error that names the
    variable, for which handleError, without the JSON flag, ends the
    process with status 2. *)
Theorem LoadConfig_guarantees
  (envCfg : agent_config.EnvConfig + error)
  (userCfg : agent_config.UserConfig + error)
  (ParseDuration : gostring -> Z + error) (Stat : gostring -> bool) :
  (forall c,
      agent_config.LoadConfig envCfg userCfg ParseDuration Stat = inl c ->
      exists e u,
        envCfg = inl e /\ userCfg = inl u
        /\ agent_config.APIKey c = agent_config.env_APIKey e
        /\ agent_config.APIKey c <> []
        /\ agent_config.BaseURL c = agent_config.env_BaseURL e
        /\ agent_config.BaseURL c <> []
        /\ agent_config.SystemPrompt c = agent_config.user_SystemPrompt u
        /\ strings.TrimSpace (agent_config.SystemPrompt c) <> []
        /\ agent_config.UserPrompt c = agent_config.user_UserPrompt u
        /\ strings.TrimSpace (agent_config.UserPrompt c) <> []
        /\ (agent_config.WorkingDir c <> [] ->
            Stat (agent_config.WorkingDir c) = true)
        /\ agent_config.Output_ c = Some io_Discard
        /\ agent_config.Model_ c
           = (if negb (eqs (agent_config.user_Model u) [])
                 && eqs (agent_config.env_Model e) agent_config.default_Model
              then agent_config.user_Model u else agent_config.env_Model e)
        /\ agent_config.MaxSteps c
           = (if (0 <? agent_config.user_MaxSteps u)
                 && (agent_config.env_MaxSteps e =? 25)
              then agent_config.user_MaxSteps u else agent_config.env_MaxSteps e)
        /\ (agent_config.MaxSteps c <= 0 ->
            agent_config.MaxSteps c = agent_config.env_MaxSteps e)
        /\ (agent_config.env_CommandTimeout e <> agent_config.thirty_seconds ->
            agent_config.CommandTimeout c = agent_config.env_CommandTimeout e))
  /\ (forall e u,
      envCfg = inl e -> userCfg = inl u ->
      agent_config.env_APIKey e = [] \/ agent_config.env_BaseURL e = [] ->
      (agent_config.user_CommandTimeout u = []
       \/ agent_config.env_CommandTimeout e <> agent_config.thirty_seconds
       \/ exists d, ParseDuration (agent_config.user_CommandTimeout u) = inl d) ->
      exists err,
        agent_config.LoadConfig envCfg userCfg ParseDuration Stat = inr err
        /\ forall f context,
             cmd.jsonOut f = false ->
             snd (cmd.handleError f err context) = cmd.Exit 2)
  /\ (forall e u cause,
      envCfg = inl e -> userCfg = inl u ->
      agent_config.user_CommandTimeout u <> [] ->
      agent_config.env_CommandTimeout e = agent_config.thirty_seconds ->
      ParseDuration (agent_config.user_CommandTimeout u) = inr cause ->
      agent_config.LoadConfig envCfg userCfg ParseDuration Stat
      = inr (WrapE (str "invalid command_timeout in config.toml") cause)).
Proof.
  split; [|split].
  - intros c. unfold agent_config.LoadConfig.
    destruct envCfg as [e|err]; [|discriminate].
    destruct userCfg as [u|err]; [|discriminate].
    set (model := if negb (eqs (agent_config.user_Model u) [])
                     && eqs (agent_config.env_Model e) agent_config.default_Model
                  then agent_config.user_Model u else agent_config.env_Model e).
    set (steps := if (0 <? agent_config.user_MaxSteps u)
                     && (agent_config.env_MaxSteps e =? agent_config.default_MaxSteps)
                  then agent_config.user_MaxSteps u
                  else agent_config.env_MaxSteps e).
    assert (Hfinish : forall t,
      match agent_config.Validate Stat
              {| agent_config.APIKey := agent_config.env_APIKey e;
                 agent_config.BaseURL := agent_config.env_BaseURL e;
                 agent_config.Env := agent_config.env_Env e;
                 agent_config.Model_ := model;
                 agent_config.MaxSteps := steps;
                 agent_config.CommandTimeout := t;
                 agent_config.SystemPrompt := agent_config.user_SystemPrompt u;
                 agent_config.UserPrompt := agent_config.user_UserPrompt u;
                 agent_config.WorkingDir := agent_config.user_WorkingDir u;
                 agent_config.Output_ := Some io_Discard;
                 agent_config.LogLevel := [] |} with
      | Some err => inr (WrapE (str "invalid config") err)
      | None =>
          inl {| agent_config.APIKey := agent_config.env_APIKey e;
                 agent_config.BaseURL := agent_config.env_BaseURL e;
                 agent_config.Env := agent_config.env_Env e;
                 agent_config.Model_ := model;
                 agent_config.MaxSteps := steps;
                 agent_config.CommandTimeout := t;
                 agent_config.SystemPrompt := agent_config.user_SystemPrompt u;
                 agent_config.UserPrompt := agent_config.user_UserPrompt u;
                 agent_config.WorkingDir := agent_config.user_WorkingDir u;
                 agent_config.Output_ := Some io_Discard;
                 agent_config.LogLevel := [] |}
      end = inl c ->
      agent_config.CommandTimeout c = t
      /\ agent_config.APIKey c = agent_config.env_APIKey e
      /\ agent_config.APIKey c <> []
      /\ agent_config.BaseURL c = agent_config.env_BaseURL e
      /\ agent_config.BaseURL c <> []
      /\ agent_config.SystemPrompt c = agent_config.user_SystemPrompt u
      /\ strings.TrimSpace (agent_config.SystemPrompt c) <> []
      /\ agent_config.UserPrompt c = agent_config.user_UserPrompt u
      /\ strings.TrimSpace (agent_config.UserPrompt c) <> []
      /\ (agent_config.WorkingDir c <> [] ->
          Stat (agent_config.WorkingDir c) = true)
      /\ agent_config.Output_ c = Some io_Discard
      /\ agent_config.Model_ c = model
      /\ agent_config.MaxSteps c = steps).
    { intros t. unfold agent_config.Validate.
      cbn [agent_config.APIKey agent_config.BaseURL agent_config.SystemPrompt
           agent_config.UserPrompt agent_config.WorkingDir].
      destruct (eqs (agent_config.env_APIKey e) []) eqn:E1; [discriminate|].
      destruct (eqs (agent_config.env_BaseURL e) []) eqn:E2; [discriminate|].
      destruct (eqs (strings.TrimSpace (agent_config.user_SystemPrompt u)) [])
        eqn:E3; [discriminate|].
      destruct (eqs (strings.TrimSpace (agent_config.user_UserPrompt u)) [])
        eqn:E4; [discriminate|].
      destruct (negb (eqs (agent_config.user_WorkingDir u) [])
                && negb (Stat (agent_config.user_WorkingDir u))) eqn:E5;
        [discriminate|].
      intros H. injection H as <-.
      cbn [agent_config.APIKey agent_config.BaseURL agent_config.SystemPrompt
           agent_config.UserPrompt agent_config.WorkingDir agent_config.Output_
           agent_config.Model_ agent_config.MaxSteps agent_config.CommandTimeout].
      apply eqs_false in E1, E2, E3, E4.
      repeat split; auto.
      intros Hw. apply andb_false_iff in E5 as [E5 | E5].
      - apply negb_false_iff, eqs_true in E5. contradiction.
      - now apply negb_false_iff in E5. }
    assert (Hsteps : steps <= 0 -> steps = agent_config.env_MaxSteps e).
    { unfold steps. destruct (0 <? agent_config.user_MaxSteps u) eqn:E0;
        [|reflexivity].
      destruct (agent_config.env_MaxSteps e =? agent_config.default_MaxSteps);
        [|reflexivity].
      cbn [andb]. apply Z.ltb_lt in E0. lia. }
    destruct (negb (eqs (agent_config.user_CommandTimeout u) [])
              && (agent_config.env_CommandTimeout e
                  =? agent_config.thirty_seconds)) eqn:Et.
    + destruct (ParseDuration (agent_config.user_CommandTimeout u)) as [d|err];
        [|discriminate].
      intros H. apply Hfinish in H.
      destruct H as (Ht & H1 & H2 & H3 & H4 & H5 & H6 & H7 & H8 & H9 & H10
                     & H11 & H12).
      exists e, u. repeat split; auto.
      * rewrite H12. exact Hsteps.
      * intros Hne. apply andb_prop in Et as [_ Et].
        apply Z.eqb_eq in Et. contradiction.
    + intros H. apply Hfinish in H.
      destruct H as (Ht & H1 & H2 & H3 & H4 & H5 & H6 & H7 & H8 & H9 & H10
                     & H11 & H12).
      exists e, u. repeat split; auto.
      rewrite H12. exact Hsteps.
  - intros e u -> -> Hempty Htime. unfold agent_config.LoadConfig.
    assert (Hv : forall t m n,
      exists err,
        agent_config.Validate Stat
          {| agent_config.APIKey := agent_config.env_APIKey e;
             agent_config.BaseURL := agent_config.env_BaseURL e;
             agent_config.Env := agent_config.env_Env e;
             agent_config.Model_ := m;
             agent_config.MaxSteps := n;
             agent_config.CommandTimeout := t;
             agent_config.SystemPrompt := agent_config.user_SystemPrompt u;
             agent_config.UserPrompt := agent_config.user_UserPrompt u;
             agent_config.WorkingDir := agent_config.user_WorkingDir u;
             agent_config.Output_ := Some io_Discard;
             agent_config.LogLevel := [] |} = Some err
        /\ (strings.Contains (Error_string err) (str "OPENROUTER_API_KEY") = true
            \/ strings.Contains (Error_string err) (str "OPENROUTER_BASE_URL")
               = true)).
    { intros t m n. unfold agent_config.Validate.
      cbn [agent_config.APIKey agent_config.BaseURL].
      destruct (eqs (agent_config.env_APIKey e) []) eqn:E1.
      - eexists. split; [reflexivity|]. left. reflexivity.
      - destruct Hempty as [Hk | Hu]; [rewrite Hk in E1; discriminate|].
        rewrite Hu. eexists. split; [reflexivity|]. right. reflexivity. }
    assert (Hexit : forall err,
      strings.Contains (Error_string err) (str "OPENROUTER_API_KEY") = true
      \/ strings.Contains (Error_string err) (str "OPENROUTER_BASE_URL") = true ->
      forall f context,
        cmd.jsonOut f = false ->
        snd (cmd.handleError f (WrapE (str "invalid config") err) context)
        = cmd.Exit 2).
    { intros err Hc f context Hj. unfold cmd.handleError. rewrite Hj.
      destruct Hc as [Hk | Hu].
      - now rewrite (Contains_wrapped _ err _ Hk).
      - rewrite (Contains_wrapped _ err _ Hu).
        now destruct (strings.Contains _ (str "OPENROUTER_API_KEY")). }
    destruct (negb (eqs (agent_config.user_CommandTimeout u) [])
              && (agent_config.env_CommandTimeout e
                  =? agent_config.thirty_seconds)) eqn:Et.
    + apply andb_prop in Et as [Et1 Et2].
      destruct Htime as [H | [H | [d Hd]]].
      * rewrite H in Et1. discriminate.
      * apply Z.eqb_eq in Et2. contradiction.
      * rewrite Hd.
        match goal with
        | |- context [agent_config.Validate Stat ?c] =>
            destruct (Hv d (agent_config.Model_ c) (agent_config.MaxSteps c))
              as (err & HV & Hc)
        end.
        cbn [agent_config.Model_ agent_config.MaxSteps] in HV. rewrite HV.
        eexists. split; [reflexivity|]. now apply Hexit.
    + match goal with
      | |- context [agent_config.Validate Stat ?c] =>
          destruct (Hv (agent_config.CommandTimeout c) (agent_config.Model_ c)
                      (agent_config.MaxSteps c)) as (err & HV & Hc)
      end.
      cbn [agent_config.Model_ agent_config.MaxSteps agent_config.CommandTimeout]
        in HV. rewrite HV.
      eexists. split; [reflexivity|]. now apply Hexit.
  - intros e u cause -> -> Hne Henv Hparse. unfold agent_config.LoadConfig.
    apply eqs_false in Hne. rewrite Hne, Henv, Z.eqb_refl. cbn [negb andb].
    now rewrite Hparse.
Qed.

Lemma LoadConfig_guarantees_witness :
  (exists c,
      agent_config.LoadConfig (inl examples2.env_zero_steps)
        (inl examples2.config_toml) examples2.no_duration examples2.any_dir
      = inl c
      /\ agent_config.MaxSteps c = 0
      /\ agent_config.Model_ c = str "openai/gpt-4o")
  /\ (exists err,
         agent_config.LoadConfig (inl examples2.env_no_key)
           (inl examples2.config_toml) examples2.no_duration examples2.any_dir
         = inr err
         /\ snd (cmd.handleError
                   {| cmd.verbose := false; cmd.quiet := false;
                      cmd.jsonOut := false |} err (str "loading config"))
            = cmd.Exit 2)
  /\ (agent_config.LoadConfig (inl examples2.env_no_key)
        (inl examples2.config_toml_bad_timeout) examples2.no_duration
        examples2.any_dir
      = inr (WrapE (str "invalid command_timeout in config.toml")
               (PlainE (str "time: invalid duration")))
      /\ snd (cmd.handleError
                {| cmd.verbose := false; cmd.quiet := false;
                   cmd.jsonOut := false |}
                (WrapE (str "invalid command_timeout in config.toml")
                   (PlainE (str "time: invalid duration")))
                (str "loading config"))
         = cmd.Exit 1).
Proof.
  split; [|split].
  - destruct (agent_config.LoadConfig (inl examples2.env_zero_steps)
                (inl examples2.config_toml) examples2.no_duration
                examples2.any_dir) as [c|err] eqn:E; [|discriminate E].
    exists c. split; [reflexivity|].
    destruct (proj1 (LoadConfig_guarantees (inl examples2.env_zero_steps)
                (inl examples2.config_toml) examples2.no_duration
                examples2.any_dir) c E)
      as (e & u & He & Hu & _ & _ & _ & _ & _ & _ & _ & _ & _ & _ & Hm & Hs & _).
    injection He as <-. injection Hu as <-.
    rewrite Hm, Hs. split; reflexivity.
  - destruct (proj1 (proj2 (LoadConfig_guarantees (inl examples2.env_no_key)
                (inl examples2.config_toml) examples2.no_duration
                examples2.any_dir)) examples2.env_no_key examples2.config_toml
                eq_refl eq_refl (or_introl eq_refl) (or_introl eq_refl))
      as (err & HE & Hx).
    exists err. split; [exact HE|]. now apply Hx.
  - split; [|reflexivity].
    apply (proj2 (proj2 (LoadConfig_guarantees (inl examples2.env_no_key)
             (inl examples2.config_toml_bad_timeout) examples2.no_duration
             examples2.any_dir)) examples2.env_no_key
             examples2.config_toml_bad_timeout
             (PlainE (str "time: invalid duration")) eq_refl eq_refl).
    + discriminate.
    + reflexivity.
    + reflexivity.
Defined.

(** ** The agent of the command line *)

Section agent_no_panic.
Context {W : Type}.
Implicit Types (a : @agent.BaseAgent W) (s : Sys W) (ctx : context W).

Lemma agent_Step_no_panic ctx a s :
  agent.parser a <> None -> agent.output a <> None ->
  fst (fst (agent.Step ctx a s)) <> Panicked.
Proof.
  intros Hp Ho. unfold agent.Step.
  destruct (ctx (world s)); [discriminate|].
  destruct (agent.querier a ctx (agent.messages a) (world s))
    as [[response [e|]] w1]; [discriminate|].
  destruct (agent.parser a) as [p|]; [|contradiction].
  destruct (p response) as [action [e|]]; [discriminate|].
  change (agent.output (agent.addMessage a RoleAssistant response))
    with (agent.output a).
  destruct (agent.output a) as [wr|]; [|contradiction].
  destruct wr; cbn [Fprint];
    (destruct (agent.executor _ ctx action _) as [[o [e|]] w3];
     [discriminate|]);
    destruct (negb (isTaskComplete o)
              && negb (eqs (strings.TrimSpace (Stdout o)) []));
    destruct (isTaskComplete o); discriminate.
Qed.

Lemma agent_Run_loop_no_panic ctx n : forall a s last,
  agent.parser a <> None -> agent.output a <> None ->
  fst (fst (agent.Run_loop ctx n a s last)) <> Panicked.
Proof.
  induction n as [|n IH]; intros a s last Hp Ho; [discriminate|].
  cbn [agent.Run_loop]. unfold agent.Run_body.
  pose proof (agent_Step_no_panic ctx a s Hp Ho) as HS.
  destruct (agent.Step ctx a s) as [[r a1] s1] eqn:ES.
  destruct (agent_Step_setup _ _ _ _ _ _ ES) as (_ & _ & Hp1 & _ & Ho1).
  destruct r as [response [err|]|]; [| |now cbn in HS].
  - destruct (As_TerminatingErr err); [discriminate|].
    destruct (As_ProcessErr err); [|discriminate].
    apply IH; cbn; congruence.
  - apply IH; cbn; congruence.
Qed.

End agent_no_panic.

(** X22.  The executor of NewBashExecutor without options has a positive
    timeout (thirty seconds when the given one is zero or negative) and the
    default validator; an option is applied after that, so the timeout of
    WithTimeout is taken as it is, also when it is zero or negative, and
    the last option wins.  The agent of NewWithConfig has a parser and a
    writer, so that neither Step nor Run panics for want of one; its
    executor is that of NewBashExecutor without options: it refuses every
    command that the default validator refuses, with the error of the
    validator and the zero Output, without starting a process. *)
Theorem NewWithConfig_agent
  (W : Type) (fmt : Fmt)
  (openai_New : gostring -> gostring -> gostring -> @openai.Client W + error)
  (launch : Launcher W) (defaultValidator : CommandValidator)
  (config : agent_config.Config) :
  let e := agent_new.NewBashExecutor defaultValidator
             (agent_config.CommandTimeout config)
             (agent_config.WorkingDir config) [] in
  (0 < agent_executor.timeout e
   /\ agent_executor.timeout e
      = (if agent_config.CommandTimeout config <=? 0
         then agent_config.thirty_seconds
         else agent_config.CommandTimeout config)
   /\ agent_executor.validator e = Some defaultValidator)
  /\ (forall t dir opts d,
      agent_executor.timeout
        (agent_new.NewBashExecutor defaultValidator t dir
           (opts ++ [agent_new.WithTimeout d])) = d
      /\ agent_executor.validator
           (agent_new.NewBashExecutor defaultValidator t dir
              (opts ++ [agent_new.WithoutValidation])) = None)
  /\ (forall a,
      agent_new.NewWithConfig openai_New launch defaultValidator config = inl a ->
      agent.executor a = agent_new.agent_env launch e
      /\ agent.config a = agent_config.loop_config config
      /\ (forall ctx s, fst (fst (agent.Step ctx a s)) <> Panicked)
      /\ (forall ctx s, fst (fst (agent.Run ctx a s)) <> Panicked)
      /\ (forall ctx action w err,
          Type_ action = ActionTypeBash ->
          defaultValidator (Command action) = Some err ->
          agent.executor a ctx action w = ((Output_zero, Some err), w))).
Proof.
  intros e. split; [|split].
  - unfold e, agent_new.NewBashExecutor. cbn [fold_left agent_executor.timeout
      agent_executor.validator].
    split; [|split; reflexivity].
    destruct (agent_config.CommandTimeout config <=? 0) eqn:E.
    + reflexivity.
    + apply Z.leb_gt in E. exact E.
  - intros t dir opts d. unfold agent_new.NewBashExecutor.
    rewrite !fold_left_app. split; reflexivity.
  - intros a. unfold agent_new.NewWithConfig.
    destruct (agent_new.NewOpenAIQuerier openai_New config) as [client|err];
      [|discriminate].
    intros H. injection H as <-.
    split; [reflexivity|]. split; [reflexivity|].
    split; [|split].
    + intros ctx s. apply agent_Step_no_panic; discriminate.
    + intros ctx s. unfold agent.Run.
      apply agent_Run_loop_no_panic; discriminate.
    + intros ctx action w err Ht Hv.
      cbn [agent.executor]. unfold agent_new.agent_env, agent_executor.Execute.
      apply eqs_true in Ht. rewrite Ht. cbn [negb].
      change (agent_executor.validator
                (agent_new.NewBashExecutor defaultValidator
                   (agent_config.CommandTimeout config)
                   (agent_config.WorkingDir config) []))
        with (Some defaultValidator).
      cbv iota. rewrite Hv. reflexivity.
Qed.

Lemma NewWithConfig_agent_witness :
  exists a,
    examples2.NewWithConfig_ls
      {| agent_config.APIKey := str "sk-1";
         agent_config.BaseURL := str "https://openrouter.ai/api/v1";
         agent_config.Env := str "dev";
         agent_config.Model_ := agent_config.default_Model;
         agent_config.MaxSteps := 2;
         agent_config.CommandTimeout := 0;
         agent_config.SystemPrompt := str "You run bash commands.";
         agent_config.UserPrompt := str "Task: list the files";
         agent_config.WorkingDir := [];
         agent_config.Output_ := None;
         agent_config.LogLevel := str "warn" |} = inl a
    /\ fst (agent.executor a examples.live
              {| Type_ := ActionTypeBash; Command := str "sudo shutdown now" |} tt)
       = (Output_zero,
          Some (@blocked_by examples.plain_fmt (examples.literal (str "shutdown")))).
Proof.
  eexists. split; [reflexivity|].
  match goal with
  | |- fst (agent.executor ?a _ _ _) = _ =>
      pose proof (proj2 (proj2 (NewWithConfig_agent unit examples.plain_fmt
        (examples2.openai_New_always examples.ls_response)
        (examples.launch_always examples2.listed) examples2.default_validator
        {| agent_config.APIKey := str "sk-1";
           agent_config.BaseURL := str "https://openrouter.ai/api/v1";
           agent_config.Env := str "dev";
           agent_config.Model_ := agent_config.default_Model;
           agent_config.MaxSteps := 2;
           agent_config.CommandTimeout := 0;
           agent_config.SystemPrompt := str "You run bash commands.";
           agent_config.UserPrompt := str "Task: list the files";
           agent_config.WorkingDir := [];
           agent_config.Output_ := None;
           agent_config.LogLevel := str "warn" |})) a eq_refl) as H
  end.
  destruct H as (_ & _ & _ & _ & H).
  rewrite (H examples.live
             {| Type_ := ActionTypeBash; Command := str "sudo shutdown now" |} tt
             (@blocked_by examples.plain_fmt (examples.literal (str "shutdown")))
             eq_refl eq_refl).
  reflexivity.
Defined.

(** X23.  What runAgent does with the outcome of the run.  Without a task
    (no argument or a dash, and nothing usable on the standard input) it
    ends the process with status 2 before the configuration is loaded; the
    system is untouched.  Once the agent has run and returned: with the
    JSON flag the command prints the result as JSON, with success false and
    the text of the error when the run returned an error, and returns nil,
    so that the status of the process is 0 also for a failed run; without
    the flag an error of the run ends the process with a status that is not
    0, and nothing is printed on the standard output; for the step limit
    signal that status is 1 and the last response is not printed; and a run
    without error prints the response, or Done. when the response is
    empty, unless the command is quiet, and the status is 0. *)
Theorem runAgent_exit_status
  (W : Type) (f : cmd.Flags) (args : list gostring) (stdin : cmd.Stdin)
  (LoadConfig : agent_config.Config + error)
  (NewWithConfig : agent_config.Config -> @agent.BaseAgent W + error)
  (s : Sys W) :
  (snd (cmd.getTask args stdin) = [] ->
   exists p,
     cmd.runAgent f args stdin LoadConfig NewWithConfig s = (p, cmd.Exit 2, s))
  /\ (forall p0 task cfg a r response err a' s',
      cmd.getTask args stdin = (p0, task) ->
      task <> [] ->
      LoadConfig = inl cfg ->
      NewWithConfig (cmd.prepare f task cfg) = inl a ->
      agent.Run cmd.Background a s = (r, a', s') ->
      r = Returned response err ->
      let res := cmd.runAgent f args stdin LoadConfig NewWithConfig s in
      snd res = s'
      /\ (cmd.jsonOut f = true ->
          fst res
          = (p0 ++ [cmd.JSONToStdout
                      {| cmd.Success := match err with
                                        | None => true
                                        | Some _ => false
                                        end;
                         cmd.Task := task;
                         cmd.Response := response;
                         cmd.Error_ := match err with
                                       | Some e => Error_string e
                                       | None => []
                                       end |}],
             cmd.Return None)
          /\ cmd.Execute (snd (fst res)) = 0)
      /\ (cmd.jsonOut f = false ->
          (forall e, err = Some e ->
             exists p code,
               fst res = (p0 ++ p, cmd.Exit code) /\ code <> 0
               /\ (forall text, ~ In (cmd.ToStdout text) p)
               /\ (forall j, ~ In (cmd.JSONToStdout j) p))
          /\ (err = Some step_limit_signal ->
              fst res
              = (p0 ++ [cmd.ToStderr (str "Error: terminating: step_limit" ++ [nl])],
                 cmd.Exit 1))
          /\ (err = None ->
              fst res
              = (p0 ++ (if cmd.quiet f then []
                        else if eqs response [] then [cmd.ToStdout (str "Done." ++ [nl])]
                        else [cmd.ToStdout (response ++ [nl])]),
                 cmd.Return None)))).
Proof.
  split.
  - unfold cmd.runAgent. destruct (cmd.getTask args stdin) as [p0 task].
    cbn [snd]. intros ->. cbn [eqs]. eexists. reflexivity.
  - intros p0 task cfg a r response err a' s' Hg Ht Hl Hn HR -> res.
    assert (Hres : res
      = (if cmd.jsonOut f then
           let '(p, e) := cmd.outputJSON task response err in (p0 ++ p, e, s')
         else
           match err with
           | Some err =>
               let '(p, e) := cmd.handleError f err (str "running agent") in
               (p0 ++ p, e, s')
           | None =>
               if negb (cmd.quiet f) then
                 if negb (eqs response []) then
                   (p0 ++ [cmd.ToStdout (response ++ [nl])], cmd.Return None, s')
                 else
                   (p0 ++ [cmd.ToStdout (str "Done." ++ [nl])], cmd.Return None, s')
               else (p0, cmd.Return None, s')
           end)).
    { unfold res, cmd.runAgent. rewrite Hg.
      apply eqs_false in Ht. rewrite Ht, Hl, Hn, HR. reflexivity. }
    rewrite Hres. clear Hres res.
    destruct (cmd.jsonOut f) eqn:Hj.
    + cbn [cmd.outputJSON]. split; [reflexivity|].
      split; [intros _; split; reflexivity | discriminate].
    + split.
      { destruct err as [e|].
        - destruct (cmd.handleError f e (str "running agent")); reflexivity.
        - destruct (negb (cmd.quiet f)); [destruct (negb (eqs response []))|];
            reflexivity. }
      split; [discriminate|]. intros _. split; [|split].
      * intros e ->.
        destruct (handleError_exits f e (str "running agent") Hj)
          as (p & code & HE & Hc & Hp).
        rewrite HE. exists p, code. split; [reflexivity|].
        split; [exact Hc | exact Hp].
      * intros ->. unfold cmd.handleError. rewrite Hj. reflexivity.
      * intros ->. destruct (cmd.quiet f); cbn [negb].
        -- now rewrite app_nil_r.
        -- now destruct (eqs response []).
Qed.

Lemma runAgent_exit_status_witness :
  cmd.Execute
    (snd (fst (cmd.runAgent examples2.json_flags [str "list the files"]
                 cmd.Terminal examples2.loaded_two_steps
                 examples2.NewWithConfig_ls examples.start))) = 0
  /\ fst (cmd.runAgent examples2.plain_flags [str "list the files"]
            cmd.Terminal examples2.loaded_two_steps
            examples2.NewWithConfig_ls examples.start)
     = ([cmd.ToStderr (str "Error: terminating: step_limit" ++ [nl])],
        cmd.Exit 1).
Proof.
  assert (Hrun : forall f,
    exists cfg a a' s',
      examples2.loaded_two_steps = inl cfg
      /\ examples2.NewWithConfig_ls (cmd.prepare f (str "list the files") cfg)
         = inl a
      /\ agent.Run cmd.Background a examples.start
         = (Returned examples.ls_response (Some step_limit_signal), a', s')).
  { intros [v [|] j]; do 4 eexists; (split; [reflexivity|]);
      split; reflexivity. }
  split.
  - destruct (Hrun examples2.json_flags) as (cfg & a & a' & s' & Hl & Hn & HR).
    exact (proj2 (proj1 (proj2 (proj2 (runAgent_exit_status unit
             examples2.json_flags [str "list the files"] cmd.Terminal
             examples2.loaded_two_steps examples2.NewWithConfig_ls
             examples.start) [] (str "list the files") cfg a _
             examples.ls_response (Some step_limit_signal) a' s'
             eq_refl ltac:(discriminate) Hl Hn HR eq_refl)) eq_refl)).
  - destruct (Hrun examples2.plain_flags) as (cfg & a & a' & s' & Hl & Hn & HR).
    exact (proj1 (proj2 (proj2 (proj2 (proj2 (runAgent_exit_status unit
             examples2.plain_flags [str "list the files"] cmd.Terminal
             examples2.loaded_two_steps examples2.NewWithConfig_ls
             examples.start) [] (str "list the files") cfg a _
             examples.ls_response (Some step_limit_signal) a' s'
             eq_refl ltac:(discriminate) Hl Hn HR eq_refl)) eq_refl)) eq_refl).
Defined.

(** ** Construction of the blocklist *)

Section blocklist_facts.
Context {fmt : Fmt}.
Variable Compile : gostring -> Regexp + error.

Lemma compile_all_ok (ps : list gostring) (res : list Regexp) :
  blocklist.compile_all Compile ps = inl res ->
  Forall2 (fun p re => Compile p = inl re) ps res.
Proof.
  revert res. induction ps as [|p ps IH]; intros res; cbn [blocklist.compile_all].
  - intros H. injection H as <-. constructor.
  - destruct (Compile p) as [re|err] eqn:Ep; [|discriminate].
    destruct (blocklist.compile_all Compile ps) as [compiled|err];
      [|discriminate].
    intros H. injection H as <-. constructor; auto.
Qed.

Lemma compile_all_error (ps : list gostring) (err : error) :
  blocklist.compile_all Compile ps = inr err ->
  exists before p after cause,
    ps = before ++ p :: after
    /\ Forall (fun q => exists re, Compile q = inl re) before
    /\ Compile p = inr cause
    /\ err = WrapE (str "invalid pattern " ++ Quote p) cause.
Proof.
  induction ps as [|p ps IH]; cbn [blocklist.compile_all]; [discriminate|].
  destruct (Compile p) as [re|cause] eqn:Ep.
  - destruct (blocklist.compile_all Compile ps) as [compiled|e];
      [discriminate|].
    intros H. injection H as <-.
    destruct (IH eq_refl) as (before & q & after & cause & -> & Hb & Hq & He).
    exists (p :: before), q, after, cause. repeat split; auto.
    constructor; eauto.
  - intros H. injection H as <-.
    exists [], p, ps, cause. repeat split; auto.
Qed.

Lemma compile_all_total (ps : list gostring) :
  Forall (fun p => exists re, Compile p = inl re) ps ->
  exists res, blocklist.compile_all Compile ps = inl res.
Proof.
  induction 1 as [|p ps [re Hp] _ [res IH]]; cbn [blocklist.compile_all].
  - now exists [].
  - rewrite Hp, IH. now exists (re :: res).
Qed.

Lemma Forall2_In_l {A B : Type} (R : A -> B -> Prop) (l : list A)
      (l' : list B) (x : A) :
  Forall2 R l l' -> In x l -> exists y, In y l' /\ R x y.
Proof.
  induction 1 as [|a b l l' Hab _ IH]; intros Hin; [destruct Hin|].
  destruct Hin as [-> | Hin].
  - exists b. split; [now left | exact Hab].
  - destruct (IH Hin) as (y & Hy & HR). exists y. split; [now right | exact HR].
Qed.

End blocklist_facts.

(** X24.  NewBlocklistValidator compiles the patterns in order: it returns
    a validator exactly when every pattern compiles, holding the compiled
    patterns in the order given, and otherwise an error that quotes the
    first pattern that does not compile.  When all the default patterns
    compile, the default validator holds twenty patterns, and, a pattern
    without metacharacters matching every text that contains it, it refuses
    every command that contains one of the words mkfs, shutdown, reboot,
    halt and poweroff anywhere, as part of a longer word or of a file name
    too; an executor with that validator then returns the error and the
    zero Output without starting a process. *)
Theorem default_blocklist_blocks_words
  (W : Type) (fmt : Fmt) (Compile : gostring -> Regexp + error) :
  (forall ps,
      (forall v, blocklist.NewBlocklistValidator Compile ps = inl v ->
                 Forall2 (fun p re => Compile p = inl re) ps
                   (agent_executor.patterns v))
      /\ (forall err, blocklist.NewBlocklistValidator Compile ps = inr err ->
            exists before p after cause,
              ps = before ++ p :: after
              /\ Forall (fun q => exists re, Compile q = inl re) before
              /\ Compile p = inr cause
              /\ err = WrapE (str "invalid pattern " ++ Quote p) cause)
      /\ (Forall (fun p => exists re, Compile p = inl re) ps ->
          exists v, blocklist.NewBlocklistValidator Compile ps = inl v))
  /\ (Forall (fun p => exists re, Compile p = inl re)
        blocklist.DefaultBlockedPatterns ->
      Forall (compiles_literally Compile) literal_patterns ->
      exists v,
        blocklist.NewDefaultBlocklistValidator Compile = Some v
        /\ List.length (agent_executor.patterns v) = 20%nat
        /\ forall word command,
             In word literal_patterns ->
             strings.Contains command word = true ->
             exists pe,
               agent_executor.Validate v command = Some (ProcessE pe)
               /\ ErrType pe = ProcessErrExecution
               /\ forall (launch : Launcher W) e ctx s,
                    agent_executor.validator e
                    = Some (agent_executor.Validate v) ->
                    agent_executor.Execute launch e ctx
                      {| Type_ := ActionTypeBash; Command := command |} s
                    = ((Output_zero, Some (ProcessE pe)), s)).
Proof.
  split.
  - intros ps. unfold blocklist.NewBlocklistValidator. split; [|split].
    + intros v. destruct (blocklist.compile_all Compile ps) as [res|err] eqn:E;
        [|discriminate].
      intros H. injection H as <-. now apply compile_all_ok.
    + intros err. destruct (blocklist.compile_all Compile ps) as [res|e] eqn:E;
        [discriminate|].
      intros H. injection H as <-. now apply compile_all_error.
    + intros Hall. destruct (compile_all_total Compile ps Hall) as [res ->].
      eexists. reflexivity.
  - intros Hall Hlit.
    destruct (compile_all_total Compile _ Hall) as [res Hres].
    pose proof (compile_all_ok Compile _ _ Hres) as HF.
    exists {| agent_executor.patterns := res |}.
    unfold blocklist.NewDefaultBlocklistValidator,
      blocklist.NewBlocklistValidator.
    rewrite Hres. split; [reflexivity|].
    split; [cbn [agent_executor.patterns];
            now rewrite <- (Forall2_length HF)|].
    intros word command Hw Hc.
    assert (Hin : In word blocklist.DefaultBlockedPatterns).
    { destruct Hw as [<- | [<- | [<- | [<- | [<- | []]]]]]; cbn; tauto. }
    destruct (Forall2_In_l _ _ _ _ HF Hin) as (re & Hre & Hcomp).
    rewrite Forall_forall in Hlit.
    destruct (Hlit word Hw) as (re' & Hcomp' & _ & Hmatch).
    rewrite Hcomp in Hcomp'. injection Hcomp' as <-.
    destruct (Validate_loop_first_match res command)
      as (before & re1 & after & Hps & Hb & Hm & HV).
    { exists re. split; [exact Hre|]. now rewrite Hmatch. }
    eexists. unfold agent_executor.Validate. cbn [agent_executor.patterns].
    rewrite HV. cbn [snd]. unfold blocked_by.
    split; [reflexivity|]. split; [reflexivity|].
    intros launch e ctx s He. unfold agent_executor.Execute.
    cbn [Type_ Command]. rewrite eqs_refl, He. cbn [negb].
    unfold agent_executor.Validate. cbn [agent_executor.patterns].
    rewrite HV. reflexivity.
Qed.

Lemma default_blocklist_blocks_words_witness :
  exists v pe,
    @blocklist.NewDefaultBlocklistValidator examples.plain_fmt
      examples2.compile_literal = Some v
    /\ @agent_executor.Validate examples.plain_fmt v (str "cat halting.txt")
       = Some (ProcessE pe)
    /\ ErrType pe = ProcessErrExecution.
Proof.
  destruct (proj2 (default_blocklist_blocks_words unit examples.plain_fmt
              examples2.compile_literal)) as (v & Hv & _ & Hw).
  - repeat constructor; eexists; reflexivity.
  - repeat constructor; eexists; repeat split.
  - destruct (Hw (str "halt") (str "cat halting.txt")) as (pe & Hpe & Ht & _).
    + cbn. tauto.
    + reflexivity.
    + exists v, pe. repeat split; assumption.
Defined.

(** * The parser and the fenced blocks of the specification *)

Lemma cut_at_sound (sep : gostring) : forall s before after,
  cut_at sep s = Some (before, after) -> s = before ++ sep ++ after.
Proof.
  induction s as [|c s IH]; intros before after; cbn [cut_at].
  - destruct (strings.CutPrefix sep []) as [r|] eqn:E; [|discriminate].
    intros [= <- <-]. now apply CutPrefix_Some in E.
  - destruct (strings.CutPrefix sep (c :: s)) as [r|] eqn:E.
    + intros [= <- <-]. now apply CutPrefix_Some in E.
    + destruct (cut_at sep s) as [[b a]|]; [|discriminate].
      intros [= <- <-]. cbn [app]. f_equal. now apply IH.
Qed.

(** The lazy group of the pattern stops where the first closing fence
    starts. *)
Lemma match_lazy_close_cut (s : gostring) :
  regexp.match_lazy_close s = cut_at closing_fence s.
Proof.
  induction s as [|c s IH]; [reflexivity|].
  cbn [regexp.match_lazy_close cut_at].
  change regexp.fence_close with closing_fence.
  destruct (strings.CutPrefix closing_fence (c :: s)); [reflexivity|].
  now rewrite IH.
Qed.

(** The first occurrence, seen from a later start. *)
Lemma cut_at_suffix (sep p q a b : gostring) :
  cut_at sep (p ++ q) = Some (p ++ a, b) -> cut_at sep q = Some (a, b).
Proof.
  induction p as [|c p IH]; [exact (fun H => H)|].
  cbn [app cut_at].
  destruct (strings.CutPrefix sep (c :: p ++ q)); [discriminate|].
  destruct (cut_at sep (p ++ q)) as [[b0 a0]|]; [|discriminate].
  intros [= E <-]. apply IH. now rewrite E.
Qed.

Lemma cut_at_Contains (sep : gostring) (s : gostring) :
  cut_at sep s = None <-> strings.Contains s sep = false.
Proof.
  induction s as [|c s IH]; cbn [cut_at strings.Contains].
  - destruct (strings.CutPrefix sep []); split; congruence.
  - destruct (strings.CutPrefix sep (c :: s)); [split; discriminate|].
    destruct (cut_at sep s) as [[b a]|].
    + split; [discriminate|]. intros H. apply IH in H. discriminate.
    + split; [intros _; now apply IH | reflexivity].
Qed.

Lemma line_space_perl (c : ascii) :
  regexp.perl_space c = line_space c || Ascii.eqb c nl.
Proof.
  unfold regexp.perl_space, line_space.
  assert (E : Ascii.eqb c nl = (code c =? 10)%N).
  { destruct (Ascii.eqb_spec c nl) as [-> | Hne]; [reflexivity|].
    symmetry. apply N.eqb_neq. intros H. apply Hne.
    rewrite <- (ascii_N_embedding c), <- (ascii_N_embedding nl).
    unfold code in H. now rewrite H. }
  rewrite E.
  destruct (code c =? 9)%N, (code c =? 10)%N, (code c =? 12)%N,
    (code c =? 13)%N, (code c =? 32)%N; reflexivity.
Qed.

Lemma opening_line_sound (t lines : gostring) :
  opening_line t = Some lines ->
  exists h, t = h ++ nl :: lines
            /\ Forall (fun c => regexp.perl_space c = true) h.
Proof.
  revert lines. induction t as [|c t IH]; intros lines; cbn [opening_line];
    [discriminate|].
  destruct (Ascii.eqb_spec c nl) as [-> | Hne].
  - intros [= <-]. exists []. split; [reflexivity | constructor].
  - destruct (line_space c) eqn:Hc; [|discriminate].
    intros H. destruct (IH _ H) as (h & -> & Hh).
    exists (c :: h). split; [reflexivity|]. constructor; [|exact Hh].
    rewrite line_space_perl, Hc. reflexivity.
Qed.

(** White space and a newline open a line sooner or later. *)
Lemma opening_line_spaces (ws x : gostring) :
  Forall (fun c => regexp.perl_space c = true) ws ->
  exists p, opening_line (ws ++ nl :: x) = Some (p ++ x).
Proof.
  induction 1 as [|c ws Hc _ [p IH]].
  - exists []. cbn [app opening_line]. now rewrite Ascii.eqb_refl.
  - cbn [app opening_line]. destruct (Ascii.eqb_spec c nl) as [-> | Hne].
    + exists (ws ++ [nl]). now rewrite <- app_assoc.
    + rewrite line_space_perl in Hc.
      destruct (line_space c); [|cbn in Hc].
      * exists p. exact IH.
      * apply Ascii.eqb_eq in Hc. contradiction.
Qed.

Lemma match_spaces_nl_pre (h y : gostring) (m : gostring * gostring) :
  Forall (fun c => regexp.perl_space c = true) h ->
  regexp.match_spaces_nl y = Some m ->
  regexp.match_spaces_nl (h ++ y) = Some m.
Proof.
  intros Hh Hy. induction Hh as [|c h Hc _ IH]; [exact Hy|].
  cbn [app regexp.match_spaces_nl]. now rewrite Hc, IH.
Qed.

(** Contents with a byte that is no white space: the white space of the
    pattern stops before that byte, and the group ends at the closing fence
    of the block. *)
Lemma spaces_nl_solid_tail (x : ascii) (c' rest y : gostring) :
  regexp.perl_space x = false ->
  forall w,
    Forall (fun c => regexp.perl_space c = true) w ->
    cut_at closing_fence (w ++ x :: y) = Some (w ++ x :: c', rest) ->
    regexp.match_spaces_nl (w ++ x :: y) = None
    \/ exists cap p,
         regexp.match_spaces_nl (w ++ x :: y) = Some (cap, rest)
         /\ w ++ x :: c' = p ++ cap
         /\ Forall (fun c => regexp.perl_space c = true) p.
Proof.
  intros Hx. induction 1 as [|a w Ha Hw IH]; intros Hcut.
  - left. cbn [app regexp.match_spaces_nl]. now rewrite Hx.
  - assert (Hcut' : cut_at closing_fence (w ++ x :: y)
                    = Some (w ++ x :: c', rest)).
    { apply (cut_at_suffix closing_fence [a]). exact Hcut. }
    cbn [app regexp.match_spaces_nl]. rewrite Ha.
    destruct (IH Hcut') as [Hn | (cap & p & Hm & Hp & Hps)].
    + rewrite Hn. destruct (Ascii.eqb a nl).
      * right. exists (w ++ x :: c'), [a].
        rewrite match_lazy_close_cut, Hcut'.
        repeat split. now constructor.
      * now left.
    + right. rewrite Hm. exists cap, (a :: p).
      split; [reflexivity|]. split; [cbn; now rewrite Hp | now constructor].
Qed.

(** White space alone before a fence. *)
Lemma cut_at_spaces (w rest : gostring) :
  Forall (fun c => regexp.perl_space c = true) w ->
  cut_at closing_fence (w ++ closing_fence ++ rest) = Some (w, rest).
Proof.
  induction 1 as [|a w Ha Hw IH].
  - reflexivity.
  - cbn [app cut_at].
    assert (E : strings.CutPrefix closing_fence
                  (a :: w ++ closing_fence ++ rest) = None).
    { unfold closing_fence at 1. cbn [strings.CutPrefix str list_ascii_of_string].
      destruct (Ascii.eqb nl a); [|reflexivity].
      destruct w as [|b w]; [reflexivity|].
      cbn [app]. inversion Hw as [|? ? Hb _]; subst.
      destruct (Ascii.eqb_spec "`"%char b) as [<- | _]; [discriminate Hb|].
      reflexivity. }
    rewrite E, IH. reflexivity.
Qed.

(** Contents of white space only, and no fence after the block: the group
    is white space of the contents. *)
Lemma spaces_nl_blank_tail (rest : gostring) :
  cut_at closing_fence rest = None ->
  forall w,
    Forall (fun c => regexp.perl_space c = true) w ->
    regexp.match_spaces_nl (w ++ closing_fence ++ rest) = None
    \/ exists cap p,
         regexp.match_spaces_nl (w ++ closing_fence ++ rest) = Some (cap, rest)
         /\ w = p ++ cap
         /\ Forall (fun c => regexp.perl_space c = true) p.
Proof.
  intros Hrest.
  assert (Hticks : regexp.match_lazy_close (str "```" ++ rest) = None).
  { rewrite match_lazy_close_cut.
    change (str "```" ++ rest)
      with ("`"%char :: "`"%char :: "`"%char :: rest).
    assert (H1 : forall r,
               cut_at closing_fence ("`"%char :: r)
               = match cut_at closing_fence r with
                 | Some (b, a) => Some ("`"%char :: b, a)
                 | None => None
                 end) by reflexivity.
    now rewrite !H1, Hrest. }
  induction 1 as [|a w Ha Hw IH].
  - left. change ([] ++ closing_fence ++ rest)
      with (nl :: "`"%char :: (str "``" ++ rest)).
    cbn [regexp.match_spaces_nl].
    change (regexp.perl_space nl) with true.
    change (regexp.perl_space "`"%char) with false. cbv iota.
    change (Ascii.eqb nl nl) with true. cbv iota. exact Hticks.
  - cbn [app regexp.match_spaces_nl]. rewrite Ha.
    destruct IH as [Hn | (cap & p & Hm & Hp & Hps)].
    + rewrite Hn. destruct (Ascii.eqb a nl).
      * right. exists w, [a].
        rewrite match_lazy_close_cut, (cut_at_spaces w rest Hw).
        repeat split. now constructor.
      * now left.
    + right. rewrite Hm. exists cap, (a :: p).
      split; [reflexivity|]. split; [cbn; now rewrite Hp | now constructor].
Qed.

Lemma trims_alike (c p cap : gostring) :
  c = p ++ cap ->
  Forall (fun x => regexp.perl_space x = true) p ->
  strings.TrimSpace cap = strings.TrimSpace c.
Proof.
  intros -> Hp. symmetry. apply TrimSpace_leading_spaces.
  eapply Forall_impl; [|exact Hp]. apply perl_space_asciiSpace.
Qed.

(** Where no block starts, the pattern does not match. *)
Lemma block_here_None (s : gostring) :
  block_here s = None -> regexp.match_here s = None.
Proof.
  unfold block_here, regexp.match_here.
  change regexp.fence_open with opening_fence.
  destruct (strings.CutPrefix opening_fence s) as [r|]; [|reflexivity].
  destruct (regexp.match_spaces_nl r) as [[cap rest]|] eqn:Em; [|reflexivity].
  apply match_spaces_nl_sound in Em. destruct Em as (ws & Hws & ->).
  destruct (opening_line_spaces ws (cap ++ regexp.fence_close ++ rest) Hws)
    as [p ->].
  rewrite <- match_lazy_close_cut.
  destruct (match_lazy_close_complete (p ++ cap) rest) as (c0 & r0 & E).
  rewrite <- app_assoc in E. rewrite E. discriminate.
Qed.

(** Where a block starts, the pattern matches up to the end of the block,
    and its group is the contents of the block less white space at their
    start, unless the block is blank and a fence follows. *)
Lemma block_here_Some (s c rest : gostring) :
  block_here s = Some (c, rest) ->
  blank_before_fence (c, rest) = false ->
  exists cap,
    regexp.match_here s = Some (cap, rest)
    /\ strings.TrimSpace cap = strings.TrimSpace c.
Proof.
  unfold block_here, regexp.match_here.
  change regexp.fence_open with opening_fence.
  destruct (strings.CutPrefix opening_fence s) as [r|]; [|discriminate].
  destruct (opening_line r) as [lines|] eqn:Eo; [|discriminate].
  intros Hcut Hblank.
  apply opening_line_sound in Eo. destruct Eo as (h & -> & Hh).
  pose proof (cut_at_sound _ _ _ _ Hcut) as El.
  assert (Hgoal : exists cap,
             regexp.match_spaces_nl (nl :: lines) = Some (cap, rest)
             /\ strings.TrimSpace cap = strings.TrimSpace c).
  { cbn [regexp.match_spaces_nl]. change (regexp.perl_space nl) with true.
    cbv iota. change (Ascii.eqb nl nl) with true.
    assert (Hmid : regexp.match_spaces_nl lines = None
                   \/ exists cap p,
                        regexp.match_spaces_nl lines = Some (cap, rest)
                        /\ c = p ++ cap
                        /\ Forall (fun x => regexp.perl_space x = true) p).
    { destruct (first_solid_byte c) as [Hall | (w & x & c' & Ec & Hw & Hx)].
      - rewrite El. apply spaces_nl_blank_tail; [|exact Hall].
        apply cut_at_Contains.
        unfold blank_before_fence in Hblank. cbn [fst snd] in Hblank.
        apply andb_false_iff in Hblank as [Hb | Hb]; [|exact Hb].
        exfalso. apply Bool.not_true_iff_false in Hb. apply Hb.
        apply forallb_forall. intros a Ha.
        rewrite Forall_forall in Hall. specialize (Hall a Ha).
        now rewrite <- line_space_perl.
      - rewrite El, Ec, <- app_assoc. cbn [app].
        rewrite Ec in Hcut. rewrite El, Ec, <- app_assoc in Hcut.
        cbn [app] in Hcut.
        destruct (spaces_nl_solid_tail x c' rest
                    (c' ++ closing_fence ++ rest) Hx w Hw Hcut)
          as [Hn | (cap & p & Hm & Hp & Hps)]; [now left|].
        right. exists cap, p. repeat split; assumption. }
    destruct Hmid as [Hn | (cap & p & Hm & Hp & Hps)].
    - rewrite Hn. cbv iota. rewrite match_lazy_close_cut, Hcut.
      exists c. split; reflexivity.
    - rewrite Hm. exists cap. split; [reflexivity|].
      now apply (trims_alike c p cap). }
  destruct Hgoal as (cap & Hm & Ht). exists cap. split; [|exact Ht].
  now apply match_spaces_nl_pre.
Qed.

Lemma block_here_fence (s c rest : gostring) :
  block_here s = Some (c, rest) -> fence_at s [] c rest.
Proof.
  unfold block_here.
  destruct (strings.CutPrefix opening_fence s) as [r|] eqn:Ep; [|discriminate].
  destruct (opening_line r) as [lines|] eqn:Eo; [|discriminate].
  intros Hcut. apply CutPrefix_Some in Ep.
  apply opening_line_sound in Eo. destruct Eo as (h & -> & Hh).
  apply cut_at_sound in Hcut. subst.
  exists h. split; [reflexivity | exact Hh].
Qed.

(** Every block of the scan of the specification is a fenced block of the
    text. *)
Lemma blocks_from_sound (s : gostring) :
  forall (skip : nat) (b : gostring * gostring),
    In b (blocks_from skip s) -> exists pre, fence_at s pre (fst b) (snd b).
Proof.
  induction s as [|c r IH]; intros skip b; [intros []|].
  cbn [blocks_from]. destruct skip as [|k].
  - destruct (block_here (c :: r)) as [[c0 rest]|] eqn:E.
    + intros [<- | Hin].
      * exists []. now apply block_here_fence.
      * destruct (IH _ _ Hin) as (pre & H).
        exists (c :: pre). now apply fence_at_cons.
    + intros Hin. destruct (IH _ _ Hin) as (pre & H).
      exists (c :: pre). now apply fence_at_cons.
  - intros Hin. destruct (IH _ _ Hin) as (pre & H).
    exists (c :: pre). now apply fence_at_cons.
Qed.

(** The matches of the pattern and the blocks of the text go together, one
    match for each block, as long as no blank block has a fence after
    it. *)
Lemma scan_blocks (s : gostring) : forall skip : nat,
  existsb blank_before_fence (blocks_from skip s) = false ->
  Forall2 (fun cap b => strings.TrimSpace cap = strings.TrimSpace (fst b))
    (regexp.scan skip s) (blocks_from skip s).
Proof.
  induction s as [|c r IH]; intros skip; [constructor|].
  cbn [regexp.scan blocks_from]. destruct skip as [|k]; [|apply IH].
  destruct (block_here (c :: r)) as [[c0 rest]|] eqn:E.
  - cbn [existsb]. intros H. apply orb_false_iff in H as [Hb Ht].
    destruct (block_here_Some _ _ _ E Hb) as (cap & -> & Hcap).
    constructor; [exact Hcap | now apply IH].
  - rewrite (block_here_None _ E). apply IH.
Qed.

(** The pattern has a match exactly when the text has a block. *)
Lemma scan_blocks_nil (s : gostring) : forall skip : nat,
  regexp.scan skip s = [] <-> blocks_from skip s = [].
Proof.
  induction s as [|c r IH]; intros skip; [split; reflexivity|].
  cbn [regexp.scan blocks_from]. destruct skip as [|k]; [|apply IH].
  destruct (block_here (c :: r)) as [[c0 rest]|] eqn:E.
  - destruct (regexp.match_here (c :: r)) as [[cap r0]|] eqn:Em;
      [split; discriminate|].
    exfalso. apply block_here_fence in E.
    now apply match_here_complete in E.
  - rewrite (block_here_None _ E). apply IH.
Qed.

(** [ParseAction] as a function of the matches of the pattern. *)
Lemma ParseAction_of_matches (response : gostring) :
  parser.ParseAction response
  = match regexp.FindAllStringSubmatch response with
    | [] => (Action_zero, Some no_command_error)
    | [m] =>
        if eqs (strings.TrimSpace m) [] then (Action_zero, Some empty_command_error)
        else ({| Type_ := ActionTypeBash; Command := strings.TrimSpace m |}, None)
    | m :: m' :: more =>
        (Action_zero,
         Some (found_commands_error
                 (Z.of_nat (List.length (m :: m' :: more)))))
    end.
Proof.
  unfold parser.ParseAction.
  destruct (regexp.FindAllStringSubmatch response) as [|m [|m' more]];
    [reflexivity | reflexivity |].
  assert (H : (1 <? Z.of_nat (List.length (m :: m' :: more))) = true).
  { apply Z.ltb_lt. cbn [List.length]. lia. }
  now rewrite H.
Qed.

(** C2.  What ParseAction does with the bash-tagged fenced blocks of a
    response, the blocks being read off the text as the specification
    describes them (an opening fence alone on its line, contents up to the
    first bare fence at the start of a line, blocks taken from left to
    right).  The white space of the pattern also runs over newlines: a
    block that holds white space only is passed over together with its
    closing fence when another bare fence starts a later line, and the
    command then begins at that closing fence.  So the response with an
    empty block, a line of prose and a block with ls has two blocks, yet
    ParseAction returns an action, whose command is the closing fence of
    the first block and the prose; and one empty block followed by a stray
    fence gives an action too, where the contents of the only block are
    empty.  For every response in which no blank block has a bare fence at
    the start of a line after it, ParseAction does what the claim says: it
    returns an action exactly when the response has one block whose
    trimmed contents are not empty, of the bash kind with the trimmed
    contents as its command; otherwise it returns the zero action with a
    format error, which tells that there is no block, or how many blocks
    there are when there are several, or that the command of the only block
    is empty.  Whatever the response, an error of ParseAction is a format
    error next to the zero action, there is no match exactly when there is
    no block, and every block is a fenced block of the text. *)
Theorem ParseAction_swallows_blank_block :
  (bash_blocks examples2.blank_then_ls = [str "  "; str "ls"]
   /\ parser.ParseAction examples2.blank_then_ls
      = ({| Type_ := ActionTypeBash;
            Command := str "```" ++ nl :: str "foo" |}, None))
  /\ (bash_blocks examples2.blank_then_stray = [[]]
      /\ parser.ParseAction examples2.blank_then_stray
         = ({| Type_ := ActionTypeBash;
               Command := str "```" ++ nl :: str "Done." |}, None))
  /\ (forall response,
      existsb blank_before_fence (blocks_from O response) = false ->
      (forall a,
          parser.ParseAction response = (a, None)
          <-> exists c, bash_blocks response = [c]
                        /\ strings.TrimSpace c <> []
                        /\ a = {| Type_ := ActionTypeBash;
                                  Command := strings.TrimSpace c |})
      /\ (forall a e,
          parser.ParseAction response = (a, Some e)
          <-> a = Action_zero
              /\ (bash_blocks response = [] /\ e = no_command_error
                  \/ (2 <= List.length (bash_blocks response))%nat
                     /\ e = found_commands_error
                              (Z.of_nat (List.length (bash_blocks response)))
                  \/ exists c, bash_blocks response = [c]
                               /\ strings.TrimSpace c = []
                               /\ e = empty_command_error)))
  /\ (forall response a e,
      parser.ParseAction response = (a, Some e) ->
      a = Action_zero
      /\ exists msg,
           e = ProcessE {| ErrType := ProcessErrFormat; ErrMessage := msg |})
  /\ (forall response,
      (regexp.FindAllStringSubmatch response = [] <-> bash_blocks response = [])
      /\ forall c, In c (bash_blocks response) ->
                   exists pre post, fence_at response pre c post).
Proof.
  split; [split; reflexivity|]. split; [split; reflexivity|].
  split; [|split].
  - intros response Hok.
    pose proof (scan_blocks response O Hok) as HF.
    rewrite ParseAction_of_matches. unfold bash_blocks.
    unfold regexp.FindAllStringSubmatch.
    destruct HF as [|m b F B Hm HF]; [|destruct HF as [|m' b' F B Hm' HF]].
    + cbn [map List.length]. split.
      * intros a. split; [discriminate | intros (c & H & _); discriminate].
      * intros a e. split.
        -- intros [= <- <-]. split; [reflexivity|]. left. split; reflexivity.
        -- intros (-> & [(_ & ->) | [(H & _) | (c & H & _)]]);
             [reflexivity | cbn in H; lia | discriminate].
    + cbn [map List.length]. rewrite Hm.
      destruct (eqs (strings.TrimSpace (fst b)) []) eqn:E.
      * apply eqs_true in E. split.
        -- intros a. split; [discriminate|].
           intros (c & [= <-] & Hne & _). contradiction.
        -- intros a e. split.
           ++ intros [= <- <-]. split; [reflexivity|]. right. right.
              exists (fst b). repeat split. exact E.
           ++ intros (-> & [(H & _) | [(H & _) | (c & _ & _ & ->)]]);
                [discriminate | cbn in H; lia | reflexivity].
      * apply eqs_false in E. split.
        -- intros a. split.
           ++ intros [= <-]. exists (fst b). repeat split. exact E.
           ++ intros (c & [= <-] & _ & ->). reflexivity.
        -- intros a e. split; [discriminate|].
           intros (_ & [(H & _) | [(H & _) | (c & [= <-] & H & _)]]);
             [discriminate | cbn in H; lia | contradiction].
    + pose proof (Forall2_length HF) as Hlen.
      cbn [map List.length]. rewrite length_map, Hlen. split.
      * intros a. split; [discriminate | intros (c & H & _); discriminate].
      * intros a e. split.
        -- intros [= <- <-]. split; [reflexivity|]. right. left.
           split; [lia | reflexivity].
        -- intros (-> & [(H & _) | [(_ & ->) | (c & H & _)]]);
             [discriminate | reflexivity | discriminate].
  - intros response a e. rewrite ParseAction_of_matches.
    destruct (regexp.FindAllStringSubmatch response) as [|m [|m' more]].
    + intros [= <- <-]. split; [reflexivity|]. eexists. reflexivity.
    + destruct (eqs (strings.TrimSpace m) []); [|discriminate].
      intros [= <- <-]. split; [reflexivity|]. eexists. reflexivity.
    + intros [= <- <-]. split; [reflexivity|]. eexists. reflexivity.
  - intros response. split.
    + unfold regexp.FindAllStringSubmatch, bash_blocks.
      rewrite (scan_blocks_nil response O).
      destruct (blocks_from O response); split; try discriminate; reflexivity.
    + intros c Hin. unfold bash_blocks in Hin. apply in_map_iff in Hin.
      destruct Hin as (b & <- & Hb).
      destruct (blocks_from_sound response O b Hb) as (pre & H).
      now exists pre, (snd b).
Qed.

Lemma ParseAction_swallows_blank_block_witness :
  parser.ParseAction (str "Listing." ++ nl :: examples.fenced (str " ls -la "))
  = ({| Type_ := ActionTypeBash; Command := str "ls -la" |}, None)
  /\ bash_blocks (str "Listing." ++ nl :: examples.fenced (str " ls -la "))
     = [str " ls -la "].
Proof.
  destruct ParseAction_swallows_blank_block as (_ & _ & H & _).
  destruct (H (str "Listing." ++ nl :: examples.fenced (str " ls -la "))
              eq_refl) as [H1 _].
  split; [|reflexivity].
  apply H1. exists (str " ls -la ").
  split; [reflexivity|]. split; [discriminate | reflexivity].
Defined.
